(** * Participant tally tool: the aggregation core of [src/app.js]

    A shallow embedding of [aggregate] (duplicate-file filter, per-file row
    loop, master ledger, summary) and of the JavaScript data it works on,
    followed by the properties of the run.

    Conventions of the embedding:
    - a JavaScript string is its sequence of UTF-16 code units;
    - [Map] and [Set] are insertion-ordered, so they are lists kept free of
      duplicate keys, with the operations of the source ([has], [get],
      [set], [add], [size]);
    - the counters are JavaScript numbers that only ever hold exact
      non-negative integers (they count rows and set elements of the
      input, far below 2^53), so they are [nat];
    - [String.prototype.toLowerCase] and [String.prototype.localeCompare]
      are tables of the host (Unicode case mapping, ICU collation): they are
      the two fields of the class [JsHost];
    - numbers that are not counters (the rate) are IEEE 754 binary64 values,
      with the operations of the standard library's [SpecFloat];
    - decoding a file (FileReader and Papa Parse) is external: a file comes
      with the outcome of its decoding, either its rows or a failure. *)

From Stdlib Require Import ZArith NArith List Lia Permutation.
From Stdlib Require Import Floats.SpecFloat.

From stdpp Require Import base tactics option list numbers strings sorting sets gmap.
Import ListNotations.

Set Default Proof Using "Type".
Local Open Scope Z_scope.

(** ** JavaScript strings *)

Module JsString.

(** A string is a list of UTF-16 code units. *)
Definition jsstring := list N.

(** Code units removed by [String.prototype.trim]: WhiteSpace (TAB, VT, FF,
    ZWNBSP and the Unicode category Zs) and LineTerminator (LF, CR, LS, PS). *)
Definition whiteSpace : list N :=
  [9; 11; 12; 32; 160; 5760;
   8192; 8193; 8194; 8195; 8196; 8197; 8198; 8199; 8200; 8201; 8202;
   8239; 8287; 12288; 65279]%N.

Definition lineTerminator : list N := [10; 13; 8232; 8233]%N.

Definition isTrimmed (c : N) : bool :=
  bool_decide (c ∈ whiteSpace ++ lineTerminator).

Fixpoint trimStart (s : jsstring) : jsstring :=
  match s with
  | [] => []
  | c :: s' => if isTrimmed c then trimStart s' else s
  end.

Definition trimEnd (s : jsstring) : jsstring := rev (trimStart (rev s)).

Definition trim (s : jsstring) : jsstring := trimEnd (trimStart s).

(** [!s] for a string [s]: only the empty string is falsy. *)
Definition isEmpty (s : jsstring) : bool :=
  match s with [] => true | _ :: _ => false end.

(** [a === b] on strings. *)
Definition strictEq (a b : jsstring) : bool := bool_decide (a = b).

(** Decimal digits of a number, most significant first: [String(n)] for a
    non-negative integer. *)
Fixpoint digitsFuel (fuel : nat) (n : N) (acc : jsstring) : jsstring :=
  match fuel with
  | O => acc
  | S fuel' =>
      let acc' := (48 + n mod 10)%N :: acc in
      if (n <? 10)%N then acc' else digitsFuel fuel' (n / 10)%N acc'
  end.

Definition ofN (n : N) : jsstring := digitsFuel (S (N.to_nat (N.log2 n))) n [].

(** Literals of the source, written as ASCII text. *)
Definition lit (s : String.string) : jsstring :=
  map (fun a => N.of_nat (Ascii.nat_of_ascii a)) (String.list_ascii_of_string s).

End JsString.
Import JsString.

(** ** The host's string tables *)

Class JsHost := {
  (** [s.toLowerCase()] *)
  toLowerCase : jsstring → jsstring;
  (** [a.localeCompare(b, 'ja')]: negative, zero or positive *)
  localeCompare : jsstring → jsstring → Z
}.

(** ECMA-402 requires [localeCompare] to be a consistent comparator: it
    orders all strings totally, up to the strings it deems equal. *)
Class ConsistentCollation (H : JsHost) : Prop := {
  collation_total : ∀ a b, localeCompare a b ≤ 0 ∨ localeCompare b a ≤ 0;
  collation_trans : ∀ a b c,
    localeCompare a b ≤ 0 → localeCompare b c ≤ 0 → localeCompare a c ≤ 0
}.

(** ** Insertion-ordered [Set] and [Map] keyed by strings *)

Module JsSet.

Definition t := list jsstring.

Definition empty : t := [].

Definition has (k : jsstring) (s : t) : bool := bool_decide (k ∈ s).

(** [s.add(k)]: a new element goes last, a present one changes nothing. *)
Definition add (k : jsstring) (s : t) : t :=
  if has k s then s else s ++ [k].

Definition size (s : t) : nat := length s.

End JsSet.

Module JsMap.

Definition t (V : Type) := list (jsstring * V).

Definition empty {V} : t V := [].

Fixpoint get {V} (k : jsstring) (m : t V) : option V :=
  match m with
  | [] => None
  | (k', v) :: m' => if bool_decide (k = k') then Some v else get k m'
  end.

Definition has {V} (k : jsstring) (m : t V) : bool :=
  match get k m with Some _ => true | None => false end.

(** [m.set(k, v)]: an existing key keeps its place, a new one goes last. *)
Fixpoint set {V} (k : jsstring) (v : V) (m : t V) : t V :=
  match m with
  | [] => [(k, v)]
  | (k', v') :: m' =>
      if bool_decide (k = k') then (k', v) :: m' else (k', v') :: set k v m'
  end.

Definition keys {V} (m : t V) : list jsstring := map fst m.

End JsMap.


(** ** A plain object used as a dictionary: [nameCnt = {}]

    The object literal inherits from [Object.prototype], so reading a key
    that is not an own property finds the inherited member of that name, if
    there is one. Own properties are listed in creation order. *)

Module JsObject.

(** The values [nameCnt] can hold: a count, or the text obtained by
    appending [1] to an inherited function or object (a string that is not
    a numeric literal, so it converts to NaN). *)
Inductive value :=
  | Num (n : nat)
  | Text.

Definition t := list (jsstring * value).

(** Data properties of [Object.prototype] (all of them functions). *)
Definition protoMethods : list jsstring :=
  map lit ["constructor"; "__defineGetter__"; "__defineSetter__";
           "hasOwnProperty"; "__lookupGetter__"; "__lookupSetter__";
           "isPrototypeOf"; "propertyIsEnumerable"; "toString"; "valueOf";
           "toLocaleString"]%string.

(** The accessor property of [Object.prototype]: its getter returns the
    prototype object, its setter ignores a value that is not an object. *)
Definition protoAccessor : jsstring := lit "__proto__".

Definition inherited (k : jsstring) : bool :=
  bool_decide (k ∈ protoAccessor :: protoMethods).

(** [(o[k] || 0) + 1] *)
Definition orZeroPlusOne (o : t) (k : jsstring) : value :=
  match JsMap.get k o with
  | Some (Num n) => Num (n + 1)
  | Some Text => Text
  | None => if inherited k then Text else Num 1
  end.

(** [o[k] = v] for a primitive [v] *)
Definition assign (o : t) (k : jsstring) (v : value) : t :=
  if bool_decide (k = protoAccessor) then o else JsMap.set k v o.

(** [c > 1]: a string that is no numeric literal compares as NaN. *)
Definition gtOne (v : value) : bool :=
  match v with
  | Num n => bool_decide (1 < n)%nat
  | Text => false
  end.

(** A key is an array index when it is the canonical decimal text of an
    integer below 2^32 - 1. *)
Definition parseDigits (k : jsstring) : option N :=
  match k with
  | [] => None
  | _ =>
      fold_left
        (fun acc c =>
           match acc with
           | Some n =>
               if ((48 <=? c) && (c <=? 57))%N then Some (10 * n + (c - 48))%N
               else None
           | None => None
           end)
        k (Some 0%N)
  end.

Definition arrayIndex (k : jsstring) : option N :=
  match parseDigits k with
  | Some n =>
      if bool_decide (ofN n = k) && (n <=? 4294967294)%N then Some n else None
  | None => None
  end.

Fixpoint insertIndexed {V} (i : N) (kv : jsstring * V)
    (l : list (N * (jsstring * V))) : list (N * (jsstring * V)) :=
  match l with
  | [] => [(i, kv)]
  | (j, kv') :: l' =>
      if (i <=? j)%N then (i, kv) :: l else (j, kv') :: insertIndexed i kv l'
  end.

(** The own properties whose key is an array index, by ascending index. *)
Fixpoint indexed {V} (o : list (jsstring * V)) : list (N * (jsstring * V)) :=
  match o with
  | [] => []
  | kv :: o' =>
      match arrayIndex kv.1 with
      | Some i => insertIndexed i kv (indexed o')
      | None => indexed o'
      end
  end.

Definition isNamed {V} (kv : jsstring * V) : bool :=
  match arrayIndex kv.1 with Some _ => false | None => true end.

(** [Object.entries(o)]: array-index keys first, in ascending order, then
    the other keys in creation order. *)
Definition entries (o : t) : list (jsstring * value) :=
  map snd (indexed o) ++ filter (fun kv => isNamed kv = true) o.

End JsObject.

(** ** Inputs of [aggregate] *)

(** A row of a decoded file: the array of its cells. With [header: false]
    and no dynamic typing Papa Parse yields strings only. *)
Definition Row := list jsstring.

Module File.

(** A [File] as [aggregate] sees it: its name, and what reading and parsing
    it gives, [result.data] or a rejection. *)
Record t := {
  name : jsstring;
  decoded : option (list Row)
}.

End File.

Record Cfg := {
  pkIdx : Z;
  nameIdx : Z;
  statusIdx : Z;
  condition : jsstring;
  headerRow : Z
}.

(** [a[i]] on an array: [undefined] outside of it. *)
Definition index {A} (a : list A) (i : Z) : option A :=
  if i <? 0 then None else a !! Z.to_nat i.

(** [a.slice(start)] *)
Definition slice {A} (a : list A) (start : Z) : list A :=
  let len := Z.of_nat (length a) in
  let k := if start <? 0 then Z.max (len + start) 0 else Z.min start len in
  drop (Z.to_nat k) a.

(** [parseCSV(file, headerRow)]: the rows after the header, or a rejection. *)
Definition parseCSV (file : File.t) (headerRow : Z) : option (list Row) :=
  match File.decoded file with
  | Some data => Some (slice data headerRow)
  | None => None
  end.

(** [row[i] != null ? String(row[i]).trim() : ''] *)
Definition cell (row : Row) (i : Z) : jsstring :=
  match index row i with
  | Some c => trim c
  | None => []
  end.

(** ** State of a run *)

Inductive Reason := duplicate_filename | parse_error.

Module Skipped.
Record t := { name : jsstring; reason : Reason }.
End Skipped.

(** A value of the [master] map: [{ name, count }]. *)
Module Entry.
Record t := { name : jsstring; count : nat }.
End Entry.

(** The variables of [aggregate] that live across files. *)
Module Run.
Record t := {
  skipped : list Skipped.t;
  master : JsMap.t Entry.t;
  grossTotal : nat;
  attendTotal : nat;
  attendUniq : JsSet.t;
  ignoredNoKey : nat;
  ignoredNoName : nat;
  processed : nat
}.
End Run.

(** The two sets of one iteration of the file loop. *)
Module Event.
Record t := {
  eventApplicants : JsSet.t;
  eventAttendees : JsSet.t
}.
End Event.

(** ** Numbers: the division and [toFixed(6)] of the rate

    [attendTotal / grossTotal] is an IEEE 754 binary64 division; the
    quotient is then printed with six decimals. *)

Module JsNumber.

Definition double := spec_float.

(** The binary64 value of an integer counter. *)
Definition ofNat (n : nat) : double := binary_normalize 53 1024 (Z.of_nat n) 0 false.

(** [a / b] *)
Definition div (a b : double) : double := SFdiv 53 1024 a b.

(** For a positive finite [m * 2^e]: the integer [n] for which
    [n / 10^6 - m * 2^e] is as close to zero as possible, the larger one
    when two are as close. *)
Definition scaled6 (m : positive) (e : Z) : Z :=
  if 0 <=? e then Z.pos m * 2 ^ e * 10 ^ 6
  else (2 * (Z.pos m * 10 ^ 6) + 2 ^ (- e)) / (2 * 2 ^ (- e)).

(** [m * 2^e >= 10^21] *)
Definition atLeast1e21 (m : positive) (e : Z) : bool :=
  if 0 <=? e then 10 ^ 21 <=? Z.pos m * 2 ^ e
  else 10 ^ 21 * 2 ^ (- e) <=? Z.pos m.

(** The digits of [n], padded on the left to seven, with the point before
    the last six. *)
Definition fixed6 (n : Z) : jsstring :=
  let m := ofN (Z.to_N n) in
  let m := replicate (7 - length m) 48%N ++ m in
  take (length m - 6) m ++ lit "." ++ drop (length m - 6) m.

End JsNumber.

(** The host also prints the numbers [toFixed] does not handle itself
    (NaN, the infinities, magnitudes from 10^21). *)
Class JsNumberHost := {
  numberToString : JsNumber.double → jsstring
}.

(** [x.toFixed(6)] *)
Definition toFixed6 `{JsNumberHost} (x : JsNumber.double) : jsstring :=
  match x with
  | S754_nan | S754_infinity _ => numberToString x
  | S754_zero _ => JsNumber.fixed6 0
  | S754_finite s m e =>
      (if s then lit "-" else []) ++
      (if JsNumber.atLeast1e21 m e then numberToString (S754_finite false m e)
       else JsNumber.fixed6 (JsNumber.scaled6 m e))
  end.

(** ** The result of [aggregate] *)

(** [rate] is the number [0] or the string made by [toFixed]. *)
Inductive RateValue :=
  | RateNumber (z : Z)
  | RateString (s : jsstring).

Module Summary.
Record t := {
  grossTotal : nat;
  attendTotal : nat;
  attendUnique : nat;
  rate : RateValue;
  ignoredNoKey : nat;
  ignoredNoName : nat
}.
End Summary.

(** A row of [masterRows]: [[pk, name, count]]. *)
Definition MasterRow := (jsstring * jsstring * nat)%type.

Module Result.
Record t := {
  processedCount : nat;
  skipped : list Skipped.t;
  masterRows : list MasterRow;
  summary : Summary.t
}.
End Result.

(** ** [Array.prototype.sort] with a comparison function

    The sort is stable: an element moves before another one only when the
    comparison function says so. For a consistent comparison function this
    fixes the result; for another one the language leaves the order to the
    engine, and the model takes the order of an insertion sort. *)

Fixpoint sortInsert {A} (cmp : A → A → Z) (x : A) (l : list A) : list A :=
  match l with
  | [] => [x]
  | y :: l' => if cmp x y <=? 0 then x :: l else y :: sortInsert cmp x l'
  end.

Definition sort {A} (cmp : A → A → Z) (l : list A) : list A :=
  foldr (sortInsert cmp) [] l.

(** ** [aggregate] *)

(** A loop whose body may throw. *)
Fixpoint forOf {S A} (body : S → A → option S) (xs : list A) (s : S) : option S :=
  match xs with
  | [] => Some s
  | x :: xs' =>
      match body s x with
      | Some s' => forOf body xs' s'
      | None => None
      end
  end.

(** Step 1: the duplicate-name filter. *)
Definition nameCnt (files : list File.t) : JsObject.t :=
  fold_left
    (fun o f => JsObject.assign o (File.name f) (JsObject.orZeroPlusOne o (File.name f)))
    files [].

Definition dupNames (files : list File.t) : JsSet.t :=
  fold_left (fun s n => JsSet.add n s)
    (map fst (filter (fun kv => JsObject.gtOne kv.2 = true)
                (JsObject.entries (nameCnt files))))
    JsSet.empty.

Definition toProcess (files : list File.t) : list File.t :=
  filter (fun f => JsSet.has (File.name f) (dupNames files) = false) files.

Definition skippedDuplicates (files : list File.t) : list Skipped.t :=
  map (fun n => {| Skipped.name := n; Skipped.reason := duplicate_filename |})
    (dupNames files).

(** Step 2: the state before the first file. *)
Definition initialRun (files : list File.t) : Run.t :=
  {| Run.skipped := skippedDuplicates files;
     Run.master := JsMap.empty;
     Run.grossTotal := 0;
     Run.attendTotal := 0;
     Run.attendUniq := JsSet.empty;
     Run.ignoredNoKey := 0;
     Run.ignoredNoName := 0;
     Run.processed := 0 |}.

Section Aggregate.

Context `{JsHost} `{JsNumberHost}.

(** The body of [for (const row of rows)]. *)
Definition rowStep (cfg : Cfg) (st : Run.t * Event.t) (row : Row) : Run.t * Event.t :=
  let '(run, ev) := st in
  let pk := cell row (pkIdx cfg) in
  let name := cell row (nameIdx cfg) in
  let status := cell row (statusIdx cfg) in
  if isEmpty pk then
    ({| Run.skipped := Run.skipped run;
        Run.master := Run.master run;
        Run.grossTotal := Run.grossTotal run;
        Run.attendTotal := Run.attendTotal run;
        Run.attendUniq := Run.attendUniq run;
        Run.ignoredNoKey := Run.ignoredNoKey run + 1;
        Run.ignoredNoName := Run.ignoredNoName run;
        Run.processed := Run.processed run |}, ev)
  else if isEmpty name then
    ({| Run.skipped := Run.skipped run;
        Run.master := Run.master run;
        Run.grossTotal := Run.grossTotal run;
        Run.attendTotal := Run.attendTotal run;
        Run.attendUniq := Run.attendUniq run;
        Run.ignoredNoKey := Run.ignoredNoKey run;
        Run.ignoredNoName := Run.ignoredNoName run + 1;
        Run.processed := Run.processed run |}, ev)
  else
    ({| Run.skipped := Run.skipped run;
        Run.master :=
          if JsMap.has pk (Run.master run) then Run.master run
          else JsMap.set pk {| Entry.name := name; Entry.count := 0 |} (Run.master run);
        Run.grossTotal := Run.grossTotal run;
        Run.attendTotal := Run.attendTotal run;
        Run.attendUniq := Run.attendUniq run;
        Run.ignoredNoKey := Run.ignoredNoKey run;
        Run.ignoredNoName := Run.ignoredNoName run;
        Run.processed := Run.processed run |},
     {| Event.eventApplicants := JsSet.add pk (Event.eventApplicants ev);
        Event.eventAttendees :=
          if strictEq (toLowerCase status) (toLowerCase (condition cfg))
          then JsSet.add pk (Event.eventAttendees ev)
          else Event.eventAttendees ev |}).

Definition emptyEvent : Event.t :=
  {| Event.eventApplicants := JsSet.empty; Event.eventAttendees := JsSet.empty |}.

Definition rowLoop (cfg : Cfg) (run : Run.t) (rows : list Row) : Run.t * Event.t :=
  fold_left (rowStep cfg) rows (run, emptyEvent).

(** The body of [for (const pk of eventAttendees)]: [master.get(pk).count++]
    throws a TypeError when [master] has no such key. *)
Definition attendeeStep (st : JsMap.t Entry.t * JsSet.t) (pk : jsstring)
    : option (JsMap.t Entry.t * JsSet.t) :=
  let '(master, attendUniq) := st in
  match JsMap.get pk master with
  | Some e =>
      Some (JsMap.set pk {| Entry.name := Entry.name e; Entry.count := Entry.count e + 1 |} master,
            JsSet.add pk attendUniq)
  | None => None
  end.

(** The body of [for (const file of toProcess)]. *)
Definition fileStep (cfg : Cfg) (run : Run.t) (file : File.t) : option Run.t :=
  match parseCSV file (headerRow cfg) with
  | None =>
      Some {| Run.skipped :=
                Run.skipped run ++
                [{| Skipped.name := File.name file; Skipped.reason := parse_error |}];
              Run.master := Run.master run;
              Run.grossTotal := Run.grossTotal run;
              Run.attendTotal := Run.attendTotal run;
              Run.attendUniq := Run.attendUniq run;
              Run.ignoredNoKey := Run.ignoredNoKey run;
              Run.ignoredNoName := Run.ignoredNoName run;
              Run.processed := Run.processed run |}
  | Some rows =>
      let '(run', ev) := rowLoop cfg run rows in
      match forOf attendeeStep (Event.eventAttendees ev)
              (Run.master run', Run.attendUniq run') with
      | Some (master', attendUniq') =>
          Some {| Run.skipped := Run.skipped run';
                  Run.master := master';
                  Run.grossTotal := Run.grossTotal run' + JsSet.size (Event.eventApplicants ev);
                  Run.attendTotal := Run.attendTotal run' + JsSet.size (Event.eventAttendees ev);
                  Run.attendUniq := attendUniq';
                  Run.ignoredNoKey := Run.ignoredNoKey run';
                  Run.ignoredNoName := Run.ignoredNoName run';
                  Run.processed := Run.processed run' + 1 |}
      | None => None
      end
  end.

(** Step 3: the rows of [master], sorted. *)
Definition compareRows (a b : MasterRow) : Z :=
  let d := Z.of_nat b.2 - Z.of_nat a.2 in
  if d =? 0 then localeCompare a.1.1 b.1.1 else d.

Definition masterRowsOf (master : JsMap.t Entry.t) : list MasterRow :=
  sort compareRows (map (fun kv => (kv.1, Entry.name kv.2, Entry.count kv.2)) master).

Definition rateOf (grossTotal attendTotal : nat) : RateValue :=
  if bool_decide (0 < grossTotal)%nat
  then RateString (toFixed6 (JsNumber.div (JsNumber.ofNat attendTotal) (JsNumber.ofNat grossTotal)))
  else RateNumber 0.

Definition finish (run : Run.t) : Result.t :=
  {| Result.processedCount := Run.processed run;
     Result.skipped := Run.skipped run;
     Result.masterRows := masterRowsOf (Run.master run);
     Result.summary :=
       {| Summary.grossTotal := Run.grossTotal run;
          Summary.attendTotal := Run.attendTotal run;
          Summary.attendUnique := JsSet.size (Run.attendUniq run);
          Summary.rate := rateOf (Run.grossTotal run) (Run.attendTotal run);
          Summary.ignoredNoKey := Run.ignoredNoKey run;
          Summary.ignoredNoName := Run.ignoredNoName run |} |}.

(** The file loop from the initial state. *)
Definition fileLoop (cfg : Cfg) (files : list File.t) : option Run.t :=
  forOf (fileStep cfg) (toProcess files) (initialRun files).

(** [aggregate(files, cfg)]: the result, or nothing when a TypeError
    escapes and the promise is rejected. *)
Definition aggregate (files : list File.t) (cfg : Cfg) : option Result.t :=
  match fileLoop cfg files with
  | Some run => Some (finish run)
  | None => None
  end.

End Aggregate.

(** ** A small host, to evaluate the model on ASCII data *)

Definition asciiLower (c : N) : N :=
  if ((65 <=? c) && (c <=? 90))%N then (c + 32)%N else c.

(** Code-unit order, as a comparison function. *)
Fixpoint codeUnitCompare (a b : jsstring) : Z :=
  match a, b with
  | [], [] => 0
  | [], _ :: _ => -1
  | _ :: _, [] => 1
  | x :: a', y :: b' =>
      if (x <? y)%N then -1 else if (y <? x)%N then 1 else codeUnitCompare a' b'
  end.

Definition asciiHost : JsHost :=
  {| toLowerCase := map asciiLower; localeCompare := codeUnitCompare |}.

(** Quotients of counters are finite and at most one, so this host prints
    nothing for the numbers [toFixed] hands over. *)
Definition quotientHost : JsNumberHost :=
  {| numberToString := fun _ => [] |}.

(** ** The call site and the notions the properties are stated with *)

(** The call in the click handler of the run button:
    [aggregate(uploadedFiles, { pkIdx, nameIdx, statusIdx,
                                condition: condInput.value.trim(), headerRow })]. *)
Definition runConfig (pkIdx nameIdx statusIdx : Z) (condInput : jsstring)
    (headerRow : Z) : Cfg :=
  {| pkIdx := pkIdx; nameIdx := nameIdx; statusIdx := statusIdx;
     condition := trim condInput; headerRow := headerRow |}.

(** A cell is absent when the row has no such column or the cell trims to
    the empty string. *)
Definition absent (row : Row) (i : Z) : bool :=
  match index row i with
  | None => true
  | Some c => isEmpty (trim c)
  end.

(** The text of a cell before trimming: [String(row[i])], empty when the
    row has no such column. *)
Definition cellText (row : Row) (i : Z) : jsstring :=
  match index row i with
  | Some c => c
  | None => []
  end.

Section Observables.

Context `{JsHost}.

(** Equality of two texts up to case, after trimming both. *)
Definition sameTextIgnoringCase (a b : jsstring) : Prop :=
  toLowerCase (trim a) = toLowerCase (trim b).

(** A row is valid when it has a key and a name. *)
Definition validRow (cfg : Cfg) (row : Row) : bool :=
  negb (absent row (pkIdx cfg)) && negb (absent row (nameIdx cfg)).

(** A valid row counts as attendance when its status is the condition. *)
Definition attends (cfg : Cfg) (row : Row) : bool :=
  strictEq (toLowerCase (cell row (statusIdx cfg))) (toLowerCase (condition cfg)).

(** The data rows of a file: those after the header, none when the file
    does not decode. *)
Definition dataRows (cfg : Cfg) (file : File.t) : list Row :=
  match parseCSV file (headerRow cfg) with
  | Some rows => rows
  | None => []
  end.

Definition decodes (file : File.t) : bool :=
  match File.decoded file with Some _ => true | None => false end.

(** The events of a run: the files that pass the duplicate filter and
    decode, in processing order. *)
Definition events (files : list File.t) : list File.t :=
  filter (fun f => decodes f = true) (toProcess files).

(** The two sets the row loop builds for a file. *)
Definition eventOf (cfg : Cfg) (file : File.t) : Event.t :=
  (rowLoop cfg (initialRun []) (dataRows cfg file)).2.

Definition uniqueApplicants (cfg : Cfg) (file : File.t) : JsSet.t :=
  Event.eventApplicants (eventOf cfg file).

Definition uniqueAttendees (cfg : Cfg) (file : File.t) : JsSet.t :=
  Event.eventAttendees (eventOf cfg file).

(** In how many of the given events a key attended. *)
Definition attendedEvents (cfg : Cfg) (pk : jsstring) (evs : list File.t) : nat :=
  length (filter (fun f => pk ∈ uniqueAttendees cfg f) evs).

(** The valid rows of the given events, in processing order. *)
Definition validRows (cfg : Cfg) (evs : list File.t) : list Row :=
  filter (fun row => validRow cfg row = true) (concat (map (dataRows cfg) evs)).

(** The first valid row that carries a key. *)
Definition firstRowOf (cfg : Cfg) (pk : jsstring) (evs : list File.t) : option Row :=
  head (filter (fun row => cell row (pkIdx cfg) = pk) (validRows cfg evs)).

End Observables.

(** How many of the files carry a name. *)
Definition occurrences (k : jsstring) (files : list File.t) : nat :=
  length (filter (fun f => File.name f = k) files).

(** What [nameCnt] holds for a key after the given files. *)
Definition nameCntOf (k : jsstring) (files : list File.t) : option JsObject.value :=
  if bool_decide (k = JsObject.protoAccessor) then None
  else if bool_decide (occurrences k files = 0%nat) then None
  else if JsObject.inherited k then Some JsObject.Text
  else Some (JsObject.Num (occurrences k files)).

(** ** The file loop, seen file by file *)

Section Views.

Context `{JsHost} `{JsNumberHost}.

(** What a row does to the variables of the run, and to the sets of its
    event: the two halves of [rowStep]. *)
Definition rowRun (cfg : Cfg) (run : Run.t) (row : Row) : Run.t :=
  (rowStep cfg (run, emptyEvent) row).1.

Definition rowEvent (cfg : Cfg) (ev : Event.t) (row : Row) : Event.t :=
  (rowStep cfg (initialRun [], ev) row).2.

Definition sumCounts (master : JsMap.t Entry.t) : nat :=
  sum_list_with (fun kv : jsstring * Entry.t => Entry.count kv.2) master.

(** The entry a valid row creates when its key is new. *)
Definition newEntry (cfg : Cfg) (row : Row) : Entry.t :=
  {| Entry.name := cell row (nameIdx cfg); Entry.count := 0 |}.

(** One more attendance for the keys of [ks]. *)
Definition attended (ks : list jsstring) (k : jsstring) (e : Entry.t) : Entry.t :=
  {| Entry.name := Entry.name e;
     Entry.count := Entry.count e + if bool_decide (k ∈ ks) then 1 else 0 |}.

(** The entry a key has in [master] once the given events are folded in:
    the name of its first valid row, and its number of attended events. *)
Definition ledgerEntry (cfg : Cfg) (pk : jsstring) (evs : list File.t) : option Entry.t :=
  match firstRowOf cfg pk evs with
  | Some row =>
      Some {| Entry.name := cell row (nameIdx cfg);
              Entry.count := attendedEvents cfg pk evs |}
  | None => None
  end.

(** The state of the run after the events [evs]. *)
Record Tally (cfg : Cfg) (evs : list File.t) (run : Run.t) : Prop := {
  tally_keys : NoDup (JsMap.keys (Run.master run));
  tally_uniq : NoDup (Run.attendUniq run);
  tally_gross :
    Run.grossTotal run = sum_list_with (fun f => JsSet.size (uniqueApplicants cfg f)) evs;
  tally_attend :
    Run.attendTotal run = sum_list_with (fun f => JsSet.size (uniqueAttendees cfg f)) evs;
  tally_sum : sumCounts (Run.master run) = Run.attendTotal run;
  tally_uniq_elem :
    ∀ k, k ∈ Run.attendUniq run ↔ ∃ f, f ∈ evs ∧ k ∈ uniqueAttendees cfg f;
  tally_get : ∀ k, JsMap.get k (Run.master run) = ledgerEntry cfg k evs;
  tally_processed : Run.processed run = length evs;
  tally_noKey :
    Run.ignoredNoKey run =
    length (filter (fun row => absent row (pkIdx cfg) = true)
              (concat (map (dataRows cfg) evs)));
  tally_noName :
    Run.ignoredNoName run =
    length (filter (fun row => absent row (pkIdx cfg) = false ∧
                               absent row (nameIdx cfg) = true)
              (concat (map (dataRows cfg) evs)))
}.

(** The run without its list of skipped files: the variables the totals
    and the ledger are made of. *)
Definition tallies (run : Run.t) : Run.t :=
  {| Run.skipped := [];
     Run.master := Run.master run;
     Run.grossTotal := Run.grossTotal run;
     Run.attendTotal := Run.attendTotal run;
     Run.attendUniq := Run.attendUniq run;
     Run.ignoredNoKey := Run.ignoredNoKey run;
     Run.ignoredNoName := Run.ignoredNoName run;
     Run.processed := Run.processed run |}.

(** A file fails when the file loop reaches it and it does not decode. *)
Definition fails (files : list File.t) (f : File.t) : bool :=
  negb (JsSet.has (File.name f) (dupNames files)) && negb (decodes f).

(** The submission without its failing files. *)
Definition withoutFailed (files : list File.t) : list File.t :=
  filter (fun f => fails files f = false) files.

(** The entries of [skipped] for the files that do not decode. *)
Definition parseErrors (files : list File.t) : list Skipped.t :=
  map (fun f => {| Skipped.name := File.name f; Skipped.reason := parse_error |})
    (filter (fun f => decodes f = false) files).

End Views.

(** The count of a key in the ledger, when it has a row. *)
Definition ledgerCount (rows : list MasterRow) (pk : jsstring) : option nat :=
  match filter (fun r : MasterRow => r.1.1 = pk) rows with
  | r :: _ => Some r.2
  | [] => None
  end.

(** The order [masterRows] is to be in: more attendances first, and among
    equal counts the key that collates first. *)
Definition ledgerOrder `{JsHost} (a b : MasterRow) : Prop :=
  (b.2 ≤ a.2)%nat ∧ (a.2 = b.2 → localeCompare a.1.1 b.1.1 ≤ 0).

(** ** Sample data *)

(** Settings for files that hold key, name and status in columns A, B and
    C, with the condition typed with blanks around it. *)
Definition sampleCfg : Cfg := runConfig 0 1 2 (lit " approved ") 1.

Definition sampleFile (name : string) (rows : list (list string)) : File.t :=
  {| File.name := lit name; File.decoded := Some (map (map lit) rows) |}.

Definition brokenFile (name : string) : File.t :=
  {| File.name := lit name; File.decoded := None |}.

Definition spring : File.t :=
  sampleFile "spring.csv"
    [["id"; "name"; "status"];
     ["K1"; "Alice"; "Approved"];
     ["K1"; "Alice"; " approved"];
     ["K2"; ""; "approved"];
     [""; "Bob"; "approved"];
     ["K3"; "Carol"; "declined"]]%string.

Definition autumn : File.t :=
  sampleFile "autumn.csv"
    [["id"; "name"; "status"];
     ["K3"; "Caroline"; "APPROVED"];
     ["K1"; "Alice A."; "approved"];
     ["K4"; "Dan"]]%string.

(** ** Notions for the further properties *)

Global Instance Reason_eq_dec : EqDecision Reason.
Proof. solve_decision. Defined.

Global Instance Skipped_eq_dec : EqDecision Skipped.t.
Proof. solve_decision. Defined.

(** The entry of [skipped] a duplicated name gets. *)
Definition duplicateEntry (name : jsstring) : Skipped.t :=
  {| Skipped.name := name; Skipped.reason := duplicate_filename |}.

(** The rows of [masterRows] whose count is not zero. *)
Definition attendedRows (rows : list MasterRow) : list MasterRow :=
  filter (fun row : MasterRow => (0 < row.2)%nat) rows.

(** ** The serializers of [src/app.js]

    [escField], [buildCSV], [buildMasterCSV] and the HTML escape [esc]. *)

(** [s.replace(/c/g, by)] for a pattern that is one character. *)
Definition replaceChar (c : N) (by_ : jsstring) (s : jsstring) : jsstring :=
  flat_map (fun x => if (x =? c)%N then by_ else [x]) s.

(** The code units the serializers look for. *)
Definition ampersand : N := 38.
Definition lessThan : N := 60.
Definition greaterThan : N := 62.
Definition quote : N := 34.
Definition comma : N := 44.
Definition lineFeed : N := 10.
Definition carriageReturn : N := 13.

(** [esc(s)]: the four replacements, in the order of the source. *)
Definition esc (s : jsstring) : jsstring :=
  replaceChar quote (lit "&quot;")
    (replaceChar greaterThan (lit "&gt;")
       (replaceChar lessThan (lit "&lt;")
          (replaceChar ampersand (lit "&amp;") s))).

(** What a cell of a table to serialize can be: a string, a number (the
    counters and the rate [0], integers far below 10^21, which print as
    their digits), or [null] / [undefined]. *)
Inductive CsvValue :=
  | CsvText (s : jsstring)
  | CsvNumber (z : Z)
  | CsvNull.

(** [String(z)] for such a number. *)
Definition numberText (z : Z) : jsstring :=
  if z <? 0 then lit "-" ++ ofN (Z.to_N (- z)) else ofN (Z.to_N z).

(** [String(val != null ? val : '')] *)
Definition valueText (v : CsvValue) : jsstring :=
  match v with
  | CsvText s => s
  | CsvNumber z => numberText z
  | CsvNull => []
  end.

(** The test of [escField]: the text has a comma, a quote, a line feed or
    a carriage return. *)
Definition needsQuoting (s : jsstring) : bool :=
  existsb (fun c => bool_decide (c ∈ [comma; quote; lineFeed; carriageReturn])) s.

(** The text of a field, quoted when it has to be. *)
Definition escText (s : jsstring) : jsstring :=
  if needsQuoting s then [quote] ++ replaceChar quote [quote; quote] s ++ [quote] else s.

Definition escField (v : CsvValue) : jsstring := escText (valueText v).

(** [parts.join(sep)] on an array of strings. *)
Definition join (sep : jsstring) (parts : list jsstring) : jsstring :=
  match parts with
  | [] => []
  | p :: ps => p ++ flat_map (fun q => sep ++ q) ps
  end.

Definition buildCSV (headers : list CsvValue) (rows : list (list CsvValue)) : jsstring :=
  join [lineFeed] (map (fun row => join [comma] (map escField row)) (headers :: rows)).

(** The header of [master_counts.csv]. *)
Definition masterHeaders : list CsvValue :=
  [CsvText [20027; 12461; 12540]%N;
   CsvText [21517; 21069]%N;
   CsvText [21442; 21152; 22238; 25968]%N].

Definition masterCells (row : MasterRow) : list CsvValue :=
  [CsvText row.1.1; CsvText row.1.2; CsvNumber (Z.of_nat row.2)].

Definition buildMasterCSV (rows : list MasterRow) : jsstring :=
  buildCSV masterHeaders (map masterCells rows).

(** ** The form of the page *)

(** [String.prototype.toUpperCase] is a table of the host as well. *)
Class JsUpperHost := {
  toUpperCase : jsstring → jsstring
}.

Definition isColumnLetter (c : N) : bool := ((65 <=? c) && (c <=? 90))%N.

(** [col.toUpperCase().trim().replace(/[^A-Z]/g, '')] *)
Definition columnLetters `{JsUpperHost} (col : jsstring) : jsstring :=
  filter (fun c => isColumnLetter c = true) (trim (toUpperCase col)).

(** The loop of [colLetterToIndex]. The numbers are binary64 values; they
    are the exact integers written here as long as they stay below 2^53,
    that is for at most eleven letters. *)
Definition lettersValue (letters : jsstring) : Z :=
  fold_left (fun idx c => idx * 26 + (Z.of_N c - 64)) letters 0.

Definition colLetterToIndex `{JsUpperHost} (col : jsstring) : Z :=
  let col := columnLetters col in
  if isEmpty col then -1 else lettersValue col - 1.

(** [parseInt(s)] without a radix: leading blanks, a sign, [0x] or [0X] for
    base sixteen, then the longest run of digits; no digit gives NaN, here
    [None]. The value is the exact integer, which is the binary64 result
    below 2^53. *)
Definition digitValue (radix : Z) (c : N) : option Z :=
  let v :=
    if ((48 <=? c) && (c <=? 57))%N then Some (Z.of_N c - 48)
    else if ((97 <=? c) && (c <=? 122))%N then Some (Z.of_N c - 87)
    else if ((65 <=? c) && (c <=? 90))%N then Some (Z.of_N c - 55)
    else None in
  match v with
  | Some d => if d <? radix then Some d else None
  | None => None
  end.

Fixpoint parseDigitsFrom (radix : Z) (s : jsstring) (acc : option Z) : option Z :=
  match s with
  | [] => acc
  | c :: s' =>
      match digitValue radix c with
      | Some d =>
          parseDigitsFrom radix s' (Some (match acc with Some a => a * radix + d | None => d end))
      | None => acc
      end
  end.

Definition parseInt (s : jsstring) : option Z :=
  let s := trimStart s in
  let '(sign, s) :=
    match s with
    | 45%N :: s' => (-1, s')
    | 43%N :: s' => (1, s')
    | _ => (1, s)
    end in
  let '(radix, s) :=
    match s with
    | 48%N :: 120%N :: s' => (16, s')
    | 48%N :: 88%N :: s' => (16, s')
    | _ => (10, s)
    end in
  match parseDigitsFrom radix s None with
  | Some n => Some (sign * n)
  | None => None
  end.

(** The values of the five inputs when the run button is clicked. *)
Module Form.
Record t := {
  headerRow : jsstring;
  pkCol : jsstring;
  nameCol : jsstring;
  statusCol : jsstring;
  condition : jsstring
}.
End Form.

(** What the click does: an alert about the columns and no run, or a run
    with the configuration it built. *)
Inductive Click :=
  | InvalidColumns
  | Started (cfg : Cfg) (result : option Result.t).

Section Page.

Context `{JsHost} `{JsNumberHost} `{JsUpperHost}.

(** [Math.max(1, parseInt(headerRowInput.value) || 1)] *)
Definition headerRowOf (value : jsstring) : Z :=
  Z.max 1 (match parseInt value with
           | Some 0 | None => 1
           | Some n => n
           end).

(** The click handler of the run button, up to the rendering of the result. *)
Definition onRunClick (form : Form.t) (uploadedFiles : list File.t) : Click :=
  let headerRow := headerRowOf (Form.headerRow form) in
  let pkIdx := colLetterToIndex (Form.pkCol form) in
  let nameIdx := colLetterToIndex (Form.nameCol form) in
  let statusIdx := colLetterToIndex (Form.statusCol form) in
  if (pkIdx <? 0) || (nameIdx <? 0) || (statusIdx <? 0) then InvalidColumns
  else
    let cfg := runConfig pkIdx nameIdx statusIdx (Form.condition form) headerRow in
    Started cfg (aggregate uploadedFiles cfg).

End Page.

(** [cnt[f.name] > 1] in [renderFileList]: the own value when there is one;
    an inherited member and [undefined] compare as NaN. *)
Definition cnt (uploadedFiles : list File.t) : JsObject.t :=
  fold_left
    (fun o f => JsObject.assign o (File.name f) (JsObject.orZeroPlusOne o (File.name f)))
    uploadedFiles [].

(** The flag [dup] of a file in [renderFileList]: it puts the badge on. *)
Definition dup (uploadedFiles : list File.t) (f : File.t) : bool :=
  match JsMap.get (File.name f) (cnt uploadedFiles) with
  | Some v => JsObject.gtOne v
  | None => false
  end.

(** The warning of [renderResults] about skipped files: hidden, or shown
    with the HTML of its list. *)
Definition skippedWarning (skipped : list Skipped.t) : option jsstring :=
  let dups := filter (fun s => Skipped.reason s = duplicate_filename) skipped in
  if bool_decide (0 < length dups)%nat
  then Some (join [] (map (fun s => lit "<li>" ++ esc (Skipped.name s) ++ lit "</li>") dups))
  else None.

(** ** Readers, to state what the serializers keep *)

(** What [esc] makes of one character. *)
Definition escChar (c : N) : jsstring :=
  if (c =? ampersand)%N then lit "&amp;"
  else if (c =? lessThan)%N then lit "&lt;"
  else if (c =? greaterThan)%N then lit "&gt;"
  else if (c =? quote)%N then lit "&quot;"
  else [c].

(** The number a run of decimal digits denotes. *)
Definition digitsNumber (ds : jsstring) : N :=
  fold_left (fun a c => (10 * a + (c - 48))%N) ds 0%N.

Definition isDigit (c : N) : Prop := (48 ≤ c ≤ 57)%N.

(** A field that was not quoted ends before the next comma or line feed. *)
Fixpoint readPlain (l : jsstring) : jsstring * jsstring :=
  match l with
  | [] => ([], [])
  | c :: l' =>
      if (c =? comma)%N || (c =? lineFeed)%N then ([], l)
      else let '(f, r) := readPlain l' in (c :: f, r)
  end.

(** A quoted field, after its opening quote: two quotes stand for one, a
    single one ends the field. *)
Fixpoint readQuoted (l : jsstring) : jsstring * jsstring :=
  match l with
  | [] => ([], [])
  | c :: l1 =>
      if (c =? quote)%N then
        match l1 with
        | [] => ([], [])
        | d :: l2 =>
            if (d =? quote)%N then let '(f, r) := readQuoted l2 in (quote :: f, r)
            else ([], l1)
        end
      else let '(f, r) := readQuoted l1 in (c :: f, r)
  end.

(** The first field of a text, and what follows it. *)
Definition readField (l : jsstring) : jsstring * jsstring :=
  match l with
  | [] => ([], [])
  | c :: l' => if (c =? quote)%N then readQuoted l' else readPlain l
  end.

(** What may follow a field, and what may follow a line. *)
Definition afterField (t : jsstring) : Prop :=
  t = [] ∨ ∃ t', t = comma :: t' ∨ t = lineFeed :: t'.

Definition afterLine (t : jsstring) : Prop :=
  t = [] ∨ ∃ t', t = lineFeed :: t'.

(** ** More sample data *)

Definition asciiUpper (c : N) : N :=
  if ((97 <=? c) && (c <=? 122))%N then (c - 32)%N else c.

Definition asciiUpperHost : JsUpperHost := {| toUpperCase := map asciiUpper |}.

(** The form as the page fills it in when it loads. *)
Definition defaultForm : Form.t :=
  {| Form.headerRow := lit "1"; Form.pkCol := lit "E"; Form.nameCol := lit "B";
     Form.statusCol := lit "H"; Form.condition := lit "approved" |}.

(** * Properties *)

(** ** Strings *)

Lemma isEmpty_true (s : jsstring) : isEmpty s = true ↔ s = [].
Proof. destruct s; simpl; split; congruence. Qed.

Lemma absent_cell (row : Row) (i : Z) : absent row i = isEmpty (cell row i).
Proof. unfold absent, cell. destruct (index row i); reflexivity. Qed.

(** Trimming a trimmed text changes nothing. *)
Lemma trimStart_length (s : jsstring) : (length (trimStart s) ≤ length s)%nat.
Proof.
  induction s as [|c s IH]; simpl; [lia|]. destruct (isTrimmed c); simpl; lia.
Qed.

Lemma trimStart_idemp (s : jsstring) : trimStart (trimStart s) = trimStart s.
Proof.
  induction s as [|c s IH]; simpl; [reflexivity|].
  destruct (isTrimmed c) eqn:Hc; [exact IH|]. simpl. rewrite Hc. reflexivity.
Qed.

Lemma trimEnd_idemp (s : jsstring) : trimEnd (trimEnd s) = trimEnd s.
Proof. unfold trimEnd. rewrite rev_involutive, trimStart_idemp. reflexivity. Qed.

Lemma trimStart_snoc_kept (l : jsstring) (c : N) :
  isTrimmed c = false → ∃ w, trimStart (l ++ [c]) = w ++ [c].
Proof.
  intros Hc. induction l as [|x l IH]; simpl.
  - rewrite Hc. exists []. reflexivity.
  - destruct (isTrimmed x); [exact IH|]. exists (x :: l). reflexivity.
Qed.

Lemma trimStart_trimEnd (u : jsstring) : trimStart u = u → trimStart (trimEnd u) = trimEnd u.
Proof.
  destruct u as [|c u]; [reflexivity|]. simpl.
  destruct (isTrimmed c) eqn:Hc.
  - intros Heq. pose proof (trimStart_length u) as Hlen. rewrite Heq in Hlen.
    simpl in Hlen. lia.
  - intros _. unfold trimEnd. simpl.
    destruct (trimStart_snoc_kept (rev u) c Hc) as [w ->].
    rewrite rev_app_distr. simpl. rewrite Hc. reflexivity.
Qed.

Lemma trim_idemp (s : jsstring) : trim (trim s) = trim s.
Proof.
  unfold trim. rewrite trimStart_trimEnd by apply trimStart_idemp.
  apply trimEnd_idemp.
Qed.

(** ** [Set] *)

Lemma JsSet_has_true k (s : JsSet.t) : JsSet.has k s = true ↔ k ∈ s.
Proof. unfold JsSet.has. apply bool_decide_eq_true. Qed.

Lemma JsSet_has_false k (s : JsSet.t) : JsSet.has k s = false ↔ k ∉ s.
Proof. unfold JsSet.has. apply bool_decide_eq_false. Qed.

Lemma JsSet_elem_of_add x k (s : JsSet.t) : x ∈ JsSet.add k s ↔ x = k ∨ x ∈ s.
Proof.
  unfold JsSet.add. destruct (JsSet.has k s) eqn:Hk.
  - apply JsSet_has_true in Hk. split; [auto|]. intros [->|]; assumption.
  - rewrite elem_of_app, list_elem_of_singleton. tauto.
Qed.

Lemma JsSet_NoDup_add k (s : JsSet.t) : NoDup s → NoDup (JsSet.add k s).
Proof.
  intros Hs. unfold JsSet.add. destruct (JsSet.has k s) eqn:Hk; [assumption|].
  apply JsSet_has_false in Hk. apply NoDup_app. split; [assumption|].
  split; [|apply NoDup_singleton].
  intros x Hx ->%list_elem_of_singleton. contradiction.
Qed.

Lemma JsSet_size_add k (s : JsSet.t) :
  JsSet.size (JsSet.add k s) = (JsSet.size s + if JsSet.has k s then 0 else 1)%nat.
Proof.
  unfold JsSet.add, JsSet.size. destruct (JsSet.has k s); [lia|].
  rewrite length_app. reflexivity.
Qed.

(** ** [Map] *)

Section JsMapFacts.

Context {V : Type}.
Implicit Types (m : JsMap.t V) (k : jsstring).

Lemma JsMap_get_None k m : JsMap.get k m = None ↔ k ∉ JsMap.keys m.
Proof.
  induction m as [|[k' v] m IH]; simpl.
  - split; [intros _; apply not_elem_of_nil | reflexivity].
  - rewrite not_elem_of_cons. case_bool_decide; [|tauto].
    split; [discriminate | intros []; contradiction].
Qed.

Lemma JsMap_get_Some k m v : JsMap.get k m = Some v → (k, v) ∈ m.
Proof.
  induction m as [|[k' v'] m IH]; simpl; [discriminate|].
  case_bool_decide.
  - intros [= ->]. subst. apply list_elem_of_here.
  - intros. apply list_elem_of_further. auto.
Qed.

Lemma JsMap_elem_get k m v : NoDup (JsMap.keys m) → (k, v) ∈ m → JsMap.get k m = Some v.
Proof.
  induction m as [|[k' v'] m IH]; simpl.
  - intros _ []%elem_of_nil.
  - intros [Hk Hm]%NoDup_cons [Heq|Hin]%elem_of_cons.
    + injection Heq as -> ->. rewrite bool_decide_eq_true_2; reflexivity.
    + case_bool_decide; [|auto]. subst. exfalso. apply Hk.
      apply (list_elem_of_fmap_2 fst) in Hin. exact Hin.
Qed.

Lemma JsMap_has_true k m : JsMap.has k m = true ↔ k ∈ JsMap.keys m.
Proof.
  unfold JsMap.has. destruct (JsMap.get k m) eqn:Hg.
  - split; [intros _|reflexivity].
    destruct (decide (k ∈ JsMap.keys m)) as [|Hn]; [assumption|].
    apply JsMap_get_None in Hn. congruence.
  - apply JsMap_get_None in Hg. split; [discriminate | contradiction].
Qed.

Lemma JsMap_get_set_eq k v m : JsMap.get k (JsMap.set k v m) = Some v.
Proof.
  induction m as [|[k' v'] m IH]; simpl.
  - rewrite bool_decide_eq_true_2; reflexivity.
  - case_bool_decide as Hk; simpl.
    + rewrite bool_decide_eq_true_2; [reflexivity | assumption].
    + rewrite bool_decide_eq_false_2; assumption.
Qed.

Lemma JsMap_get_set_ne k k' v m : k ≠ k' → JsMap.get k' (JsMap.set k v m) = JsMap.get k' m.
Proof.
  intros Hne. induction m as [|[k0 v0] m IH]; simpl.
  - rewrite bool_decide_eq_false_2; [reflexivity | congruence].
  - case_bool_decide as Hk; simpl; [|rewrite IH; reflexivity].
    subst k0. rewrite !bool_decide_eq_false_2 by congruence. reflexivity.
Qed.

Lemma JsMap_keys_set k v m :
  JsMap.keys (JsMap.set k v m) = if JsMap.has k m then JsMap.keys m else JsMap.keys m ++ [k].
Proof.
  unfold JsMap.has. induction m as [|[k' v'] m IH]; simpl; [reflexivity|].
  case_bool_decide as Hk; simpl; [reflexivity|].
  fold (JsMap.keys (JsMap.set k v m)) (JsMap.keys m).
  rewrite IH. destruct (JsMap.get k m); reflexivity.
Qed.

Lemma JsMap_NoDup_set k v m : NoDup (JsMap.keys m) → NoDup (JsMap.keys (JsMap.set k v m)).
Proof.
  intros Hm. rewrite JsMap_keys_set. destruct (JsMap.has k m) eqn:Hk; [assumption|].
  apply NoDup_app. split; [assumption|]. split; [|apply NoDup_singleton].
  intros x Hx ->%list_elem_of_singleton.
  apply JsMap_has_true in Hx. congruence.
Qed.

End JsMapFacts.

(** ** The row loop *)

Section RowLoop.

Context `{JsHost} `{JsNumberHost}.
Implicit Types (cfg : Cfg) (run : Run.t) (ev : Event.t) (row : Row) (k : jsstring).

Lemma rowStep_split cfg run ev row :
  rowStep cfg (run, ev) row = (rowRun cfg run row, rowEvent cfg ev row).
Proof.
  unfold rowRun, rowEvent, rowStep.
  destruct (isEmpty (cell row (pkIdx cfg))); [reflexivity|].
  destruct (isEmpty (cell row (nameIdx cfg))); reflexivity.
Qed.

Lemma rowLoop_split cfg rows run ev :
  fold_left (rowStep cfg) rows (run, ev) =
  (fold_left (rowRun cfg) rows run, fold_left (rowEvent cfg) rows ev).
Proof.
  revert run ev. induction rows as [|row rows IH]; intros run ev; cbn [fold_left];
    [reflexivity|].
  rewrite rowStep_split. apply IH.
Qed.

Lemma eventOf_fold cfg file :
  eventOf cfg file = fold_left (rowEvent cfg) (dataRows cfg file) emptyEvent.
Proof. unfold eventOf, rowLoop. rewrite rowLoop_split. reflexivity. Qed.

Lemma rowEvent_valid cfg ev row :
  validRow cfg row = true →
  rowEvent cfg ev row =
  {| Event.eventApplicants := JsSet.add (cell row (pkIdx cfg)) (Event.eventApplicants ev);
     Event.eventAttendees :=
       if attends cfg row then JsSet.add (cell row (pkIdx cfg)) (Event.eventAttendees ev)
       else Event.eventAttendees ev |}.
Proof.
  unfold validRow, rowEvent, rowStep, attends. rewrite !absent_cell.
  destruct (isEmpty (cell row (pkIdx cfg))); [discriminate|].
  destruct (isEmpty (cell row (nameIdx cfg))); [discriminate|]. reflexivity.
Qed.

Lemma rowEvent_invalid cfg ev row : validRow cfg row = false → rowEvent cfg ev row = ev.
Proof.
  unfold validRow, rowEvent, rowStep. rewrite !absent_cell.
  destruct (isEmpty (cell row (pkIdx cfg))); [reflexivity|].
  destruct (isEmpty (cell row (nameIdx cfg))); [reflexivity | discriminate].
Qed.

Lemma applicants_fold cfg rows ev k :
  k ∈ Event.eventApplicants (fold_left (rowEvent cfg) rows ev) ↔
  k ∈ Event.eventApplicants ev ∨
  ∃ row, row ∈ rows ∧ validRow cfg row = true ∧ cell row (pkIdx cfg) = k.
Proof.
  revert ev. induction rows as [|row rows IH]; intros ev; simpl.
  - split; [auto|]. intros [|(row & []%elem_of_nil & _)]. assumption.
  - rewrite IH. destruct (validRow cfg row) eqn:Hv.
    + rewrite rowEvent_valid by assumption. simpl. rewrite JsSet_elem_of_add. split.
      * intros [[->|Hk]|(r & Hr & Hvr & Hkr)]; [right|left|right]; eauto using list_elem_of_here, list_elem_of_further.
      * intros [Hk|(r & [->|Hr]%elem_of_cons & Hvr & Hkr)]; eauto 6.
    + rewrite rowEvent_invalid by assumption. split.
      * intros [Hk|(r & Hr & Hvr & Hkr)]; eauto 6 using list_elem_of_further.
      * intros [Hk|(r & [->|Hr]%elem_of_cons & Hvr & Hkr)]; [auto|congruence|eauto 6].
Qed.

Lemma attendees_fold cfg rows ev k :
  k ∈ Event.eventAttendees (fold_left (rowEvent cfg) rows ev) ↔
  k ∈ Event.eventAttendees ev ∨
  ∃ row, row ∈ rows ∧ validRow cfg row = true ∧ attends cfg row = true ∧
         cell row (pkIdx cfg) = k.
Proof.
  revert ev. induction rows as [|row rows IH]; intros ev; simpl.
  - split; [auto|]. intros [|(row & []%elem_of_nil & _)]. assumption.
  - rewrite IH. destruct (validRow cfg row) eqn:Hv.
    + rewrite rowEvent_valid by assumption. simpl.
      destruct (attends cfg row) eqn:Ha.
      * rewrite JsSet_elem_of_add. split.
        -- intros [[->|Hk]|(r & Hr & Hvr & Har & Hkr)]; [right|left|right];
             eauto 7 using list_elem_of_here, list_elem_of_further.
        -- intros [Hk|(r & [->|Hr]%elem_of_cons & Hvr & Har & Hkr)]; eauto 7.
      * split.
        -- intros [Hk|(r & Hr & Hvr & Har & Hkr)]; eauto 7 using list_elem_of_further.
        -- intros [Hk|(r & [->|Hr]%elem_of_cons & Hvr & Har & Hkr)];
             [auto|congruence|eauto 7].
    + rewrite rowEvent_invalid by assumption. split.
      * intros [Hk|(r & Hr & Hvr & Har & Hkr)]; eauto 7 using list_elem_of_further.
      * intros [Hk|(r & [->|Hr]%elem_of_cons & Hvr & Har & Hkr)]; [auto|congruence|eauto 7].
Qed.

Lemma event_NoDup_fold cfg rows ev :
  NoDup (Event.eventApplicants ev) → NoDup (Event.eventAttendees ev) →
  NoDup (Event.eventApplicants (fold_left (rowEvent cfg) rows ev)) ∧
  NoDup (Event.eventAttendees (fold_left (rowEvent cfg) rows ev)).
Proof.
  revert ev. induction rows as [|row rows IH]; intros ev Hp Ht; simpl; [auto|].
  apply IH; destruct (validRow cfg row) eqn:Hv;
    rewrite ?rowEvent_valid, ?rowEvent_invalid by assumption; simpl;
    try assumption; [apply JsSet_NoDup_add; assumption|].
  destruct (attends cfg row); [apply JsSet_NoDup_add|]; assumption.
Qed.

(** The sets of an event, read off the rows of its file. *)
Lemma uniqueApplicants_spec cfg file k :
  k ∈ uniqueApplicants cfg file ↔
  ∃ row, row ∈ dataRows cfg file ∧ validRow cfg row = true ∧ cell row (pkIdx cfg) = k.
Proof.
  unfold uniqueApplicants. rewrite eventOf_fold, applicants_fold. simpl.
  split; [intros [[]%elem_of_nil|]; assumption | auto].
Qed.

Lemma uniqueAttendees_spec cfg file k :
  k ∈ uniqueAttendees cfg file ↔
  ∃ row, row ∈ dataRows cfg file ∧ validRow cfg row = true ∧ attends cfg row = true ∧
         cell row (pkIdx cfg) = k.
Proof.
  unfold uniqueAttendees. rewrite eventOf_fold, attendees_fold. simpl.
  split; [intros [[]%elem_of_nil|]; assumption | auto].
Qed.

Lemma uniqueApplicants_NoDup cfg file : NoDup (uniqueApplicants cfg file).
Proof.
  unfold uniqueApplicants. rewrite eventOf_fold.
  apply event_NoDup_fold; apply NoDup_nil_2.
Qed.

Lemma uniqueAttendees_NoDup cfg file : NoDup (uniqueAttendees cfg file).
Proof.
  unfold uniqueAttendees. rewrite eventOf_fold.
  apply event_NoDup_fold; apply NoDup_nil_2.
Qed.

Lemma attendees_applicants cfg file k :
  k ∈ uniqueAttendees cfg file → k ∈ uniqueApplicants cfg file.
Proof.
  rewrite uniqueAttendees_spec, uniqueApplicants_spec.
  intros (row & ? & ? & ? & ?). eauto.
Qed.

Lemma attendees_le_applicants cfg file :
  (JsSet.size (uniqueAttendees cfg file) ≤ JsSet.size (uniqueApplicants cfg file))%nat.
Proof.
  apply submseteq_length, NoDup_submseteq; [apply uniqueAttendees_NoDup|].
  intros k. apply attendees_applicants.
Qed.

End RowLoop.

(** ** What the rows of a file do to the run *)

Section RowRun.

Context `{JsHost} `{JsNumberHost}.
Implicit Types (cfg : Cfg) (run : Run.t) (row : Row) (k : jsstring).

Lemma JsMap_set_fresh {V} k (v : V) (m : JsMap.t V) :
  JsMap.get k m = None → JsMap.set k v m = m ++ [(k, v)].
Proof.
  induction m as [|[k' v'] m IH]; simpl; [reflexivity|].
  case_bool_decide; [discriminate|]. intros Hg. rewrite IH by assumption. reflexivity.
Qed.

Lemma sumCounts_app m1 m2 : sumCounts (m1 ++ m2) = (sumCounts m1 + sumCounts m2)%nat.
Proof. apply sum_list_with_app. Qed.

Lemma rowRun_noKey cfg run row :
  absent row (pkIdx cfg) = true →
  rowRun cfg run row =
  {| Run.skipped := Run.skipped run; Run.master := Run.master run;
     Run.grossTotal := Run.grossTotal run; Run.attendTotal := Run.attendTotal run;
     Run.attendUniq := Run.attendUniq run;
     Run.ignoredNoKey := Run.ignoredNoKey run + 1;
     Run.ignoredNoName := Run.ignoredNoName run;
     Run.processed := Run.processed run |}.
Proof.
  unfold rowRun, rowStep. rewrite absent_cell. intros ->. reflexivity.
Qed.

Lemma rowRun_noName cfg run row :
  absent row (pkIdx cfg) = false → absent row (nameIdx cfg) = true →
  rowRun cfg run row =
  {| Run.skipped := Run.skipped run; Run.master := Run.master run;
     Run.grossTotal := Run.grossTotal run; Run.attendTotal := Run.attendTotal run;
     Run.attendUniq := Run.attendUniq run;
     Run.ignoredNoKey := Run.ignoredNoKey run;
     Run.ignoredNoName := Run.ignoredNoName run + 1;
     Run.processed := Run.processed run |}.
Proof.
  unfold rowRun, rowStep. rewrite !absent_cell. intros -> ->. reflexivity.
Qed.

Lemma rowRun_valid cfg run row :
  validRow cfg row = true →
  rowRun cfg run row =
  {| Run.skipped := Run.skipped run;
     Run.master :=
       if JsMap.has (cell row (pkIdx cfg)) (Run.master run) then Run.master run
       else JsMap.set (cell row (pkIdx cfg)) (newEntry cfg row) (Run.master run);
     Run.grossTotal := Run.grossTotal run; Run.attendTotal := Run.attendTotal run;
     Run.attendUniq := Run.attendUniq run;
     Run.ignoredNoKey := Run.ignoredNoKey run;
     Run.ignoredNoName := Run.ignoredNoName run;
     Run.processed := Run.processed run |}.
Proof.
  unfold validRow, rowRun, rowStep. rewrite !absent_cell.
  destruct (isEmpty (cell row (pkIdx cfg))); [discriminate|].
  destruct (isEmpty (cell row (nameIdx cfg))); [discriminate|]. reflexivity.
Qed.

(** The three cases of a row. *)
Lemma row_cases cfg row :
  absent row (pkIdx cfg) = true ∨
  (absent row (pkIdx cfg) = false ∧ absent row (nameIdx cfg) = true) ∨
  validRow cfg row = true.
Proof.
  unfold validRow.
  destruct (absent row (pkIdx cfg)); [auto|].
  destruct (absent row (nameIdx cfg)); auto.
Qed.

Lemma validRow_present cfg row :
  validRow cfg row = true ↔
  absent row (pkIdx cfg) = false ∧ absent row (nameIdx cfg) = false.
Proof.
  unfold validRow.
  destruct (absent row (pkIdx cfg)), (absent row (nameIdx cfg)); simpl;
    intuition congruence.
Qed.

(** The variables the row loop never touches. *)
Lemma rowRun_fold_frame cfg rows run :
  let run' := fold_left (rowRun cfg) rows run in
  Run.skipped run' = Run.skipped run ∧ Run.grossTotal run' = Run.grossTotal run ∧
  Run.attendTotal run' = Run.attendTotal run ∧ Run.attendUniq run' = Run.attendUniq run ∧
  Run.processed run' = Run.processed run.
Proof.
  revert run. induction rows as [|row rows IH]; intros run; cbn [fold_left]; [auto 6|].
  destruct (IH (rowRun cfg run row)) as (-> & -> & -> & -> & ->).
  destruct (row_cases cfg row) as [Hk|[[Hk Hn]|Hv]];
    rewrite ?rowRun_noKey, ?rowRun_noName, ?rowRun_valid by assumption; auto 6.
Qed.

Lemma rowRun_fold_counters cfg rows run :
  let run' := fold_left (rowRun cfg) rows run in
  Run.ignoredNoKey run' =
    (Run.ignoredNoKey run +
     length (filter (fun row => absent row (pkIdx cfg) = true) rows))%nat ∧
  Run.ignoredNoName run' =
    (Run.ignoredNoName run +
     length (filter (fun row => absent row (pkIdx cfg) = false ∧
                                absent row (nameIdx cfg) = true) rows))%nat.
Proof.
  revert run. induction rows as [|row rows IH]; intros run; cbn [fold_left].
  - simpl. lia.
  - destruct (IH (rowRun cfg run row)) as [-> ->].
    destruct (row_cases cfg row) as [Hk|[[Hk Hn]|Hv]].
    + rewrite rowRun_noKey by assumption. simpl.
      rewrite filter_cons_True by assumption.
      rewrite filter_cons_False by (intros [? _]; congruence). simpl. lia.
    + rewrite rowRun_noName by assumption. simpl.
      rewrite filter_cons_False by congruence.
      rewrite filter_cons_True by auto. simpl. lia.
    + rewrite rowRun_valid by assumption. simpl.
      apply validRow_present in Hv as [Hk Hn].
      rewrite filter_cons_False by congruence.
      rewrite filter_cons_False by (intros [_ ?]; congruence). lia.
Qed.

Lemma rowRun_fold_master cfg rows run :
  let run' := fold_left (rowRun cfg) rows run in
  (NoDup (JsMap.keys (Run.master run)) → NoDup (JsMap.keys (Run.master run'))) ∧
  sumCounts (Run.master run') = sumCounts (Run.master run) ∧
  ∀ k, JsMap.get k (Run.master run') =
       match JsMap.get k (Run.master run) with
       | Some e => Some e
       | None =>
           newEntry cfg <$>
           head (filter (fun row => cell row (pkIdx cfg) = k)
                   (filter (fun row => validRow cfg row = true) rows))
       end.
Proof.
  revert run. induction rows as [|row rows IH]; intros run; cbn [fold_left].
  - simpl. split; [auto|]. split; [reflexivity|].
    intros k. destruct (JsMap.get k (Run.master run)); reflexivity.
  - destruct (IH (rowRun cfg run row)) as (IHd & -> & IHg). clear IH.
    destruct (validRow cfg row) eqn:Hv.
    + rewrite rowRun_valid in * by assumption. simpl in *.
      rewrite filter_cons_True by assumption.
      destruct (JsMap.has (cell row (pkIdx cfg)) (Run.master run)) eqn:Hhas.
      * split; [exact IHd|]. split; [reflexivity|]. intros k. rewrite IHg.
        destruct (JsMap.get k (Run.master run)) eqn:Hg; [reflexivity|].
        rewrite filter_cons_False; [reflexivity|]. intros <-.
        unfold JsMap.has in Hhas. rewrite Hg in Hhas. discriminate.
      * assert (Hfresh : JsMap.get (cell row (pkIdx cfg)) (Run.master run) = None).
        { unfold JsMap.has in Hhas.
          destruct (JsMap.get (cell row (pkIdx cfg)) (Run.master run)); congruence. }
        split; [intros Hd; apply IHd, JsMap_NoDup_set, Hd|].
        split.
        { rewrite JsMap_set_fresh, sumCounts_app by assumption.
          unfold sumCounts. simpl. lia. }
        intros k. rewrite IHg.
        destruct (decide (cell row (pkIdx cfg) = k)) as [<-|Hne].
        -- rewrite JsMap_get_set_eq, Hfresh.
           rewrite filter_cons_True by reflexivity. reflexivity.
        -- rewrite JsMap_get_set_ne by assumption.
           rewrite filter_cons_False by assumption. reflexivity.
    + assert (Hm : Run.master (rowRun cfg run row) = Run.master run).
      { destruct (row_cases cfg row) as [Hk|[[Hk Hn]|Hv']]; [| |congruence];
          rewrite ?rowRun_noKey, ?rowRun_noName by assumption; reflexivity. }
      rewrite Hm in *. rewrite filter_cons_False by congruence.
      split; [exact IHd|]. split; [reflexivity | exact IHg].
Qed.

End RowRun.

(** ** The attendee loop of a file *)

Section AttendeeLoop.

Implicit Types (master : JsMap.t Entry.t) (uniq : JsSet.t) (k : jsstring).

Lemma sumCounts_set_existing k (v e : Entry.t) master :
  JsMap.get k master = Some e →
  (sumCounts (JsMap.set k v master) + Entry.count e = sumCounts master + Entry.count v)%nat.
Proof.
  unfold sumCounts. induction master as [|[k' v'] m IH]; simpl; [discriminate|].
  case_bool_decide; simpl.
  - intros [= ->]. lia.
  - intros Hg. specialize (IH Hg). lia.
Qed.

Lemma attendeeLoop ks master uniq :
  NoDup ks → (∀ k, k ∈ ks → k ∈ JsMap.keys master) →
  ∃ master' uniq',
    forOf attendeeStep ks (master, uniq) = Some (master', uniq') ∧
    JsMap.keys master' = JsMap.keys master ∧
    sumCounts master' = (sumCounts master + length ks)%nat ∧
    (∀ k, JsMap.get k master' = attended ks k <$> JsMap.get k master) ∧
    (NoDup uniq → NoDup uniq') ∧
    (∀ k, k ∈ uniq' ↔ k ∈ uniq ∨ k ∈ ks).
Proof.
  revert master uniq. induction ks as [|k0 ks IH]; intros master uniq Hnd Hin.
  - exists master, uniq. simpl. split; [reflexivity|]. split; [reflexivity|].
    split; [lia|]. split.
    + intros k. destruct (JsMap.get k master) as [[n c]|]; simpl; [|reflexivity].
      unfold attended. simpl. rewrite Nat.add_0_r. reflexivity.
    + split; [auto|]. intros k. rewrite elem_of_nil. tauto.
  - apply NoDup_cons in Hnd as [Hk0 Hnd].
    assert (Hkey : k0 ∈ JsMap.keys master) by (apply Hin, list_elem_of_here).
    destruct (JsMap.get k0 master) as [e|] eqn:Hg;
      [|apply JsMap_get_None in Hg; contradiction].
    set (e' := {| Entry.name := Entry.name e; Entry.count := Entry.count e + 1 |}).
    assert (Hkeys : JsMap.keys (JsMap.set k0 e' master) = JsMap.keys master).
    { rewrite JsMap_keys_set. unfold JsMap.has. rewrite Hg. reflexivity. }
    destruct (IH (JsMap.set k0 e' master) (JsSet.add k0 uniq) Hnd)
      as (master' & uniq' & Hrun & Hk' & Hsum & Hget & Hnu & Hel).
    { intros k Hk. rewrite Hkeys. apply Hin, list_elem_of_further, Hk. }
    exists master', uniq'. cbn [forOf attendeeStep]. rewrite Hg. fold e'.
    split; [exact Hrun|]. split; [congruence|]. split.
    { rewrite Hsum. pose proof (sumCounts_set_existing k0 e' e master Hg) as Hs.
      subst e'. simpl in *. lia. }
    split.
    { intros k. rewrite Hget. destruct (decide (k0 = k)) as [<-|Hne].
      - rewrite JsMap_get_set_eq, Hg. simpl. f_equal. unfold attended. subst e'. simpl.
        rewrite bool_decide_eq_false_2 by assumption.
        rewrite bool_decide_eq_true_2 by apply list_elem_of_here.
        f_equal. lia.
      - rewrite JsMap_get_set_ne by assumption.
        destruct (JsMap.get k master) as [ek|]; simpl; [|reflexivity].
        f_equal. unfold attended. f_equal.
        destruct (decide (k ∈ ks)) as [Hks|Hks].
        + rewrite !bool_decide_eq_true_2; auto using list_elem_of_further.
        + rewrite !bool_decide_eq_false_2; [reflexivity | | assumption].
          intros [?|?]%elem_of_cons; congruence. }
    split.
    { intros Hu. apply Hnu, JsSet_NoDup_add, Hu. }
    intros k. rewrite Hel, JsSet_elem_of_add, elem_of_cons. tauto.
Qed.

End AttendeeLoop.

(** ** One file *)

Section FileStep.

Context `{JsHost} `{JsNumberHost}.
Implicit Types (cfg : Cfg) (run : Run.t) (file : File.t) (k : jsstring).

Lemma decodes_parseCSV cfg file :
  decodes file = true → parseCSV file (headerRow cfg) = Some (dataRows cfg file).
Proof.
  unfold decodes, dataRows, parseCSV. destruct (File.decoded file); [reflexivity|discriminate].
Qed.

Lemma fails_parseCSV cfg file : decodes file = false → parseCSV file (headerRow cfg) = None.
Proof.
  unfold decodes, parseCSV. destruct (File.decoded file); [discriminate|reflexivity].
Qed.

Lemma head_app {A} (l1 l2 : list A) :
  head (l1 ++ l2) = match head l1 with Some x => Some x | None => head l2 end.
Proof. destruct l1; reflexivity. Qed.

Lemma validRows_snoc cfg evs file :
  validRows cfg (evs ++ [file]) =
  validRows cfg evs ++ filter (fun row => validRow cfg row = true) (dataRows cfg file).
Proof.
  unfold validRows. rewrite map_app, concat_app, filter_app. simpl.
  rewrite app_nil_r. reflexivity.
Qed.

Lemma firstRowOf_snoc cfg k evs file :
  firstRowOf cfg k (evs ++ [file]) =
  match firstRowOf cfg k evs with
  | Some row => Some row
  | None =>
      head (filter (fun row => cell row (pkIdx cfg) = k)
              (filter (fun row => validRow cfg row = true) (dataRows cfg file)))
  end.
Proof. unfold firstRowOf. rewrite validRows_snoc, filter_app, head_app. reflexivity. Qed.

Lemma attendedEvents_snoc cfg k evs file :
  attendedEvents cfg k (evs ++ [file]) =
  (attendedEvents cfg k evs +
   if bool_decide (k ∈ uniqueAttendees cfg file) then 1 else 0)%nat.
Proof.
  unfold attendedEvents. rewrite filter_app, length_app. f_equal.
  case_bool_decide.
  - rewrite filter_cons_True by assumption. reflexivity.
  - rewrite filter_cons_False by assumption. reflexivity.
Qed.

Lemma head_filter_None {A} (P : A → Prop) `{∀ x, Decision (P x)} (l : list A) :
  head (filter P l) = None ↔ ∀ x, x ∈ l → ¬ P x.
Proof.
  induction l as [|x l IH].
  - split; [intros _ y []%elem_of_nil | reflexivity].
  - destruct (decide (P x)) as [Hx|Hx].
    + rewrite filter_cons_True by assumption. simpl. split; [discriminate|].
      intros Hall. exfalso. exact (Hall x (list_elem_of_here _ _) Hx).
    + rewrite filter_cons_False by assumption. rewrite IH. split.
      * intros Hall y [->|Hy]%elem_of_cons; auto.
      * intros Hall y Hy. apply Hall, list_elem_of_further, Hy.
Qed.

Lemma elem_of_concat {A} (x : A) (ls : list (list A)) :
  x ∈ concat ls ↔ ∃ l, l ∈ ls ∧ x ∈ l.
Proof.
  induction ls as [|l ls IH]; simpl.
  - split; [intros []%elem_of_nil | intros (l & []%elem_of_nil & _)].
  - rewrite elem_of_app, IH. split.
    + intros [Hx|(l' & Hl' & Hx)]; eauto using list_elem_of_here, list_elem_of_further.
    + intros (l' & [->|Hl']%elem_of_cons & Hx); eauto.
Qed.

Lemma filter_none {A} (P : A → Prop) `{∀ x, Decision (P x)} (l : list A) :
  (∀ x, x ∈ l → ¬ P x) → filter P l = [].
Proof.
  induction l as [|x l IH]; intros Hall; [reflexivity|].
  rewrite filter_cons_False by (apply Hall, list_elem_of_here).
  apply IH. intros y Hy. apply Hall, list_elem_of_further, Hy.
Qed.

Lemma elem_of_validRows cfg evs row :
  row ∈ validRows cfg evs ↔
  validRow cfg row = true ∧ ∃ f, f ∈ evs ∧ row ∈ dataRows cfg f.
Proof.
  unfold validRows. rewrite list_elem_of_filter, elem_of_concat.
  split.
  - intros [Hv (rows & (f & -> & Hf)%list_elem_of_fmap & Hr)]. eauto.
  - intros [Hv (f & Hf & Hr)]. split; [assumption|].
    exists (dataRows cfg f). split; [|assumption]. apply list_elem_of_fmap. eauto.
Qed.

(** A key with no valid row attended nothing. *)
Lemma attendedEvents_unseen cfg k evs :
  firstRowOf cfg k evs = None → attendedEvents cfg k evs = 0%nat.
Proof.
  unfold firstRowOf, attendedEvents. rewrite head_filter_None. intros Hnone.
  rewrite filter_none; [reflexivity|].
  intros f Hf (row & Hr & Hv & _ & Hk)%uniqueAttendees_spec.
  apply (Hnone row); [|assumption]. apply elem_of_validRows. eauto.
Qed.

End FileStep.

(** ** The file loop keeps the tally *)

Section FileLoop.

Context `{JsHost} `{JsNumberHost}.
Implicit Types (cfg : Cfg) (run : Run.t) (file : File.t) (k : jsstring).

Lemma fileStep_failed cfg run file :
  decodes file = false →
  fileStep cfg run file =
  Some {| Run.skipped :=
            Run.skipped run ++
            [{| Skipped.name := File.name file; Skipped.reason := parse_error |}];
          Run.master := Run.master run;
          Run.grossTotal := Run.grossTotal run;
          Run.attendTotal := Run.attendTotal run;
          Run.attendUniq := Run.attendUniq run;
          Run.ignoredNoKey := Run.ignoredNoKey run;
          Run.ignoredNoName := Run.ignoredNoName run;
          Run.processed := Run.processed run |}.
Proof. intros Hf. unfold fileStep. rewrite fails_parseCSV by assumption. reflexivity. Qed.

Lemma dataRows_snoc cfg evs file :
  concat (map (dataRows cfg) (evs ++ [file])) =
  concat (map (dataRows cfg) evs) ++ dataRows cfg file.
Proof. rewrite map_app, concat_app. simpl. rewrite app_nil_r. reflexivity. Qed.

Lemma ledgerEntry_snoc cfg k evs file :
  ledgerEntry cfg k (evs ++ [file]) =
  attended (uniqueAttendees cfg file) k <$>
  match ledgerEntry cfg k evs with
  | Some e => Some e
  | None =>
      newEntry cfg <$>
      head (filter (fun row => cell row (pkIdx cfg) = k)
              (filter (fun row => validRow cfg row = true) (dataRows cfg file)))
  end.
Proof.
  unfold ledgerEntry. rewrite firstRowOf_snoc, attendedEvents_snoc.
  destruct (firstRowOf cfg k evs) as [row|] eqn:Hfirst; [reflexivity|].
  rewrite (attendedEvents_unseen _ _ _ Hfirst).
  destruct (head _) as [row|]; reflexivity.
Qed.

Lemma fileStep_decoded cfg evs run file :
  Tally cfg evs run → decodes file = true →
  ∃ run', fileStep cfg run file = Some run' ∧ Tally cfg (evs ++ [file]) run' ∧
          Run.skipped run' = Run.skipped run.
Proof.
  intros HT Hdec. unfold fileStep. rewrite decodes_parseCSV by assumption.
  unfold rowLoop. rewrite rowLoop_split, <- eventOf_fold.
  set (run1 := fold_left (rowRun cfg) (dataRows cfg file) run).
  destruct (rowRun_fold_frame cfg (dataRows cfg file) run) as (Hsk & Hgr & Hat & Hun & Hpr).
  destruct (rowRun_fold_counters cfg (dataRows cfg file) run) as (HnoKey & HnoName).
  destruct (rowRun_fold_master cfg (dataRows cfg file) run) as (Hnd & Hsum & Hget).
  fold run1 in Hsk, Hgr, Hat, Hun, Hpr, HnoKey, HnoName, Hnd, Hsum, Hget.
  fold (uniqueAttendees cfg file) (uniqueApplicants cfg file).
  destruct (attendeeLoop (uniqueAttendees cfg file) (Run.master run1) (Run.attendUniq run1))
    as (master' & uniq' & Hloop & Hkeys & Hsum' & Hget' & Hnu & Hel).
  { apply uniqueAttendees_NoDup. }
  { intros k (row & Hr & Hv & _ & Hk)%uniqueAttendees_spec.
    destruct (decide (k ∈ JsMap.keys (Run.master run1))) as [|Hn]; [assumption|].
    apply JsMap_get_None in Hn. rewrite Hget in Hn.
    destruct (JsMap.get k (Run.master run)); [discriminate|].
    apply fmap_None, head_filter_None with (x := row) in Hn; [contradiction|].
    apply list_elem_of_filter. auto. }
  rewrite Hloop. eexists. split; [reflexivity|]. split; [|exact Hsk].
  destruct HT as [Tk Tu Tg Ta Ts Te Tget Tp Tnk Tnn].
  constructor; simpl.
  - rewrite Hkeys. auto.
  - apply Hnu. rewrite Hun. assumption.
  - rewrite sum_list_with_app, Hgr, Tg. simpl. lia.
  - rewrite sum_list_with_app, Hat, Ta. simpl. lia.
  - rewrite Hsum', Hsum, Ts, Hat. reflexivity.
  - intros k. rewrite Hel, Hun, Te. split.
    + intros [(f & Hf & Hk)|Hk]; [exists f | exists file]; split; try assumption.
      * apply elem_of_app. auto.
      * apply elem_of_app. right. apply list_elem_of_here.
    + intros (f & [Hf|Hf]%elem_of_app & Hk); [eauto|].
      apply list_elem_of_singleton in Hf. subst f. auto.
  - intros k. rewrite Hget', Hget, Tget, ledgerEntry_snoc. reflexivity.
  - rewrite Hpr, Tp, length_app. simpl. reflexivity.
  - rewrite HnoKey, Tnk, dataRows_snoc, filter_app, length_app. reflexivity.
  - rewrite HnoName, Tnn, dataRows_snoc, filter_app, length_app. reflexivity.
Qed.

Lemma Tally_initial cfg files : Tally cfg [] (initialRun files).
Proof.
  constructor; simpl; try reflexivity; try apply NoDup_nil_2.
  intros k. rewrite elem_of_nil. split; [tauto|]. intros (f & []%elem_of_nil & _).
Qed.

Lemma Tally_skipped cfg evs run sk :
  Tally cfg evs run →
  Tally cfg evs
    {| Run.skipped := sk; Run.master := Run.master run;
       Run.grossTotal := Run.grossTotal run; Run.attendTotal := Run.attendTotal run;
       Run.attendUniq := Run.attendUniq run; Run.ignoredNoKey := Run.ignoredNoKey run;
       Run.ignoredNoName := Run.ignoredNoName run; Run.processed := Run.processed run |}.
Proof. intros []. constructor; assumption. Qed.

(** The loop over any list of files never throws; it folds in the files
    that decode and reports the others. *)
Lemma forOf_fileStep cfg files evs run :
  Tally cfg evs run →
  ∃ run', forOf (fileStep cfg) files run = Some run' ∧
          Tally cfg (evs ++ filter (fun f => decodes f = true) files) run' ∧
          Run.skipped run' = Run.skipped run ++ parseErrors files.
Proof.
  revert evs run. induction files as [|file files IH]; intros evs run HT.
  - exists run. simpl. rewrite !app_nil_r. auto.
  - cbn [forOf]. destruct (decodes file) eqn:Hdec.
    + destruct (fileStep_decoded cfg evs run file HT Hdec) as (run1 & -> & HT1 & Hsk1).
      destruct (IH _ _ HT1) as (run' & Hrun & HT' & Hsk').
      exists run'. split; [exact Hrun|].
      rewrite filter_cons_True by assumption.
      rewrite <- app_assoc in HT'. split; [exact HT'|].
      rewrite Hsk', Hsk1. unfold parseErrors.
      rewrite filter_cons_False by congruence. reflexivity.
    + rewrite fileStep_failed by assumption.
      edestruct (IH evs) as (run' & Hrun & HT' & Hsk');
        [apply Tally_skipped, HT|].
      exists run'. split; [exact Hrun|].
      rewrite filter_cons_False by congruence. split; [exact HT'|].
      rewrite Hsk'. simpl. unfold parseErrors.
      rewrite filter_cons_True by assumption. simpl. rewrite <- app_assoc. reflexivity.
Qed.

(** The run as a whole. *)
Lemma fileLoop_tally cfg files :
  ∃ run, fileLoop cfg files = Some run ∧ Tally cfg (events files) run ∧
         Run.skipped run = skippedDuplicates files ++ parseErrors (toProcess files).
Proof.
  destruct (forOf_fileStep cfg (toProcess files) [] (initialRun files)
              (Tally_initial cfg files)) as (run & Hrun & HT & Hsk).
  exists run. auto.
Qed.

Lemma aggregate_tally cfg files :
  ∃ run, aggregate files cfg = Some (finish run) ∧ Tally cfg (events files) run ∧
         Run.skipped run = skippedDuplicates files ++ parseErrors (toProcess files).
Proof.
  destruct (fileLoop_tally cfg files) as (run & Hrun & HT & Hsk).
  exists run. unfold aggregate. rewrite Hrun. auto.
Qed.

End FileLoop.

(** ** Sorting *)

Section Sort.

Context {A : Type} (cmp : A → A → Z).

Lemma sortInsert_perm x l : sortInsert cmp x l ≡ₚ x :: l.
Proof.
  induction l as [|y l IH]; simpl; [reflexivity|].
  destruct (cmp x y <=? 0); [reflexivity|].
  rewrite IH. apply Permutation_swap.
Qed.

Lemma sort_perm l : sort cmp l ≡ₚ l.
Proof.
  unfold sort. induction l as [|x l IH]; simpl; [reflexivity|].
  rewrite sortInsert_perm, IH. reflexivity.
Qed.

Hypothesis cmp_total : ∀ a b, cmp a b ≤ 0 ∨ cmp b a ≤ 0.
Hypothesis cmp_trans : ∀ a b c, cmp a b ≤ 0 → cmp b c ≤ 0 → cmp a c ≤ 0.

Lemma sortInsert_sorted x l :
  StronglySorted (fun a b => cmp a b ≤ 0) l →
  StronglySorted (fun a b => cmp a b ≤ 0) (sortInsert cmp x l).
Proof using cmp_total cmp_trans.
  induction 1 as [|y l Hl IH Hy]; simpl.
  - repeat constructor.
  - destruct (Z.leb_spec (cmp x y) 0) as [Hxy|Hxy].
    + constructor; [constructor; assumption|].
      constructor; [assumption|].
      eapply Forall_impl; [exact Hy|]. intros z Hz. simpl in Hz. eauto.
    + constructor; [assumption|].
      rewrite sortInsert_perm. constructor; [|assumption].
      destruct (cmp_total x y); [lia | assumption].
Qed.

Lemma sort_sorted l : StronglySorted (fun a b => cmp a b ≤ 0) (sort cmp l).
Proof using cmp_total cmp_trans.
  unfold sort. induction l as [|x l IH]; simpl; [constructor|].
  apply sortInsert_sorted, IH.
Qed.

End Sort.

Lemma StronglySorted_impl {A} (R S : A → A → Prop) (l : list A) :
  (∀ a b, R a b → S a b) → StronglySorted R l → StronglySorted S l.
Proof.
  intros HRS. induction 1 as [|x l Hl IH Hx]; constructor; [assumption|].
  eapply Forall_impl; [exact Hx|]. auto.
Qed.

Section Ledger.

Context `{JsHost}.

Lemma compareRows_order (a b : MasterRow) : compareRows a b ≤ 0 ↔ ledgerOrder a b.
Proof.
  unfold compareRows, ledgerOrder.
  destruct (Z.eqb_spec (Z.of_nat b.2 - Z.of_nat a.2) 0) as [Heq|Hne].
  - split; [intros Hc; split; [lia | auto] | intros [_ Hc]; apply Hc; lia].
  - split; [intros Hc; split; lia | intros [Hle _]; lia].
Qed.

Lemma masterRowsOf_perm (master : JsMap.t Entry.t) :
  masterRowsOf master ≡ₚ
  map (fun kv : jsstring * Entry.t => (kv.1, Entry.name kv.2, Entry.count kv.2)) master.
Proof. apply sort_perm. Qed.

Lemma masterRowsOf_keys (master : JsMap.t Entry.t) :
  map (fun r : MasterRow => r.1.1) (masterRowsOf master) ≡ₚ JsMap.keys master.
Proof.
  rewrite masterRowsOf_perm. unfold JsMap.keys. rewrite map_map. reflexivity.
Qed.

Lemma elem_of_masterRowsOf (master : JsMap.t Entry.t) pk name count :
  NoDup (JsMap.keys master) →
  (pk, name, count) ∈ masterRowsOf master ↔
  JsMap.get pk master = Some {| Entry.name := name; Entry.count := count |}.
Proof.
  intros Hnd. rewrite masterRowsOf_perm. split.
  - intros ([k [n c]] & [= -> -> ->] & Hin)%list_elem_of_fmap.
    apply JsMap_elem_get; assumption.
  - intros Hg%JsMap_get_Some. apply list_elem_of_fmap.
    exists (pk, {| Entry.name := name; Entry.count := count |}). auto.
Qed.

Lemma sumCounts_masterRowsOf (master : JsMap.t Entry.t) :
  sum_list_with (fun r : MasterRow => r.2) (masterRowsOf master) = sumCounts master.
Proof.
  rewrite masterRowsOf_perm. unfold sumCounts.
  induction master as [|kv m IH]; simpl; [reflexivity|]. rewrite IH. reflexivity.
Qed.

Lemma masterRowsOf_sorted `{!ConsistentCollation H} (master : JsMap.t Entry.t) :
  StronglySorted ledgerOrder (masterRowsOf master).
Proof.
  unfold masterRowsOf.
  eapply StronglySorted_impl; [|apply sort_sorted].
  - intros a b. apply compareRows_order.
  - intros a b. unfold compareRows.
    destruct (Z.eqb_spec (Z.of_nat b.2 - Z.of_nat a.2) 0) as [Hab|Hab];
      destruct (Z.eqb_spec (Z.of_nat a.2 - Z.of_nat b.2) 0) as [Hba|Hba];
      try lia. apply collation_total.
  - intros a b c. unfold compareRows.
    destruct (Z.eqb_spec (Z.of_nat b.2 - Z.of_nat a.2) 0) as [Hab|Hab];
      destruct (Z.eqb_spec (Z.of_nat c.2 - Z.of_nat b.2) 0) as [Hbc|Hbc];
      destruct (Z.eqb_spec (Z.of_nat c.2 - Z.of_nat a.2) 0) as [Hac|Hac];
      try lia. apply collation_trans.
Qed.

End Ledger.

(** ** The duplicate-name filter *)

Section DuplicateFilter.

Implicit Types (files : list File.t) (k : jsstring) (o : JsObject.t).

Lemma occurrences_snoc k files f :
  occurrences k (files ++ [f]) =
  (occurrences k files + if bool_decide (File.name f = k) then 1 else 0)%nat.
Proof.
  unfold occurrences. rewrite filter_app, length_app. f_equal.
  case_bool_decide.
  - rewrite filter_cons_True by assumption. reflexivity.
  - rewrite filter_cons_False by assumption. reflexivity.
Qed.

Lemma occurrences_perm k files files' :
  files ≡ₚ files' → occurrences k files = occurrences k files'.
Proof. intros Hp. unfold occurrences. rewrite Hp. reflexivity. Qed.

Lemma inherited_protoAccessor : JsObject.inherited JsObject.protoAccessor = true.
Proof. reflexivity. Qed.

(** One step of [files.forEach(f => { nameCnt[f.name] = ... })]. *)
Lemma nameCnt_step o seen f :
  NoDup (JsMap.keys o) → (∀ k, JsMap.get k o = nameCntOf k seen) →
  let o' := JsObject.assign o (File.name f) (JsObject.orZeroPlusOne o (File.name f)) in
  NoDup (JsMap.keys o') ∧ ∀ k, JsMap.get k o' = nameCntOf k (seen ++ [f]).
Proof.
  intros Hnd Hget. unfold JsObject.assign.
  case_bool_decide as Hacc.
  - split; [assumption|]. intros k. rewrite Hget. unfold nameCntOf.
    case_bool_decide as Hk; [reflexivity|].
    rewrite occurrences_snoc, (bool_decide_eq_false_2 (File.name f = k)) by congruence.
    rewrite Nat.add_0_r. reflexivity.
  - split; [apply JsMap_NoDup_set, Hnd|]. intros k.
    destruct (decide (File.name f = k)) as [Hk|Hk].
    + subst k. rewrite JsMap_get_set_eq. unfold JsObject.orZeroPlusOne.
      rewrite Hget. unfold nameCntOf.
      rewrite !(bool_decide_eq_false_2 _ Hacc), occurrences_snoc.
      rewrite (bool_decide_eq_true_2 (File.name f = File.name f)) by reflexivity.
      rewrite (bool_decide_eq_false_2 (_ + 1 = 0)%nat) by lia.
      case_bool_decide as Hz.
      * rewrite Hz. destruct (JsObject.inherited (File.name f)); reflexivity.
      * destruct (JsObject.inherited (File.name f)); reflexivity.
    + rewrite JsMap_get_set_ne by assumption. rewrite Hget. unfold nameCntOf.
      rewrite occurrences_snoc, (bool_decide_eq_false_2 (File.name f = k)) by assumption.
      rewrite Nat.add_0_r. reflexivity.
Qed.

Lemma nameCnt_fold o seen files :
  NoDup (JsMap.keys o) → (∀ k, JsMap.get k o = nameCntOf k seen) →
  let o' :=
    fold_left
      (fun o f => JsObject.assign o (File.name f) (JsObject.orZeroPlusOne o (File.name f)))
      files o in
  NoDup (JsMap.keys o') ∧ ∀ k, JsMap.get k o' = nameCntOf k (seen ++ files).
Proof.
  revert o seen. induction files as [|f files IH]; intros o seen Hnd Hget.
  - simpl. rewrite app_nil_r. auto.
  - cbn [fold_left]. destruct (nameCnt_step o seen f Hnd Hget) as [Hnd' Hget'].
    specialize (IH _ _ Hnd' Hget'). rewrite <- app_assoc in IH. exact IH.
Qed.

Lemma nameCnt_spec files :
  NoDup (JsMap.keys (nameCnt files)) ∧
  ∀ k, JsMap.get k (nameCnt files) = nameCntOf k files.
Proof.
  apply (nameCnt_fold [] [] files); [apply NoDup_nil_2|].
  intros k. unfold nameCntOf. simpl.
  case_bool_decide; reflexivity.
Qed.

(** [Object.entries] lists every own property once. *)
Lemma insertIndexed_perm {V} i (kv : jsstring * V) l :
  JsObject.insertIndexed i kv l ≡ₚ (i, kv) :: l.
Proof.
  induction l as [|[j kv'] l IH]; simpl; [reflexivity|].
  destruct (i <=? j)%N; [reflexivity|]. rewrite IH. apply Permutation_swap.
Qed.

Lemma indexed_perm {V} (o : list (jsstring * V)) :
  map snd (JsObject.indexed o) ≡ₚ filter (fun kv => JsObject.isNamed kv = false) o.
Proof.
  induction o as [|kv o IH]; simpl; [reflexivity|].
  unfold JsObject.isNamed at 1.
  destruct (JsObject.arrayIndex kv.1) eqn:Hi.
  - rewrite insertIndexed_perm. simpl. rewrite IH.
    rewrite filter_cons_True; [reflexivity|]. unfold JsObject.isNamed. rewrite Hi. reflexivity.
  - rewrite IH.
    rewrite filter_cons_False; [reflexivity|]. unfold JsObject.isNamed. rewrite Hi. discriminate.
Qed.

Lemma filter_split_perm {A} (p : A → bool) (l : list A) :
  filter (fun x => p x = false) l ++ filter (fun x => p x = true) l ≡ₚ l.
Proof.
  induction l as [|x l IH]; [reflexivity|].
  destruct (p x) eqn:Hx.
  - rewrite filter_cons_False, filter_cons_True by congruence.
    rewrite <- Permutation_middle. f_equiv. exact IH.
  - rewrite filter_cons_True, filter_cons_False by congruence.
    simpl. f_equiv. exact IH.
Qed.

Lemma entries_perm o : JsObject.entries o ≡ₚ o.
Proof.
  unfold JsObject.entries. rewrite indexed_perm. apply filter_split_perm.
Qed.

(** [new Set(list)] *)
Lemma JsSet_fold_add (l : list jsstring) (s : JsSet.t) :
  let s' := fold_left (fun s n => JsSet.add n s) l s in
  (NoDup s → NoDup s') ∧ ∀ k, k ∈ s' ↔ k ∈ s ∨ k ∈ l.
Proof.
  revert s. induction l as [|x l IH]; intros s; simpl.
  - split; [auto|]. intros k. rewrite elem_of_nil. tauto.
  - destruct (IH (JsSet.add x s)) as [Hnd Hel]. split.
    + intros Hs. apply Hnd, JsSet_NoDup_add, Hs.
    + intros k. rewrite Hel, JsSet_elem_of_add, elem_of_cons. tauto.
Qed.

Lemma dupNames_NoDup files : NoDup (dupNames files).
Proof. apply JsSet_fold_add, NoDup_nil_2. Qed.

(** A name is in [dupNames] exactly when at least two files carry it and
    it is not the name of a member of [Object.prototype]. *)
Lemma dupNames_spec files k :
  k ∈ dupNames files ↔ JsObject.inherited k = false ∧ (2 ≤ occurrences k files)%nat.
Proof.
  unfold dupNames.
  destruct (JsSet_fold_add
    (map fst (filter (fun kv => JsObject.gtOne kv.2 = true)
                (JsObject.entries (nameCnt files)))) JsSet.empty) as [_ ->].
  destruct (nameCnt_spec files) as [Hnd Hget].
  unfold JsSet.empty. rewrite elem_of_nil, list_elem_of_fmap.
  split.
  - intros [[]|([k' v] & -> & [Hgt Hin]%list_elem_of_filter)]. simpl in *.
    rewrite entries_perm in Hin. apply JsMap_elem_get in Hin; [|assumption].
    rewrite Hget in Hin. unfold nameCntOf in Hin.
    case_bool_decide; [discriminate|]. case_bool_decide; [discriminate|].
    destruct (JsObject.inherited k'); injection Hin as <-; simpl in Hgt; [discriminate|].
    apply bool_decide_eq_true in Hgt. split; [reflexivity | lia].
  - intros [Hinh Hocc]. right.
    exists (k, JsObject.Num (occurrences k files)). split; [reflexivity|].
    apply list_elem_of_filter. split.
    + simpl. apply bool_decide_eq_true. lia.
    + rewrite entries_perm. apply JsMap_get_Some. rewrite Hget. unfold nameCntOf.
      rewrite bool_decide_eq_false_2.
      * rewrite bool_decide_eq_false_2 by lia. rewrite Hinh. reflexivity.
      * intros ->. rewrite inherited_protoAccessor in Hinh. discriminate.
Qed.

Lemma toProcess_spec files f :
  f ∈ toProcess files ↔
  f ∈ files ∧ (JsObject.inherited (File.name f) = true ∨ occurrences (File.name f) files = 1%nat).
Proof.
  unfold toProcess. rewrite list_elem_of_filter, JsSet_has_false, dupNames_spec.
  split.
  - intros [Hn Hin]. split; [assumption|].
    destruct (JsObject.inherited (File.name f)); [auto|]. right.
    assert (1 ≤ occurrences (File.name f) files)%nat.
    { unfold occurrences. apply list_elem_of_split in Hin as (l1 & l2 & ->).
      rewrite filter_app, filter_cons_True, length_app by reflexivity. simpl. lia. }
    destruct (decide (2 ≤ occurrences (File.name f) files)%nat); [|lia].
    exfalso. apply Hn. auto.
  - intros [Hin [Hinh|Hocc]]; (split; [|assumption]); intros [? ?]; [congruence|lia].
Qed.

Lemma toProcess_perm files files' : files ≡ₚ files' → toProcess files ≡ₚ toProcess files'.
Proof.
  intros Hp. unfold toProcess. rewrite <- Hp.
  erewrite list_filter_iff; [reflexivity|].
  intros f. rewrite !JsSet_has_false, !dupNames_spec.
  rewrite (occurrences_perm _ _ _ Hp). reflexivity.
Qed.

Lemma events_perm files files' : files ≡ₚ files' → events files ≡ₚ events files'.
Proof. intros Hp. unfold events. rewrite (toProcess_perm _ _ Hp). reflexivity. Qed.

(** Away from the names of the members of [Object.prototype] the filter
    does what it is meant to: the files kept are in their original order,
    each repeated name is reported once, and only names are looked at. *)
Lemma toProcess_sublist files : sublist (toProcess files) files.
Proof. unfold toProcess. apply sublist_filter. Qed.

Lemma skippedDuplicates_spec files k :
  {| Skipped.name := k; Skipped.reason := duplicate_filename |} ∈ skippedDuplicates files ↔
  JsObject.inherited k = false ∧ (2 ≤ occurrences k files)%nat.
Proof.
  rewrite <- dupNames_spec. unfold skippedDuplicates. rewrite list_elem_of_fmap. split.
  - intros (n & [= ->] & Hn). exact Hn.
  - intros Hk. eauto.
Qed.

Lemma skippedDuplicates_NoDup files : NoDup (skippedDuplicates files).
Proof.
  unfold skippedDuplicates. apply NoDup_fmap_2; [|apply dupNames_NoDup].
  intros a b [= ->]. reflexivity.
Qed.

Lemma nameCnt_names files files' :
  map File.name files = map File.name files' → nameCnt files = nameCnt files'.
Proof.
  unfold nameCnt. generalize (@nil (jsstring * JsObject.value)).
  revert files'. induction files as [|f files IH]; intros [|f' files'] o; simpl;
    try discriminate; [reflexivity|].
  intros [= Hf Hrest]. rewrite Hf. apply IH, Hrest.
Qed.

Lemma dupNames_names files files' :
  map File.name files = map File.name files' → dupNames files = dupNames files'.
Proof. intros Hn. unfold dupNames. rewrite (nameCnt_names _ _ Hn). reflexivity. Qed.

End DuplicateFilter.

(** ** The division and [toFixed(6)] *)

Section Numbers.

Lemma digits2_pos_size p : digits2_pos p = Pos.size p.
Proof. induction p; simpl; congruence. Qed.

Lemma digits2_bounds p :
  2 ^ (Z.pos (digits2_pos p) - 1) ≤ Z.pos p < 2 ^ Z.pos (digits2_pos p).
Proof.
  rewrite digits2_pos_size. split.
  - pose proof (Pos.size_le p) as Hle.
    assert (H2 : 2 ^ Z.pos (Pos.size p) ≤ 2 * Z.pos p).
    { change (2 * Z.pos p) with (Z.pos p~0). rewrite <- Pos2Z.inj_pow. apply Pos2Z.pos_le_pos, Hle. }
    replace (Z.pos (Pos.size p)) with (Z.succ (Z.pos (Pos.size p) - 1)) in H2 by lia.
    rewrite Z.pow_succ_r in H2 by lia. lia.
  - pose proof (Pos.size_gt p) as Hgt.
    rewrite <- Pos2Z.inj_pow. apply Pos2Z.pos_lt_pos, Hgt.
Qed.

Lemma digits2_unique p n :
  2 ^ (n - 1) ≤ Z.pos p < 2 ^ n → Z.pos (digits2_pos p) = n.
Proof.
  intros [Hlo Hhi]. pose proof (digits2_bounds p) as [Dlo Dhi].
  assert (0 < n).
  { destruct (Z.lt_trichotomy n 0) as [?|[->|?]]; [|simpl in Hhi; lia|assumption].
    rewrite Z.pow_neg_r in Hhi by assumption. lia. }
  destruct (Z.lt_trichotomy (Z.pos (digits2_pos p)) n) as [Hlt|[Heq|Hgt]]; [|assumption|].
  - assert (2 ^ Z.pos (digits2_pos p) ≤ 2 ^ (n - 1)) by (apply Z.pow_le_mono_r; lia). lia.
  - assert (2 ^ n ≤ 2 ^ (Z.pos (digits2_pos p) - 1)) by (apply Z.pow_le_mono_r; lia). lia.
Qed.

Lemma fexp64 e : fexp 53 1024 e = Z.max (e - 53) (-1074).
Proof. reflexivity. Qed.

Lemma round_exact (m : positive) (e : Z) :
  Z.pos (digits2_pos m) = 53 → -1074 ≤ e ≤ 971 →
  binary_round_aux 53 1024 false (Z.pos m) e loc_Exact = S754_finite false m e.
Proof.
  intros Hd He. unfold binary_round_aux, shr_fexp.
  cbn [Zdigits2]. rewrite Hd, fexp64.
  replace (Z.max (53 + e - 53) (-1074) - e) with 0 by lia.
  cbn [shr shr_record_of_loc shr_m loc_of_shr_record round_nearest_even Zdigits2].
  rewrite Hd, fexp64.
  replace (Z.max (53 + e - 53) (-1074) - e) with 0 by lia.
  cbn [shr shr_record_of_loc shr_m].
  replace (e <=? 1024 - 53) with true by (symmetry; apply Z.leb_le; lia).
  reflexivity.
Qed.

Lemma shr_m_of_loc m l : shr_m (shr_record_of_loc m l) = m.
Proof. destruct l as [|[]]; reflexivity. Qed.

Lemma loc_of_loc m l : loc_of_shr_record (shr_record_of_loc m l) = l.
Proof. destruct l as [|[]]; reflexivity. Qed.

Lemma round_nearest_even_cases m l :
  round_nearest_even m l = m ∨ round_nearest_even m l = m + 1.
Proof.
  destruct l as [|[]]; simpl; auto. destruct (Z.even m); auto.
Qed.

(** The second shift of [binary_round_aux]: the rounded mantissa has 53
    digits, or is 2^53. *)
Lemma round_renormalize (M1 e : Z) :
  2 ^ 52 ≤ M1 ≤ 2 ^ 53 → -1074 ≤ e ≤ 900 →
  ∃ M k,
    (let '(mrs, e') := shr_fexp 53 1024 M1 e loc_Exact in
     match shr_m mrs with
     | Z0 => S754_zero false
     | Zpos m => if e' <=? 1024 - 53 then S754_finite false m e' else S754_infinity false
     | _ => S754_nan
     end) = S754_finite false M (e + k) ∧
    0 ≤ k ≤ 1 ∧ Z.pos M < 2 ^ 53 ∧ Z.pos M * 2 ^ k = M1.
Proof.
  intros HM He. destruct (Z.eq_dec M1 (2 ^ 53)) as [->|Hne].
  - exists (2 ^ 52)%positive, 1. unfold shr_fexp.
    change (Zdigits2 (2 ^ 53)) with 54. rewrite fexp64.
    replace (Z.max (54 + e - 53) (-1074) - e) with 1 by lia.
    cbn [shr shr_record_of_loc iter_pos shr_1 shr_m].
    change (2 ^ 53) with (Z.pos (2 ^ 52)~0) at 1.
    cbn [shr_1 shr_m orb].
    replace (e + 1 <=? 1024 - 53) with true by (symmetry; apply Z.leb_le; lia).
    split; [reflexivity|]. split; [lia|]. split; reflexivity.
  - destruct M1 as [|p|p]; try (exfalso; lia).
    exists p, 0. unfold shr_fexp. cbn [Zdigits2].
    rewrite (digits2_unique p 53) by (change (53 - 1) with 52; lia).
    rewrite fexp64. replace (Z.max (53 + e - 53) (-1074) - e) with 0 by lia.
    cbn [shr shr_record_of_loc shr_m].
    replace (e <=? 1024 - 53) with true by (symmetry; apply Z.leb_le; lia).
    rewrite Z.add_0_r. split; [reflexivity|]. split; [lia|]. split; lia.
Qed.

(** Rounding a quotient of 53 or 54 digits: the result is an end of an
    interval of width at most two around the quotient. *)
Lemma round_quotient (q : positive) (e : Z) (l : location) :
  2 ^ 52 ≤ Z.pos q < 2 ^ 54 → -1074 ≤ e ≤ 800 →
  ∃ M k lo hi,
    binary_round_aux 53 1024 false (Z.pos q) e l = S754_finite false M (e + k) ∧
    0 ≤ k ≤ 2 ∧ Z.pos M < 2 ^ 53 ∧
    lo ≤ Z.pos q ∧ Z.pos q + 1 ≤ hi ∧ hi - lo ≤ 2 ∧
    (Z.pos M * 2 ^ k = lo ∨ Z.pos M * 2 ^ k = hi).
Proof.
  intros Hq He. unfold binary_round_aux.
  destruct (Z_lt_le_dec (Z.pos q) (2 ^ 53)) as [Hlt|Hge].
  - unfold shr_fexp at 1. cbn [Zdigits2].
    rewrite (digits2_unique q 53) by (change (53 - 1) with 52; lia).
    rewrite fexp64. replace (Z.max (53 + e - 53) (-1074) - e) with 0 by lia.
    cbn [shr]. rewrite shr_m_of_loc, loc_of_loc.
    destruct (round_renormalize (round_nearest_even (Z.pos q) l) e)
      as (M & k & Hres & Hk & HM & HT);
      [destruct (round_nearest_even_cases (Z.pos q) l) as [->| ->]; lia | lia |].
    exists M, k, (Z.pos q), (Z.pos q + 1).
    split; [exact Hres|]. split; [lia|]. split; [exact HM|].
    split; [lia|]. split; [lia|]. split; [lia|].
    rewrite HT. destruct (round_nearest_even_cases (Z.pos q) l) as [->| ->]; auto.
  - unfold shr_fexp at 1. cbn [Zdigits2].
    rewrite (digits2_unique q 54) by (change (54 - 1) with 53; lia).
    rewrite fexp64. replace (Z.max (54 + e - 53) (-1074) - e) with 1 by lia.
    cbn [shr iter_pos].
    set (mrs := shr_1 (shr_record_of_loc (Z.pos q) l)).
    assert (Hhalf : 2 * shr_m mrs ≤ Z.pos q ≤ 2 * shr_m mrs + 1).
    { subst mrs. destruct l as [|[]], q as [p|p|]; cbn [shr_record_of_loc shr_1 shr_m]; lia. }
    destruct (round_renormalize (round_nearest_even (shr_m mrs) (loc_of_shr_record mrs)) (e + 1))
      as (M & k & Hres & Hk & HM & HT);
      [destruct (round_nearest_even_cases (shr_m mrs) (loc_of_shr_record mrs)) as [->| ->]; lia
      | lia |].
    exists M, (1 + k), (2 * shr_m mrs), (2 * shr_m mrs + 2).
    rewrite Z.add_assoc. split; [exact Hres|]. split; [lia|]. split; [exact HM|].
    split; [lia|]. split; [lia|]. split; [lia|].
    rewrite Z.pow_add_r by lia. change (2 ^ 1) with 2.
    destruct (round_nearest_even_cases (shr_m mrs) (loc_of_shr_record mrs)) as [Hr|Hr];
      rewrite Hr in HT; [left|right]; lia.
Qed.

Lemma iter_xO_pow (p k : positive) : Z.pos (Pos.iter xO p k) = Z.pos p * 2 ^ Z.pos k.
Proof.
  induction k as [|k IH] using Pos.peano_ind.
  - cbn [Pos.iter]. change (2 ^ 1) with 2. lia.
  - rewrite Pos.iter_succ, Pos2Z.inj_succ, Z.pow_succ_r by lia.
    change (Z.pos (Pos.iter xO p k)~0) with (2 * Z.pos (Pos.iter xO p k)).
    rewrite IH. ring.
Qed.

(** The binary64 value of a positive counter below 2^53: a mantissa of 53
    digits and the counter scaled to it. *)
Lemma ofNat_normal (a : nat) :
  (0 < a)%nat → Z.of_nat a < 2 ^ 53 →
  ∃ m e, JsNumber.ofNat a = S754_finite false m e ∧
         2 ^ 52 ≤ Z.pos m < 2 ^ 53 ∧ -52 ≤ e ≤ 0 ∧
         Z.pos m = Z.of_nat a * 2 ^ (- e).
Proof.
  intros Ha Hlt. unfold JsNumber.ofNat, binary_normalize.
  destruct (Z.of_nat a) as [|p|p] eqn:Hp; try lia.
  pose proof (digits2_bounds p) as [Dlo Dhi].
  set (d := Z.pos (digits2_pos p)) in *.
  assert (Hd : 1 ≤ d ≤ 53).
  { split; [subst d; lia|].
    destruct (Z_le_gt_dec d 53) as [|Hgt]; [assumption|]. exfalso.
    assert (2 ^ 53 ≤ 2 ^ (d - 1)) by (apply Z.pow_le_mono_r; lia). lia. }
  unfold binary_round. fold d. rewrite fexp64.
  replace (Z.max (d + 0 - 53) (-1074)) with (d - 53) by lia.
  unfold shl_align. destruct (d - 53 - 0) as [|k|k] eqn:Hk; try lia.
  - assert (d = 53) by lia.
    exists p, 0. replace (d - 53) with 0 by lia.
    rewrite round_exact by (fold d; lia).
    split; [reflexivity|]. replace (d - 1) with 52 in Dlo by lia.
    replace d with 53 in Dhi by lia. split; [lia|]. split; [lia|]. simpl. lia.
  - assert (Hpow : 2 ^ 52 = 2 ^ (d - 1) * 2 ^ Z.pos k).
    { rewrite <- Z.pow_add_r by lia. f_equal. lia. }
    assert (Hpow' : 2 ^ 53 = 2 ^ d * 2 ^ Z.pos k).
    { rewrite <- Z.pow_add_r by lia. f_equal. lia. }
    assert (Hk2 : 0 < 2 ^ Z.pos k) by (apply Z.pow_pos_nonneg; lia).
    assert (Hm : 2 ^ 52 ≤ Z.pos (Pos.iter xO p k) < 2 ^ 53).
    { rewrite iter_xO_pow, Hpow, Hpow'. split.
      - apply Z.mul_le_mono_nonneg_r; lia.
      - apply Z.mul_lt_mono_pos_r; lia. }
    exists (Pos.iter xO p k), (d - 53).
    rewrite round_exact by (try apply digits2_unique; change (53 - 1) with 52; lia).
    split; [reflexivity|]. split; [exact Hm|]. split; [lia|].
    rewrite iter_xO_pow. f_equal. f_equal. lia.
Qed.

(** The quotient of two such values, before rounding. *)
Lemma div_normal (m1 m2 : positive) (e1 e2 : Z) :
  2 ^ 52 ≤ Z.pos m1 < 2 ^ 53 → 2 ^ 52 ≤ Z.pos m2 < 2 ^ 53 →
  -52 ≤ e1 ≤ 0 → -52 ≤ e2 ≤ 0 →
  JsNumber.div (S754_finite false m1 e1) (S754_finite false m2 e2) =
  binary_round_aux 53 1024 false
    (Z.pos m1 * 2 ^ 53 / Z.pos m2) (e1 - e2 - 53)
    (new_location (Z.pos m2) ((Z.pos m1 * 2 ^ 53) mod Z.pos m2)).
Proof.
  intros H1 H2 He1 He2. unfold JsNumber.div, SFdiv, SFdiv_core_binary. cbn [Zdigits2 xorb].
  rewrite (digits2_unique m1 53), (digits2_unique m2 53) by (change (53 - 1) with 52; lia).
  rewrite fexp64.
  replace (Z.min (Z.max (53 + e1 - (53 + e2) - 53) (-1074)) (e1 - e2)) with (e1 - e2 - 53) by lia.
  replace (e1 - e2 - (e1 - e2 - 53)) with 53 by lia.
  rewrite Z.shiftl_mul_pow2 by lia.
  unfold Z.div, Z.modulo.
  change IntDef.Z.div_eucl with Z.div_eucl.
  destruct (Z.div_eucl (Z.pos m1 * 2 ^ 53) (Z.pos m2)) as [q r]. reflexivity.
Qed.

Lemma exponent_mono (a g m1 m2 e1 e2 : Z) :
  0 < a ≤ g → 2 ^ 52 ≤ m1 < 2 ^ 53 → 2 ^ 52 ≤ m2 < 2 ^ 53 →
  e1 ≤ 0 → e2 ≤ 0 → m1 = a * 2 ^ (- e1) → m2 = g * 2 ^ (- e2) → e1 ≤ e2.
Proof.
  intros Ha H1 H2 He1 He2 E1 E2.
  destruct (Z_le_gt_dec e1 e2) as [|Hgt]; [assumption|]. exfalso.
  assert (Hp : 2 ^ (- e2) = 2 ^ (- e1) * 2 ^ (e1 - e2)).
  { rewrite <- Z.pow_add_r by lia. f_equal. lia. }
  assert (Hq : 2 ≤ 2 ^ (e1 - e2)).
  { change 2 with (2 ^ 1) at 1. apply Z.pow_le_mono_r; lia. }
  assert (Hu : 0 < 2 ^ (- e1)) by (apply Z.pow_pos_nonneg; lia).
  assert (Hm : m1 * 2 ≤ m2).
  { rewrite E2, Hp, E1.
    transitivity (a * 2 ^ (- e1) * 2 ^ (e1 - e2)).
    - apply Z.mul_le_mono_nonneg_l; [|assumption]. apply Z.mul_nonneg_nonneg; lia.
    - rewrite Z.mul_assoc. apply Z.mul_le_mono_nonneg_r.
      + apply Z.pow_nonneg. lia.
      + apply Z.mul_le_mono_nonneg_r; lia. }
  lia.
Qed.

(** The arithmetic of the two roundings: the quotient is within two units
    of its last place of the exact one, and [toFixed] within half a
    millionth of the quotient. *)
Lemma nearest_arith (a g n M T q r S D u w : Z) :
  0 ≤ a ≤ g → 0 < g < 2 ^ 31 → 0 < u → 2 ^ 53 ≤ S → 0 < D → 0 < w →
  S = D * w → T = M * w →
  a * S * u = q * (g * u) + r → 0 ≤ r < g * u →
  q - 1 ≤ T ≤ q + 2 →
  2 * D * n ≤ 2 * (M * 10 ^ 6) + D < 2 * D * n + 2 * D →
  Z.abs (2 * (n * g - 10 ^ 6 * a)) ≤ g ∧ 0 ≤ n ≤ 10 ^ 6.
Proof.
  intros Ha Hg Hu HS HD Hw ES ET Hdiv Hr HT Hn.
  change (2 ^ 31) with 2147483648 in *. change (2 ^ 53) with 9007199254740992 in *.
  change (10 ^ 6) with 1000000 in *.
  assert (Hgu : 0 < g * u) by (apply Z.mul_pos_pos; lia).
  assert (E : (T * g - a * S) * u = (T - q) * (g * u) - r).
  { replace ((T * g - a * S) * u) with (T * (g * u) - a * S * u) by ring. rewrite Hdiv. ring. }
  assert (H1 : - (2 * (g * u)) ≤ (T * g - a * S) * u ≤ 2 * (g * u)).
  { rewrite E. 
    assert (- (g * u) ≤ (T - q) * (g * u) ≤ 2 * (g * u)).
    { split.
      - replace (- (g * u)) with ((-1) * (g * u)) by ring. apply Z.mul_le_mono_nonneg_r; lia.
      - apply Z.mul_le_mono_nonneg_r; lia. }
    lia. }
  assert (H2 : - (2 * g) ≤ T * g - a * S ≤ 2 * g).
  { split.
    - apply (Z.mul_le_mono_pos_r _ _ u Hu). replace (- (2 * g) * u) with (- (2 * (g * u))) by ring. lia.
    - apply (Z.mul_le_mono_pos_r _ _ u Hu). replace (2 * g * u) with (2 * (g * u)) by ring. lia. }
  assert (H3 : - S ≤ 2 * S * n - 2 * (T * 1000000) ≤ S).
  { subst S T. 
    replace (2 * (D * w) * n - 2 * (M * w * 1000000)) with ((2 * D * n - 2 * (M * 1000000)) * w) by ring.
    replace (- (D * w)) with ((- D) * w) by ring.
    split; apply Z.mul_le_mono_nonneg_r; lia. }
  set (z := 2 * (n * g - 1000000 * a)).
  assert (H4 : z * S = g * (2 * S * n - 2 * (T * 1000000)) + 2000000 * (T * g - a * S)).
  { subst z. ring. }
  assert (H5 : - (g * S + 4000000 * g) ≤ z * S ≤ g * S + 4000000 * g).
  { rewrite H4.
    assert (- (g * S) ≤ g * (2 * S * n - 2 * (T * 1000000)) ≤ g * S).
    { split.
      - replace (- (g * S)) with (g * (- S)) by ring. apply Z.mul_le_mono_nonneg_l; lia.
      - apply Z.mul_le_mono_nonneg_l; lia. }
    lia. }
  assert (H6 : Z.abs z ≤ g).
  { destruct (Z_le_gt_dec (Z.abs z) g) as [|Hgt]; [assumption|]. exfalso.
    assert (Hbig : 4000000 * g < S) by lia.
    assert (Hz : (g + 1) * S ≤ Z.abs z * S) by (apply Z.mul_le_mono_nonneg_r; lia).
    assert (Habs : Z.abs z * S = Z.abs (z * S)) by (rewrite Z.abs_mul, (Z.abs_eq S); lia).
    rewrite Habs in Hz.
    assert (Z.abs (z * S) ≤ g * S + 4000000 * g) by (apply Z.abs_le; lia).
    replace ((g + 1) * S) with (g * S + S) in Hz by ring. lia. }
  split; [exact H6|]. subst z.
  apply Z.abs_le in H6.
  assert (Hlo : - g ≤ 2 * (n * g) - 2000000 * a) by lia.
  assert (Hhi : 2 * (n * g) - 2000000 * a ≤ g) by lia.
  split.
  - destruct (Z_lt_le_dec n 0) as [Hneg|]; [|assumption]. exfalso.
    assert (n * g ≤ (-1) * g) by (apply Z.mul_le_mono_nonneg_r; lia). lia.
  - destruct (Z_le_gt_dec n 1000000) as [|Hbig]; [assumption|]. exfalso.
    assert (1000001 * g ≤ n * g) by (apply Z.mul_le_mono_nonneg_r; lia). lia.
Qed.

(** The rate of a run with fewer than 2^31 applications: the number of
    millionths nearest to the exact quotient. *)
Lemma toFixed6_quotient `{JsNumberHost} (a g : nat) :
  (0 < g)%nat → Z.of_nat g < 2 ^ 31 → (a ≤ g)%nat →
  ∃ n, toFixed6 (JsNumber.div (JsNumber.ofNat a) (JsNumber.ofNat g)) = JsNumber.fixed6 n ∧
       0 ≤ n ≤ 10 ^ 6 ∧
       Z.abs (2 * (n * Z.of_nat g - 10 ^ 6 * Z.of_nat a)) ≤ Z.of_nat g.
Proof.
  intros Hg Hlt Hag.
  assert (H31 : 2 ^ 31 < 2 ^ 53) by reflexivity.
  destruct (ofNat_normal g) as (m2 & e2 & -> & Hm2 & He2 & Eg); [lia|lia|].
  destruct (Nat.eq_dec a 0%nat) as [->|Ha].
  { exists 0. split; [reflexivity|]. split; [lia|]. rewrite Z.abs_eq; lia. }
  destruct (ofNat_normal a) as (m1 & e1 & -> & Hm1 & He1 & Ea); [lia|lia|].
  assert (He : e1 ≤ e2).
  { apply (exponent_mono (Z.of_nat a) (Z.of_nat g) (Z.pos m1) (Z.pos m2)); lia. }
  rewrite div_normal by lia.
  pose proof (Z.div_mod (Z.pos m1 * 2 ^ 53) (Z.pos m2) ltac:(lia)) as Hdiv.
  pose proof (Z.mod_pos_bound (Z.pos m1 * 2 ^ 53) (Z.pos m2) ltac:(lia)) as Hr.
  set (q := Z.pos m1 * 2 ^ 53 / Z.pos m2) in *.
  set (r := (Z.pos m1 * 2 ^ 53) mod Z.pos m2) in *.
  assert (Hq : 2 ^ 52 ≤ q < 2 ^ 54).
  { split.
    - apply Z.div_le_lower_bound; [lia|].
      transitivity (2 ^ 53 * 2 ^ 52); [apply Z.mul_le_mono_nonneg_r; lia|].
      rewrite (Z.mul_comm (Z.pos m1)). apply Z.mul_le_mono_nonneg_l; lia.
    - apply Z.div_lt_upper_bound; [lia|].
      apply Z.lt_le_trans with (2 ^ 53 * 2 ^ 53); [apply Z.mul_lt_mono_pos_r; lia|].
      change (2 ^ 53 * 2 ^ 53) with (2 ^ 52 * 2 ^ 54). apply Z.mul_le_mono_nonneg_r; lia. }
  destruct q as [|qp|qp] eqn:Eq; try (exfalso; lia).
  destruct (round_quotient qp (e1 - e2 - 53) (new_location (Z.pos m2) r))
    as (M & k & lo & hi & -> & Hk & HM & Hlo & Hhi & Hw & HT); [lia|lia|].
  set (E := e1 - e2 - 53 + k).
  assert (HD : 1 ≤ 2 ^ (- E)).
  { change 1 with (2 ^ 0). apply Z.pow_le_mono_r; lia. }
  unfold toFixed6, JsNumber.atLeast1e21, JsNumber.scaled6.
  replace (0 <=? E) with false by (symmetry; apply Z.leb_gt; lia).
  replace (10 ^ 21 * 2 ^ (- E) <=? Z.pos M) with false.
  2:{ symmetry. apply Z.leb_gt.
      apply Z.lt_le_trans with (10 ^ 21 * 1); [|apply Z.mul_le_mono_nonneg_l; lia].
      assert (2 ^ 53 < 10 ^ 21 * 1) by reflexivity. lia. }
  cbn [app].
  set (n := (2 * (Z.pos M * 10 ^ 6) + 2 ^ (- E)) / (2 * 2 ^ (- E))).
  exists n. split; [reflexivity|].
  pose proof (Z.div_mod (2 * (Z.pos M * 10 ^ 6) + 2 ^ (- E)) (2 * 2 ^ (- E)) ltac:(lia)) as Hn.
  pose proof (Z.mod_pos_bound (2 * (Z.pos M * 10 ^ 6) + 2 ^ (- E)) (2 * 2 ^ (- E)) ltac:(lia))
    as Hnr.
  fold n in Hn.
  assert (Hboth :
    Z.abs (2 * (n * Z.of_nat g - 10 ^ 6 * Z.of_nat a)) ≤ Z.of_nat g ∧ 0 ≤ n ≤ 10 ^ 6).
  { apply (nearest_arith (Z.of_nat a) (Z.of_nat g) n (Z.pos M) (Z.pos M * 2 ^ k)
             (Z.pos qp) r (2 ^ (- (e1 - e2 - 53))) (2 ^ (- E)) (2 ^ (- e2)) (2 ^ k)).
    - lia.
    - lia.
    - apply Z.pow_pos_nonneg; lia.
    - apply Z.pow_le_mono_r; lia.
    - lia.
    - apply Z.pow_pos_nonneg; lia.
    - rewrite <- Z.pow_add_r by lia. f_equal. subst E. lia.
    - reflexivity.
    - rewrite <- Eg, <- Z.mul_assoc, <- Z.pow_add_r by lia.
      replace (- (e1 - e2 - 53) + - e2) with (- e1 + 53) by lia.
      rewrite Z.pow_add_r, Z.mul_assoc, <- Ea by lia. rewrite Hdiv. ring.
    - rewrite <- Eg. exact Hr.
    - destruct HT as [-> | ->]; lia.
    - lia. }
  tauto.
Qed.

End Numbers.

(** [a.slice(start)] for a start that is not negative drops that many
    elements. *)
Lemma slice_drop {A} (a : list A) (start : Z) :
  0 ≤ start → slice a start = drop (Z.to_nat start) a.
Proof.
  intros Hs. unfold slice.
  replace (start <? 0) with false by (symmetry; apply Z.ltb_ge; lia).
  destruct (Z.min_spec start (Z.of_nat (length a))) as [[_ ->]|[Hle ->]]; [reflexivity|].
  rewrite Nat2Z.id, !drop_ge by lia. reflexivity.
Qed.

(** * The claims *)

Section Claims.

Context `{JsHost} `{JsNumberHost}.

Lemma cell_cellText (row : Row) (i : Z) : cell row i = trim (cellText row i).
Proof. unfold cell, cellText. destruct (index row i); reflexivity. Qed.

(** The body of the row loop, at any state of the run: a row whose key
    cell is absent adds one to [ignoredNoKey] and touches no set; otherwise
    a row whose name cell is absent adds one to [ignoredNoName] and touches
    no set; otherwise the trimmed key joins the applicants, and the
    attendees when the trimmed status is the condition up to case. *)
Lemma rowStep_validation
    (pk name status headerRow : Z) (condInput : jsstring)
    (run : Run.t) (ev : Event.t) (row : Row) :
  let cfg := runConfig pk name status condInput headerRow in
  let run' := (rowStep cfg (run, ev) row).1 in
  let ev' := (rowStep cfg (run, ev) row).2 in
  if absent row pk then
    Run.ignoredNoKey run' = (Run.ignoredNoKey run + 1)%nat ∧
    Run.ignoredNoName run' = Run.ignoredNoName run ∧
    ev' = ev ∧ Run.attendUniq run' = Run.attendUniq run ∧
    Run.master run' = Run.master run
  else if absent row name then
    Run.ignoredNoKey run' = Run.ignoredNoKey run ∧
    Run.ignoredNoName run' = (Run.ignoredNoName run + 1)%nat ∧
    ev' = ev ∧ Run.attendUniq run' = Run.attendUniq run ∧
    Run.master run' = Run.master run
  else
    Run.ignoredNoKey run' = Run.ignoredNoKey run ∧
    Run.ignoredNoName run' = Run.ignoredNoName run ∧
    (∀ k, k ∈ Event.eventApplicants ev' ↔
          k = trim (cellText row pk) ∨ k ∈ Event.eventApplicants ev) ∧
    (∀ k, k ∈ Event.eventAttendees ev' ↔
          (k = trim (cellText row pk) ∧
           sameTextIgnoringCase (cellText row status) (condition cfg)) ∨
          k ∈ Event.eventAttendees ev).
Proof.
  intros cfg run' ev'. subst run' ev'. rewrite rowStep_split. cbn [fst snd].
  destruct (row_cases cfg row) as [Hk|[[Hk Hn]|Hv]].
  - rewrite rowRun_noKey by assumption.
    rewrite rowEvent_invalid by (unfold validRow; rewrite Hk; reflexivity).
    change (absent row pk = true) in Hk. rewrite Hk. simpl. auto.
  - rewrite rowRun_noName by assumption.
    rewrite rowEvent_invalid by (unfold validRow; rewrite Hk, Hn; reflexivity).
    change (absent row pk = false) in Hk. change (absent row name = true) in Hn.
    rewrite Hk, Hn. simpl. auto.
  - rewrite rowRun_valid, rowEvent_valid by assumption.
    apply validRow_present in Hv as [Hk Hn].
    change (absent row pk = false) in Hk. change (absent row name = false) in Hn.
    rewrite Hk, Hn. cbn [Run.ignoredNoKey Run.ignoredNoName Event.eventApplicants
                          Event.eventAttendees].
    split; [reflexivity|]. split; [reflexivity|].
    change (pkIdx cfg) with pk. rewrite <- cell_cellText. split.
    + intros k. apply JsSet_elem_of_add.
    + intros k. unfold attends, sameTextIgnoringCase, strictEq.
      change (statusIdx cfg) with status. change (condition cfg) with (trim condInput).
      rewrite trim_idemp, <- cell_cellText. case_bool_decide as Hm.
      * rewrite JsSet_elem_of_add. tauto.
      * tauto.
Qed.

(** C1. In a run, every data row of a processed file -- a row after the
    header rows of a file that passed the duplicate filter and decoded --
    is handled as follows. A row whose key cell is absent (no such column,
    or empty once trimmed) adds one to the run-wide [ignoredNoKey] and
    reaches no set; otherwise a row whose name cell is absent adds one to
    the run-wide [ignoredNoName] and reaches no set; otherwise the trimmed
    key is in the applicants of that event, and it is in the attendees of
    that event exactly when the trimmed status cell and the condition string
    are the same text up to case. So the counters are the numbers of such
    rows, the sets of an event hold the keys of its valid rows and nothing
    else, and their sizes are what the totals add up. The loop trims the
    status cell and not the condition: when the condition reaches
    [aggregate] trimmed, as from the run button, the comparison is the one
    of both texts trimmed. *)
Theorem row_validation_and_sets (files : list File.t) (cfg : Cfg) :
  ∃ r, aggregate files cfg = Some r ∧
       Summary.ignoredNoKey (Result.summary r) =
         length (filter (fun row => absent row (pkIdx cfg) = true)
                   (concat (map (dataRows cfg) (events files)))) ∧
       Summary.ignoredNoName (Result.summary r) =
         length (filter (fun row => absent row (pkIdx cfg) = false ∧
                                    absent row (nameIdx cfg) = true)
                   (concat (map (dataRows cfg) (events files)))) ∧
       Summary.grossTotal (Result.summary r) =
         sum_list_with (fun f => JsSet.size (uniqueApplicants cfg f)) (events files) ∧
       Summary.attendTotal (Result.summary r) =
         sum_list_with (fun f => JsSet.size (uniqueAttendees cfg f)) (events files) ∧
       ∀ f data,
         f ∈ toProcess files → File.decoded f = Some data →
         f ∈ events files ∧
         dataRows cfg f = slice data (headerRow cfg) ∧
         (0 ≤ headerRow cfg → dataRows cfg f = drop (Z.to_nat (headerRow cfg)) data) ∧
         (∀ k, k ∈ uniqueApplicants cfg f ↔
               ∃ row, row ∈ dataRows cfg f ∧
                      absent row (pkIdx cfg) = false ∧ absent row (nameIdx cfg) = false ∧
                      k = trim (cellText row (pkIdx cfg))) ∧
         (∀ k, k ∈ uniqueAttendees cfg f ↔
               ∃ row, row ∈ dataRows cfg f ∧
                      absent row (pkIdx cfg) = false ∧ absent row (nameIdx cfg) = false ∧
                      k = trim (cellText row (pkIdx cfg)) ∧
                      toLowerCase (trim (cellText row (statusIdx cfg))) =
                      toLowerCase (condition cfg)) ∧
         (trim (condition cfg) = condition cfg →
          ∀ k, k ∈ uniqueAttendees cfg f ↔
               ∃ row, row ∈ dataRows cfg f ∧
                      absent row (pkIdx cfg) = false ∧ absent row (nameIdx cfg) = false ∧
                      k = trim (cellText row (pkIdx cfg)) ∧
                      sameTextIgnoringCase (cellText row (statusIdx cfg)) (condition cfg)).
Proof.
  destruct (aggregate_tally cfg files) as (run & Hrun & HT & _).
  exists (finish run). split; [exact Hrun|].
  cbn [Result.summary finish Summary.ignoredNoKey Summary.ignoredNoName
       Summary.grossTotal Summary.attendTotal].
  split; [apply (tally_noKey _ _ _ HT)|]. split; [apply (tally_noName _ _ _ HT)|].
  split; [apply (tally_gross _ _ _ HT)|]. split; [apply (tally_attend _ _ _ HT)|].
  intros f data Hf Hdata.
  split.
  { unfold events. apply list_elem_of_filter. split; [|exact Hf].
    unfold decodes. rewrite Hdata. reflexivity. }
  assert (Hrows : dataRows cfg f = slice data (headerRow cfg)).
  { unfold dataRows, parseCSV. rewrite Hdata. reflexivity. }
  split; [exact Hrows|].
  split; [intros Hh; rewrite Hrows; apply slice_drop; exact Hh|].
  assert (Hatt : ∀ k, k ∈ uniqueAttendees cfg f ↔
            ∃ row, row ∈ dataRows cfg f ∧
                   absent row (pkIdx cfg) = false ∧ absent row (nameIdx cfg) = false ∧
                   k = trim (cellText row (pkIdx cfg)) ∧
                   toLowerCase (trim (cellText row (statusIdx cfg))) =
                   toLowerCase (condition cfg)).
  { intros k. rewrite uniqueAttendees_spec. split.
    - intros (row & Hin & Hv & Ha & Hk). exists row.
      apply validRow_present in Hv as [Hpk Hname].
      unfold attends, strictEq in Ha. apply bool_decide_eq_true in Ha.
      rewrite cell_cellText in Ha, Hk. auto.
    - intros (row & Hin & Hpk & Hname & Hk & Ha). exists row.
      split; [exact Hin|]. split; [apply validRow_present; auto|].
      split; [|rewrite cell_cellText; auto].
      unfold attends, strictEq. apply bool_decide_eq_true.
      rewrite cell_cellText. exact Ha. }
  split; [|split; [exact Hatt|]].
  - intros k. rewrite uniqueApplicants_spec. split.
    + intros (row & Hin & Hv & Hk). exists row.
      apply validRow_present in Hv as [Hpk Hname].
      rewrite cell_cellText in Hk. auto.
    + intros (row & Hin & Hpk & Hname & Hk). exists row.
      split; [exact Hin|]. split; [apply validRow_present; auto|].
      rewrite cell_cellText. auto.
  - intros Hcond k. rewrite Hatt. unfold sameTextIgnoringCase. rewrite Hcond. reflexivity.
Qed.

Lemma finish_masterRows (run : Run.t) :
  Result.masterRows (finish run) = masterRowsOf (Run.master run).
Proof. reflexivity. Qed.

Lemma elem_of_masterRows cfg evs run pk name count :
  Tally cfg evs run →
  (pk, name, count) ∈ Result.masterRows (finish run) ↔
  ledgerEntry cfg pk evs = Some {| Entry.name := name; Entry.count := count |}.
Proof.
  intros HT. rewrite finish_masterRows, elem_of_masterRowsOf by apply HT.
  rewrite (tally_get _ _ _ HT). reflexivity.
Qed.

(** C2. The count a key has in the ledger is the number of events (files
    that passed the duplicate filter and decoded) whose attendee set holds
    the key, however many rows of a file carry it; and the counts of the
    ledger add up to [attendTotal]. *)
Theorem attendance_counts (files : list File.t) (cfg : Cfg) :
  ∃ r, aggregate files cfg = Some r ∧
       (∀ pk name count,
          (pk, name, count) ∈ Result.masterRows r →
          count = attendedEvents cfg pk (events files)) ∧
       sum_list_with (fun row : MasterRow => row.2) (Result.masterRows r) =
       Summary.attendTotal (Result.summary r).
Proof.
  destruct (aggregate_tally cfg files) as (run & Hrun & HT & _).
  exists (finish run). split; [exact Hrun|]. split.
  - intros pk name count Hin. apply (elem_of_masterRows _ _ _ _ _ _ HT) in Hin.
    unfold ledgerEntry in Hin. destruct (firstRowOf cfg pk (events files)); [|discriminate].
    injection Hin as _ <-. reflexivity.
  - rewrite finish_masterRows, sumCounts_masterRowsOf. simpl. apply HT.
Qed.

Lemma length_concat_map {A B} (f : A → list B) (l : list A) :
  length (concat (map f l)) = sum_list_with (fun x => length (f x)) l.
Proof.
  induction l as [|x l IH]; simpl; [reflexivity|]. rewrite length_app, IH. reflexivity.
Qed.

Lemma sum_list_with_le {A} (f g : A → nat) (l : list A) :
  (∀ x, f x ≤ g x)%nat → (sum_list_with f l ≤ sum_list_with g l)%nat.
Proof.
  intros Hfg. induction l as [|x l IH]; simpl; [lia|]. specialize (Hfg x). lia.
Qed.

(** C9. [grossTotal >= attendTotal >= attendUnique >= 0]: in every event
    the attendees are among the applicants, and the unique attendees of the
    run are the union of the attendee sets of its events. *)
Theorem totals_ordered (files : list File.t) (cfg : Cfg) :
  ∃ r, aggregate files cfg = Some r ∧
       (0 ≤ Summary.attendUnique (Result.summary r) ≤
             Summary.attendTotal (Result.summary r))%nat ∧
       (Summary.attendTotal (Result.summary r) ≤
        Summary.grossTotal (Result.summary r))%nat ∧
       (∀ f k, k ∈ uniqueAttendees cfg f → k ∈ uniqueApplicants cfg f) ∧
       Summary.attendUnique (Result.summary r) =
       size (⋃ ((fun f => list_to_set (uniqueAttendees cfg f)) <$> events files)
             : gset jsstring).
Proof.
  destruct (aggregate_tally cfg files) as (run & Hrun & HT & _).
  exists (finish run). split; [exact Hrun|]. simpl.
  rewrite (tally_attend _ _ _ HT), (tally_gross _ _ _ HT).
  split; [split; [lia|]|split; [|split]].
  - unfold JsSet.size. rewrite <- length_concat_map.
    apply submseteq_length, NoDup_submseteq; [apply HT|].
    intros k (f & Hf & Hk)%(tally_uniq_elem _ _ _ HT).
    apply elem_of_concat. exists (uniqueAttendees cfg f). split; [|assumption].
    apply list_elem_of_fmap. eauto.
  - apply sum_list_with_le. intros f. apply attendees_le_applicants.
  - intros f k. apply attendees_applicants.
  - unfold JsSet.size. rewrite <- (size_list_to_set (C := gset jsstring)) by apply HT.
    f_equal. apply set_eq. intros k.
    rewrite elem_of_list_to_set, elem_of_union_list, (tally_uniq_elem _ _ _ HT).
    split.
    + intros (f & Hf & Hk). exists (list_to_set (uniqueAttendees cfg f)).
      split; [apply list_elem_of_fmap; eauto | apply elem_of_list_to_set, Hk].
    + intros (X & (f & -> & Hf)%list_elem_of_fmap & Hk%elem_of_list_to_set). eauto.
Qed.

(** C10. Every key of a valid row (key and name present once trimmed) of an
    event has a row in [masterRows], also when no event counted it as an
    attendee: its count is then 0. *)
Theorem applicants_in_ledger (files : list File.t) (cfg : Cfg) :
  ∃ r, aggregate files cfg = Some r ∧
       ∀ f row,
         f ∈ events files → row ∈ dataRows cfg f → validRow cfg row = true →
         ∃ name count,
           (cell row (pkIdx cfg), name, count) ∈ Result.masterRows r ∧
           ((∀ g, g ∈ events files → cell row (pkIdx cfg) ∉ uniqueAttendees cfg g) →
            count = 0%nat).
Proof.
  destruct (aggregate_tally cfg files) as (run & Hrun & HT & _).
  exists (finish run). split; [exact Hrun|].
  intros f row Hf Hrow Hv.
  destruct (firstRowOf cfg (cell row (pkIdx cfg)) (events files)) as [row0|] eqn:Hfirst.
  - exists (cell row0 (nameIdx cfg)), (attendedEvents cfg (cell row (pkIdx cfg)) (events files)).
    split.
    + apply (elem_of_masterRows _ _ _ _ _ _ HT). unfold ledgerEntry. rewrite Hfirst.
      reflexivity.
    + intros Hnone. unfold attendedEvents. rewrite filter_none; [reflexivity|]. exact Hnone.
  - exfalso. unfold firstRowOf in Hfirst.
    apply head_filter_None with (x := row) in Hfirst; [apply Hfirst; reflexivity|].
    apply elem_of_validRows. eauto.
Qed.

Lemma attendeeLoop_name ks (m m' : JsMap.t Entry.t) (u u' : JsSet.t) pk e :
  forOf attendeeStep ks (m, u) = Some (m', u') → JsMap.get pk m = Some e →
  ∃ e', JsMap.get pk m' = Some e' ∧ Entry.name e' = Entry.name e.
Proof.
  revert m u e. induction ks as [|k ks IH]; intros m u e; cbn [forOf attendeeStep].
  - intros [= <- <-] Hg. eauto.
  - destruct (JsMap.get k m) as [e0|] eqn:Hk; [|discriminate].
    intros Hloop Hg. destruct (decide (k = pk)) as [->|Hne].
    + eapply IH in Hloop as (e' & Hg' & Hn'); [|apply JsMap_get_set_eq].
      exists e'. split; [assumption|]. rewrite Hn'. simpl. congruence.
    + eapply IH in Hloop as (e' & Hg' & Hn'); [eauto|].
      rewrite JsMap_get_set_ne; assumption.
Qed.

Lemma rowStep_name cfg run ev row pk e :
  JsMap.get pk (Run.master run) = Some e →
  JsMap.get pk (Run.master (rowStep cfg (run, ev) row).1) = Some e.
Proof.
  intros Hg. rewrite rowStep_split. cbn [fst].
  destruct (rowRun_fold_master cfg [row] run) as (_ & _ & Hget).
  cbn [fold_left] in Hget. rewrite Hget, Hg. reflexivity.
Qed.

Lemma fileStep_name cfg run file run' pk e :
  fileStep cfg run file = Some run' → JsMap.get pk (Run.master run) = Some e →
  ∃ e', JsMap.get pk (Run.master run') = Some e' ∧ Entry.name e' = Entry.name e.
Proof.
  unfold fileStep. destruct (parseCSV file (headerRow cfg)) as [rows|].
  - unfold rowLoop. rewrite rowLoop_split.
    destruct (rowRun_fold_master cfg rows run) as (_ & _ & Hget).
    destruct (forOf attendeeStep _ _) as [[m' u']|] eqn:Hloop; [|discriminate].
    intros [= <-] Hg. simpl.
    eapply attendeeLoop_name; [exact Hloop|]. rewrite Hget, Hg. reflexivity.
  - intros [= <-] Hg. simpl. eauto.
Qed.

(** C5. The name the ledger holds for a key is the name on the first valid
    row of the run that carries the key; no row and no file processed later
    changes the name an entry of [master] already has. *)
Theorem first_seen_name (files : list File.t) (cfg : Cfg) :
  ∃ r, aggregate files cfg = Some r ∧
       (∀ pk name count,
          (pk, name, count) ∈ Result.masterRows r →
          ∃ row, firstRowOf cfg pk (events files) = Some row ∧
                 name = cell row (nameIdx cfg)) ∧
       (∀ run ev row pk e,
          JsMap.get pk (Run.master run) = Some e →
          JsMap.get pk (Run.master (rowStep cfg (run, ev) row).1) = Some e) ∧
       (∀ run file run' pk e,
          fileStep cfg run file = Some run' →
          JsMap.get pk (Run.master run) = Some e →
          ∃ e', JsMap.get pk (Run.master run') = Some e' ∧
                Entry.name e' = Entry.name e).
Proof.
  destruct (aggregate_tally cfg files) as (run & Hrun & HT & _).
  exists (finish run). split; [exact Hrun|]. split; [|split].
  - intros pk name count Hin. apply (elem_of_masterRows _ _ _ _ _ _ HT) in Hin.
    unfold ledgerEntry in Hin.
    destruct (firstRowOf cfg pk (events files)) as [row|]; [|discriminate].
    injection Hin as <- _. eauto.
  - intros. apply rowStep_name. assumption.
  - intros. eapply fileStep_name; eassumption.
Qed.

(** C7. [masterRows] is sorted by count, larger first, and among equal
    counts by key in the order of [localeCompare]; and no key has two rows.
    The collation is a consistent comparator, as ECMA-402 requires. *)
Theorem master_rows_sorted `{!ConsistentCollation H} (files : list File.t) (cfg : Cfg) :
  ∃ r, aggregate files cfg = Some r ∧
       StronglySorted ledgerOrder (Result.masterRows r) ∧
       NoDup (map (fun row : MasterRow => row.1.1) (Result.masterRows r)).
Proof.
  destruct (aggregate_tally cfg files) as (run & Hrun & HT & _).
  exists (finish run). split; [exact Hrun|]. rewrite finish_masterRows. split.
  - apply masterRowsOf_sorted.
  - rewrite masterRowsOf_keys. apply HT.
Qed.

Lemma ledgerCount_masterRows cfg evs run pk :
  Tally cfg evs run →
  ledgerCount (Result.masterRows (finish run)) pk = Entry.count <$> ledgerEntry cfg pk evs.
Proof.
  intros HT. unfold ledgerCount.
  destruct (filter _ _) as [|[[k n] c] rest] eqn:Hfilter.
  - destruct (ledgerEntry cfg pk evs) as [[n c]|] eqn:He; [|reflexivity]. exfalso.
    apply (elem_of_masterRows _ _ _ _ _ _ HT) in He.
    assert (Hin : (pk, n, c) ∈ filter (fun r : MasterRow => r.1.1 = pk)
                                 (Result.masterRows (finish run))).
    { apply list_elem_of_filter. auto. }
    rewrite Hfilter in Hin. apply elem_of_nil in Hin. exact Hin.
  - assert (Hin : (k, n, c) ∈ filter (fun r : MasterRow => r.1.1 = pk)
                                (Result.masterRows (finish run))).
    { rewrite Hfilter. apply list_elem_of_here. }
    apply list_elem_of_filter in Hin as [Hk Hin]. simpl in Hk. subst k.
    apply (elem_of_masterRows _ _ _ _ _ _ HT) in Hin. rewrite Hin. reflexivity.
Qed.

Lemma firstRowOf_is_Some cfg pk evs :
  is_Some (firstRowOf cfg pk evs) ↔
  ∃ f row, f ∈ evs ∧ row ∈ dataRows cfg f ∧ validRow cfg row = true ∧
           cell row (pkIdx cfg) = pk.
Proof.
  unfold firstRowOf. split.
  - intros [row Hrow]. apply head_Some_elem_of in Hrow.
    apply list_elem_of_filter in Hrow as [Hk Hin].
    apply elem_of_validRows in Hin as [Hv (f & Hf & Hr)]. eauto 7.
  - intros (f & row & Hf & Hr & Hv & Hk).
    destruct (head _) eqn:Hhead; [eauto|]. exfalso.
    apply head_filter_None with (x := row) in Hhead; [contradiction|].
    apply elem_of_validRows. eauto.
Qed.

Lemma ledgerEntry_count_perm cfg pk evs evs' :
  evs ≡ₚ evs' →
  Entry.count <$> ledgerEntry cfg pk evs = Entry.count <$> ledgerEntry cfg pk evs'.
Proof.
  intros Hp. unfold ledgerEntry.
  assert (Hatt : attendedEvents cfg pk evs = attendedEvents cfg pk evs').
  { unfold attendedEvents. rewrite Hp. reflexivity. }
  assert (Hsome : is_Some (firstRowOf cfg pk evs) ↔ is_Some (firstRowOf cfg pk evs')).
  { rewrite !firstRowOf_is_Some. setoid_rewrite Hp. reflexivity. }
  destruct (firstRowOf cfg pk evs) as [row|], (firstRowOf cfg pk evs') as [row'|]; simpl.
  - rewrite Hatt. reflexivity.
  - exfalso. eapply is_Some_None, Hsome. eauto.
  - exfalso. eapply is_Some_None, Hsome. eauto.
  - reflexivity.
Qed.

(** C4. Submitting the same files in another order changes neither the
    totals nor the count of any key (the name kept for a key may change). *)
Theorem order_independence (files files' : list File.t) (cfg : Cfg) :
  files ≡ₚ files' →
  ∃ r r', aggregate files cfg = Some r ∧ aggregate files' cfg = Some r' ∧
          Summary.grossTotal (Result.summary r) = Summary.grossTotal (Result.summary r') ∧
          Summary.attendTotal (Result.summary r) = Summary.attendTotal (Result.summary r') ∧
          Summary.attendUnique (Result.summary r) =
          Summary.attendUnique (Result.summary r') ∧
          ∀ pk, ledgerCount (Result.masterRows r) pk = ledgerCount (Result.masterRows r') pk.
Proof.
  intros Hp%events_perm.
  destruct (aggregate_tally cfg files) as (run & Hrun & HT & _).
  destruct (aggregate_tally cfg files') as (run' & Hrun' & HT' & _).
  exists (finish run), (finish run'). split; [exact Hrun|]. split; [exact Hrun'|].
  simpl. split; [|split; [|split]].
  - rewrite (tally_gross _ _ _ HT), (tally_gross _ _ _ HT'), Hp. reflexivity.
  - rewrite (tally_attend _ _ _ HT), (tally_attend _ _ _ HT'), Hp. reflexivity.
  - unfold JsSet.size. apply Permutation_length, NoDup_Permutation; [apply HT|apply HT'|].
    intros k. rewrite (tally_uniq_elem _ _ _ HT), (tally_uniq_elem _ _ _ HT').
    setoid_rewrite Hp. reflexivity.
  - intros pk. rewrite (ledgerCount_masterRows _ _ _ _ HT), (ledgerCount_masterRows _ _ _ _ HT').
    apply ledgerEntry_count_perm, Hp.
Qed.

(** *** Files that do not decode *)

Lemma rowRun_tallies cfg run row : tallies (rowRun cfg run row) = rowRun cfg (tallies run) row.
Proof.
  unfold rowRun, rowStep.
  destruct (isEmpty (cell row (pkIdx cfg))); [reflexivity|].
  destruct (isEmpty (cell row (nameIdx cfg))); reflexivity.
Qed.

Lemma rowRun_fold_tallies cfg rows run :
  tallies (fold_left (rowRun cfg) rows run) = fold_left (rowRun cfg) rows (tallies run).
Proof.
  revert run. induction rows as [|row rows IH]; intros run; cbn [fold_left]; [reflexivity|].
  rewrite IH, rowRun_tallies. reflexivity.
Qed.

Lemma fileStep_tallies cfg run file :
  tallies <$> fileStep cfg run file = tallies <$> fileStep cfg (tallies run) file.
Proof.
  unfold fileStep. destruct (parseCSV file (headerRow cfg)) as [rows|]; [|reflexivity].
  unfold rowLoop. rewrite !rowLoop_split, <- rowRun_fold_tallies.
  set (run1 := fold_left (rowRun cfg) rows run).
  cbn [tallies Run.master Run.attendUniq Run.skipped Run.grossTotal Run.attendTotal
       Run.ignoredNoKey Run.ignoredNoName Run.processed].
  destruct (forOf attendeeStep _ _) as [[m' u']|]; reflexivity.
Qed.

Lemma fileStep_same_tallies cfg run run' file :
  tallies run = tallies run' →
  tallies <$> fileStep cfg run file = tallies <$> fileStep cfg run' file.
Proof.
  intros Heq. rewrite (fileStep_tallies cfg run), (fileStep_tallies cfg run'), Heq.
  reflexivity.
Qed.

(** The files that do not decode leave the totals and the ledger of the
    loop as they would be without them. *)
Lemma forOf_fileStep_tallies cfg files run run' :
  tallies run = tallies run' →
  tallies <$> forOf (fileStep cfg) files run =
  tallies <$> forOf (fileStep cfg) (filter (fun f => decodes f = true) files) run'.
Proof.
  revert run run'. induction files as [|file files IH]; intros run run' Heq.
  - simpl. congruence.
  - destruct (decodes file) eqn:Hdec.
    + rewrite filter_cons_True by assumption. cbn [forOf].
      pose proof (fileStep_same_tallies cfg run run' file Heq) as Hstep.
      destruct (fileStep cfg run file) as [r1|], (fileStep cfg run' file) as [r1'|];
        simpl in Hstep; try discriminate; [|reflexivity].
      apply IH. congruence.
    + rewrite filter_cons_False by congruence. cbn [forOf].
      rewrite fileStep_failed by assumption. apply IH. rewrite <- Heq. reflexivity.
Qed.

Lemma finish_tallies (run run' : Run.t) :
  tallies run = tallies run' →
  Result.processedCount (finish run) = Result.processedCount (finish run') ∧
  Result.masterRows (finish run) = Result.masterRows (finish run') ∧
  Result.summary (finish run) = Result.summary (finish run').
Proof.
  unfold tallies, finish. intros [= Hm Hg Ha Hu Hk Hn Hp]. simpl.
  rewrite Hm, Hg, Ha, Hu, Hk, Hn, Hp. auto.
Qed.

Lemma filter_ext_in {A} (P Q : A → Prop) `{∀ x, Decision (P x)} `{∀ x, Decision (Q x)}
    (l : list A) :
  (∀ x, x ∈ l → P x ↔ Q x) → filter P l = filter Q l.
Proof.
  induction l as [|x l IH]; intros Hext; [reflexivity|].
  assert (Hx : P x ↔ Q x) by apply Hext, list_elem_of_here.
  assert (Hl : filter P l = filter Q l).
  { apply IH. intros y Hy. apply Hext, list_elem_of_further, Hy. }
  destruct (decide (P x)) as [HP|HP].
  - rewrite !filter_cons_True by tauto. congruence.
  - rewrite !filter_cons_False by tauto. assumption.
Qed.

Lemma fails_false files f :
  fails files f = false ↔ File.name f ∈ dupNames files ∨ decodes f = true.
Proof.
  unfold fails. rewrite andb_false_iff, !negb_false_iff, JsSet_has_true. reflexivity.
Qed.

Lemma occurrences_withoutFailed files k :
  k ∈ dupNames files → occurrences k (withoutFailed files) = occurrences k files.
Proof.
  intros Hk. unfold occurrences, withoutFailed. rewrite list_filter_filter. f_equal.
  apply filter_ext_in. intros f _. rewrite fails_false. split; [tauto|].
  intros ->. auto.
Qed.

Lemma length_filter_filter_le {A} (P Q : A → Prop)
    `{∀ x, Decision (P x)} `{∀ x, Decision (Q x)} (l : list A) :
  (length (filter P (filter Q l)) ≤ length (filter P l))%nat.
Proof.
  induction l as [|x l IH]; [reflexivity|].
  destruct (decide (Q x)).
  - rewrite (filter_cons_True Q) by assumption.
    destruct (decide (P x)).
    + rewrite !(filter_cons_True P) by assumption. simpl. lia.
    + rewrite !(filter_cons_False P) by assumption. assumption.
  - rewrite (filter_cons_False Q) by assumption.
    destruct (decide (P x)).
    + rewrite (filter_cons_True P) by assumption. simpl. lia.
    + rewrite (filter_cons_False P) by assumption. assumption.
Qed.

Lemma dupNames_withoutFailed files k :
  k ∈ dupNames (withoutFailed files) ↔ k ∈ dupNames files.
Proof.
  split.
  - rewrite !dupNames_spec. intros [Hinh Hocc]. split; [assumption|].
    etransitivity; [exact Hocc|]. apply length_filter_filter_le.
  - intros Hk. pose proof Hk as [Hinh Hocc]%dupNames_spec.
    apply dupNames_spec. rewrite occurrences_withoutFailed by assumption. auto.
Qed.

(** Without its failing files, a submission has the events of the full
    submission to process. *)
Lemma toProcess_withoutFailed files : toProcess (withoutFailed files) = events files.
Proof.
  unfold events, toProcess.
  pose proof (dupNames_withoutFailed files) as Hdup.
  set (d := dupNames (withoutFailed files)) in *. unfold withoutFailed.
  rewrite !list_filter_filter. apply filter_ext_in. intros f _.
  rewrite !JsSet_has_false, Hdup, fails_false.
  destruct (decodes f); intuition congruence.
Qed.

Lemma parseErrors_elem files f :
  f ∈ files → decodes f = false →
  {| Skipped.name := File.name f; Skipped.reason := parse_error |} ∈ parseErrors files.
Proof.
  intros Hin Hdec. unfold parseErrors. apply list_elem_of_fmap. exists f.
  split; [reflexivity|]. apply list_elem_of_filter. auto.
Qed.

(** C8. A file that does not decode is listed in [skipped] with reason
    [parse_error]; the processed-file count, the ledger and the whole summary
    (totals, unique attendees, rate, ignored-row counters) are those of the
    submission without the failing files, so the files after it are
    processed as if it had not been there; and the run returns. *)
Theorem parse_failure_isolated (files : list File.t) (cfg : Cfg) :
  ∃ r r', aggregate files cfg = Some r ∧
          aggregate (withoutFailed files) cfg = Some r' ∧
          (∀ f, f ∈ files → fails files f = true →
                {| Skipped.name := File.name f; Skipped.reason := parse_error |}
                ∈ Result.skipped r) ∧
          Result.processedCount r = Result.processedCount r' ∧
          Result.masterRows r = Result.masterRows r' ∧
          Result.summary r = Result.summary r' ∧
          Result.processedCount r = length (events files).
Proof.
  destruct (fileLoop_tally cfg files) as (run & Hrun & HT & Hsk).
  destruct (fileLoop_tally cfg (withoutFailed files)) as (run' & Hrun' & HT' & _).
  exists (finish run), (finish run'). unfold aggregate. rewrite Hrun, Hrun'.
  split; [reflexivity|]. split; [reflexivity|]. split.
  { intros f Hin Hf. simpl. rewrite Hsk. apply elem_of_app. right.
    unfold fails in Hf. apply andb_true_iff in Hf as [Hdup Hdec].
    apply negb_true_iff in Hdup, Hdec.
    apply parseErrors_elem; [|assumption].
    unfold toProcess. apply list_elem_of_filter. auto. }
  assert (Heq : tallies run = tallies run').
  { unfold fileLoop in Hrun, Hrun'. rewrite toProcess_withoutFailed in Hrun'.
    pose proof (forOf_fileStep_tallies cfg (toProcess files)
                  (initialRun files) (initialRun (withoutFailed files)) eq_refl) as Hfold.
    fold (events files) in Hfold. rewrite Hrun, Hrun' in Hfold. simpl in Hfold. congruence. }
  destruct (finish_tallies run run' Heq) as (Hp & Hm & Hs).
  split; [exact Hp|]. split; [exact Hm|]. split; [exact Hs|].
  simpl. apply HT.
Qed.

(** C6. With no application the rate is the number [0], no division takes
    place; otherwise it is the text [toFixed(6)] makes of the binary64
    quotient [attendTotal / grossTotal], and, up to 2^31 applications, that
    text is a number of millionths nearest to the exact quotient. *)
Theorem rate_rounded (files : list File.t) (cfg : Cfg) :
  ∃ r, aggregate files cfg = Some r ∧
       let g := Summary.grossTotal (Result.summary r) in
       let a := Summary.attendTotal (Result.summary r) in
       (g = 0%nat → Summary.rate (Result.summary r) = RateNumber 0) ∧
       ((0 < g)%nat →
        Summary.rate (Result.summary r) =
        RateString (toFixed6 (JsNumber.div (JsNumber.ofNat a) (JsNumber.ofNat g)))) ∧
       ((0 < g)%nat → Z.of_nat g < 2 ^ 31 →
        ∃ n : Z,
          Summary.rate (Result.summary r) = RateString (JsNumber.fixed6 n) ∧
          0 ≤ n ≤ 10 ^ 6 ∧
          Z.abs (2 * (n * Z.of_nat g - 10 ^ 6 * Z.of_nat a)) ≤ Z.of_nat g).
Proof.
  destruct (aggregate_tally cfg files) as (run & Hrun & HT & _).
  exists (finish run). split; [exact Hrun|]. cbn zeta. simpl. unfold rateOf.
  split; [|split].
  - intros ->. reflexivity.
  - intros Hg. rewrite bool_decide_eq_true_2 by assumption. reflexivity.
  - intros Hg H31. rewrite bool_decide_eq_true_2 by assumption.
    destruct (toFixed6_quotient (Run.attendTotal run) (Run.grossTotal run))
      as (n & Hn & Hrange & Hnear); [assumption|assumption| |].
    + rewrite (tally_attend _ _ _ HT), (tally_gross _ _ _ HT).
      apply sum_list_with_le. intros f. apply attendees_le_applicants.
    + exists n. rewrite Hn. auto.
Qed.

End Claims.

(** ** The sample host *)

Lemma codeUnitCompare_total (a b : jsstring) :
  codeUnitCompare a b ≤ 0 ∨ codeUnitCompare b a ≤ 0.
Proof.
  revert b. induction a as [|x a IH]; intros [|y b]; simpl; try lia.
  destruct (N.ltb_spec x y), (N.ltb_spec y x); try lia. apply IH.
Qed.

Lemma codeUnitCompare_trans (a b c : jsstring) :
  codeUnitCompare a b ≤ 0 → codeUnitCompare b c ≤ 0 → codeUnitCompare a c ≤ 0.
Proof.
  revert b c. induction a as [|x a IH]; intros [|y b] [|z c]; simpl; try lia.
  destruct (N.ltb_spec x y), (N.ltb_spec y x), (N.ltb_spec y z), (N.ltb_spec z y),
    (N.ltb_spec x z), (N.ltb_spec z x); try lia.
  apply IH.
Qed.

Lemma asciiHost_consistent : ConsistentCollation asciiHost.
Proof.
  split; [exact codeUnitCompare_total | exact codeUnitCompare_trans].
Qed.

(** ** The sample run *)

Example sample_run :
  aggregate (H := asciiHost) (H0 := quotientHost) [spring; autumn] sampleCfg =
  Some {| Result.processedCount := 2;
          Result.skipped := [];
          Result.masterRows :=
            [(lit "K1", lit "Alice", 2%nat); (lit "K3", lit "Carol", 1%nat);
             (lit "K4", lit "Dan", 0%nat)];
          Result.summary :=
            {| Summary.grossTotal := 5; Summary.attendTotal := 3;
               Summary.attendUnique := 2; Summary.rate := RateString (lit "0.600000");
               Summary.ignoredNoKey := 1; Summary.ignoredNoName := 1 |} |}.
Proof. vm_compute. reflexivity. Qed.

Example sample_run_duplicates :
  aggregate (H := asciiHost) (H0 := quotientHost)
    [spring; autumn; brokenFile "winter.csv"; spring] sampleCfg =
  Some {| Result.processedCount := 1;
          Result.skipped :=
            [{| Skipped.name := lit "spring.csv"; Skipped.reason := duplicate_filename |};
             {| Skipped.name := lit "winter.csv"; Skipped.reason := parse_error |}];
          Result.masterRows :=
            [(lit "K1", lit "Alice A.", 1%nat); (lit "K3", lit "Caroline", 1%nat);
             (lit "K4", lit "Dan", 0%nat)];
          Result.summary :=
            {| Summary.grossTotal := 3; Summary.attendTotal := 2;
               Summary.attendUnique := 2; Summary.rate := RateString (lit "0.666667");
               Summary.ignoredNoKey := 0; Summary.ignoredNoName := 0 |} |}.
Proof. vm_compute. reflexivity. Qed.

(** Quotients that lie halfway between two millionths go where their
    binary64 value lies. *)
Example rate_of_halfway_quotients :
  toFixed6 (H := quotientHost) (JsNumber.div (JsNumber.ofNat 1) (JsNumber.ofNat (Z.to_nat 2000000))) =
    lit "0.000000" ∧
  toFixed6 (H := quotientHost) (JsNumber.div (JsNumber.ofNat 5) (JsNumber.ofNat (Z.to_nat 2000000))) =
    lit "0.000003" ∧
  toFixed6 (H := quotientHost) (JsNumber.div (JsNumber.ofNat 2) (JsNumber.ofNat 3)) =
    lit "0.666667".
Proof. vm_compute. auto. Qed.

Example sample_run_empty :
  Summary.rate <$> (Result.summary <$>
    aggregate (H := asciiHost) (H0 := quotientHost) [spring; spring] sampleCfg) =
  Some (RateNumber 0).
Proof. vm_compute. reflexivity. Qed.

(** The orders of the two sample files give the same counts and totals. *)
Lemma order_independence_witness :
  ∃ r r',
    aggregate (H := asciiHost) (H0 := quotientHost) [spring; autumn] sampleCfg = Some r ∧
    aggregate (H := asciiHost) (H0 := quotientHost) [autumn; spring] sampleCfg = Some r' ∧
    Summary.grossTotal (Result.summary r) = Summary.grossTotal (Result.summary r') ∧
    Summary.attendTotal (Result.summary r) = Summary.attendTotal (Result.summary r') ∧
    Summary.attendUnique (Result.summary r) = Summary.attendUnique (Result.summary r') ∧
    ∀ pk, ledgerCount (Result.masterRows r) pk = ledgerCount (Result.masterRows r') pk.
Proof.
  apply (order_independence (H := asciiHost) (H0 := quotientHost)
           [spring; autumn] [autumn; spring] sampleCfg).
  apply perm_swap.
Defined.

(** The ledger of the sample run is sorted under the code-unit collation. *)
Lemma master_rows_sorted_witness :
  ∃ r, aggregate (H := asciiHost) (H0 := quotientHost) [spring; autumn] sampleCfg = Some r ∧
       StronglySorted (ledgerOrder (H := asciiHost)) (Result.masterRows r) ∧
       NoDup (map (fun row : MasterRow => row.1.1) (Result.masterRows r)).
Proof.
  exact (master_rows_sorted (H := asciiHost) (H0 := quotientHost)
           (ConsistentCollation0 := asciiHost_consistent) [spring; autumn] sampleCfg).
Defined.

(** The rows of the two sample files, with the condition of the sample
    settings, which is trimmed. *)
Lemma row_validation_and_sets_witness :
  trim (condition sampleCfg) = condition sampleCfg ∧
  ∃ r, aggregate (H := asciiHost) (H0 := quotientHost) [spring; autumn] sampleCfg = Some r ∧
       Summary.ignoredNoKey (Result.summary r) = 1%nat ∧
       Summary.ignoredNoName (Result.summary r) = 1%nat ∧
       ∀ k, k ∈ uniqueAttendees (H := asciiHost) sampleCfg autumn ↔
            ∃ row, row ∈ dataRows sampleCfg autumn ∧
                   absent row (pkIdx sampleCfg) = false ∧
                   absent row (nameIdx sampleCfg) = false ∧
                   k = trim (cellText row (pkIdx sampleCfg)) ∧
                   sameTextIgnoringCase (H := asciiHost)
                     (cellText row (statusIdx sampleCfg)) (condition sampleCfg).
Proof.
  assert (Hcond : trim (condition sampleCfg) = condition sampleCfg)
    by (vm_compute; reflexivity).
  split; [exact Hcond|].
  destruct (row_validation_and_sets (H := asciiHost) (H0 := quotientHost)
              [spring; autumn] sampleCfg)
    as (r & Hr & HnoKey & HnoName & _ & _ & Hfiles).
  exists r. split; [exact Hr|].
  split; [rewrite HnoKey; vm_compute; reflexivity|].
  split; [rewrite HnoName; vm_compute; reflexivity|].
  destruct (Hfiles autumn (map (map lit)
              [["id"; "name"; "status"];
               ["K3"; "Caroline"; "APPROVED"];
               ["K1"; "Alice A."; "approved"];
               ["K4"; "Dan"]]%string))
    as (_ & _ & _ & _ & _ & Hboth).
  - vm_compute. apply list_elem_of_further, list_elem_of_here.
  - reflexivity.
  - exact (Hboth Hcond).
Defined.

(** C3. The duplicate filter is meant to skip every file whose name occurs
    more than once and to report each such name once. Two files named like a
    member of [Object.prototype] are both kept and nothing is reported: the
    count of such a name is read from the prototype of [nameCnt]. *)
Theorem duplicate_of_inherited_name_kept :
  let f := sampleFile "constructor" [] in
  occurrences (File.name f) [f; f] = 2%nat ∧
  toProcess [f; f] = [f; f] ∧
  skippedDuplicates [f; f] = [].
Proof. vm_compute. auto. Qed.

(** * Further properties of the run *)

Section Run.

Context `{JsHost} `{JsNumberHost}.
Implicit Types (cfg : Cfg) (files : list File.t).

Lemma head_filter_Some {A} (P : A → Prop) `{∀ x, Decision (P x)} (l : list A) x :
  head (filter P l) = Some x → P x ∧ x ∈ l.
Proof.
  intros Hh. apply head_Some_elem_of in Hh. apply list_elem_of_filter in Hh. exact Hh.
Qed.

Lemma length_filter_split {A} (P : A → Prop) `{∀ x, Decision (P x)} (l : list A) :
  length l = (length (filter P l) + length (filter (fun x => ¬ P x) l))%nat.
Proof.
  induction l as [|x l IH]; [reflexivity|].
  destruct (decide (P x)).
  - rewrite filter_cons_True, filter_cons_False by tauto. simpl. lia.
  - rewrite filter_cons_False, filter_cons_True by tauto. simpl. lia.
Qed.

Lemma filter_all {A} (P : A → Prop) `{∀ x, Decision (P x)} (l : list A) :
  Forall P l → filter P l = l.
Proof.
  induction 1 as [|x l Hx Hl IH]; [reflexivity|].
  rewrite filter_cons_True by assumption. rewrite IH. reflexivity.
Qed.

Lemma length_filter_ext {A} (P Q : A → Prop)
    `{∀ x, Decision (P x)} `{∀ x, Decision (Q x)} (l : list A) :
  (∀ x, x ∈ l → P x ↔ Q x) → length (filter P l) = length (filter Q l).
Proof. intros Hext. rewrite (filter_ext_in P Q l Hext). reflexivity. Qed.

(** X1. Every submitted file is accounted for once: it is processed, or it
    is reported with [parse_error], or its name is reported with
    [duplicate_filename]; and [skipped] lists the duplicated names first,
    then the files that did not decode. *)
Theorem files_accounted (files : list File.t) (cfg : Cfg) :
  ∃ r, aggregate files cfg = Some r ∧
       length files =
         (Result.processedCount r +
          length (filter (fun s => Skipped.reason s = parse_error) (Result.skipped r)) +
          length (filter (fun f => duplicateEntry (File.name f) ∈ Result.skipped r) files))%nat ∧
       ∃ dups failed,
         Result.skipped r = dups ++ failed ∧
         Forall (fun s => Skipped.reason s = duplicate_filename) dups ∧
         Forall (fun s => Skipped.reason s = parse_error) failed.
Proof.
  destruct (aggregate_tally cfg files) as (run & Hrun & HT & Hsk).
  exists (finish run). split; [exact Hrun|]. simpl. rewrite Hsk, (tally_processed _ _ _ HT).
  assert (Hd : Forall (fun s => Skipped.reason s = duplicate_filename) (skippedDuplicates files)).
  { apply Forall_forall. intros s (n & -> & _)%list_elem_of_fmap. reflexivity. }
  assert (Hp : Forall (fun s => Skipped.reason s = parse_error) (parseErrors (toProcess files))).
  { apply Forall_forall. intros s (f & -> & _)%list_elem_of_fmap. reflexivity. }
  split; [|eauto].
  rewrite filter_app, length_app.
  rewrite (filter_none _ (skippedDuplicates files)).
  2:{ intros s Hs. rewrite Forall_forall in Hd. rewrite (Hd s Hs). discriminate. }
  rewrite (filter_all _ _ Hp). unfold parseErrors at 1. rewrite length_map. simpl.
  rewrite (length_filter_split (fun f => JsSet.has (File.name f) (dupNames files) = false) files).
  fold (toProcess files).
  rewrite (length_filter_split (fun f => decodes f = true) (toProcess files)).
  fold (events files).
  rewrite (length_filter_ext (fun f => ¬ decodes f = true) (fun f => decodes f = false))
    by (intros f _; destruct (decodes f); intuition congruence).
  rewrite (length_filter_ext
             (fun f => ¬ JsSet.has (File.name f) (dupNames files) = false)
             (fun f => duplicateEntry (File.name f)
                       ∈ skippedDuplicates files ++ parseErrors (toProcess files))).
  - lia.
  - intros f _. rewrite elem_of_app. split.
    + intros Hn. left. apply list_elem_of_fmap. exists (File.name f). split; [reflexivity|].
      apply JsSet_has_true. destruct (JsSet.has _ _); congruence.
    + intros [(n & [= ->] & Hn)%list_elem_of_fmap|(g & Hg & _)%list_elem_of_fmap].
      * apply JsSet_has_true in Hn. congruence.
      * discriminate Hg.
Qed.

Lemma length_rows_split cfg (rows : list Row) :
  length rows =
  (length (filter (fun row => absent row (pkIdx cfg) = true) rows) +
   length (filter (fun row => absent row (pkIdx cfg) = false ∧
                              absent row (nameIdx cfg) = true) rows) +
   length (filter (fun row => validRow cfg row = true) rows))%nat.
Proof.
  induction rows as [|row rows IH]; [reflexivity|].
  destruct (row_cases cfg row) as [Hk|[[Hk Hn]|Hv]].
  - rewrite filter_cons_True by assumption.
    rewrite filter_cons_False by (intros [? _]; congruence).
    rewrite filter_cons_False by (unfold validRow; rewrite Hk; discriminate).
    simpl. lia.
  - rewrite filter_cons_False by congruence.
    rewrite filter_cons_True by auto.
    rewrite filter_cons_False by (unfold validRow; rewrite Hk, Hn; discriminate).
    simpl. lia.
  - pose proof Hv as [Hk Hn]%validRow_present.
    rewrite filter_cons_False by congruence.
    rewrite filter_cons_False by (intros [_ ?]; congruence).
    rewrite filter_cons_True by assumption.
    simpl. lia.
Qed.

(** X2. Every data row of every event is counted once: as a row without
    key, as a row with a key and without name, or as a valid row. *)
Theorem rows_accounted (files : list File.t) (cfg : Cfg) :
  ∃ r, aggregate files cfg = Some r ∧
       length (concat (map (dataRows cfg) (events files))) =
       (Summary.ignoredNoKey (Result.summary r) +
        Summary.ignoredNoName (Result.summary r) +
        length (validRows cfg (events files)))%nat.
Proof.
  destruct (aggregate_tally cfg files) as (run & Hrun & HT & _).
  exists (finish run). split; [exact Hrun|]. simpl.
  rewrite (tally_noKey _ _ _ HT), (tally_noName _ _ _ HT). unfold validRows.
  apply length_rows_split.
Qed.

Lemma ledgerEntry_keys cfg evs run k :
  Tally cfg evs run →
  k ∈ JsMap.keys (Run.master run) ↔ ∃ f, f ∈ evs ∧ k ∈ uniqueApplicants cfg f.
Proof.
  intros HT. split.
  - intros Hk. destruct (JsMap.get k (Run.master run)) as [e|] eqn:Hg;
      [|apply JsMap_get_None in Hg; contradiction].
    rewrite (tally_get _ _ _ HT) in Hg. unfold ledgerEntry in Hg.
    destruct (firstRowOf cfg k evs) as [row|] eqn:Hfirst; [|discriminate].
    destruct (proj1 (firstRowOf_is_Some cfg k evs)) as (f & r & Hf & Hr & Hv & Hkey);
      [rewrite Hfirst; eauto|].
    exists f. split; [assumption|]. apply uniqueApplicants_spec. eauto.
  - intros (f & Hf & (row & Hr & Hv & Hkey)%uniqueApplicants_spec).
    destruct (decide (k ∈ JsMap.keys (Run.master run))) as [|Hn]; [assumption|]. exfalso.
    apply JsMap_get_None in Hn. rewrite (tally_get _ _ _ HT) in Hn. unfold ledgerEntry in Hn.
    destruct (firstRowOf cfg k evs) eqn:Hfirst; [discriminate|].
    eapply is_Some_None. rewrite <- Hfirst. apply firstRowOf_is_Some. eauto 7.
Qed.

Lemma attendedEvents_pos cfg k evs :
  (0 < attendedEvents cfg k evs)%nat ↔ ∃ f, f ∈ evs ∧ k ∈ uniqueAttendees cfg f.
Proof.
  unfold attendedEvents. split.
  - intros Hpos. destruct (filter _ evs) as [|f l] eqn:Hf; [simpl in Hpos; lia|].
    assert (Hin : f ∈ filter (fun f => k ∈ uniqueAttendees cfg f) evs)
      by (rewrite Hf; apply list_elem_of_here).
    apply list_elem_of_filter in Hin as [Hk Hin]. eauto.
  - intros (f & Hf & Hk).
    assert (Hin : f ∈ filter (fun f => k ∈ uniqueAttendees cfg f) evs)
      by (apply list_elem_of_filter; auto).
    destruct (filter _ evs); [apply elem_of_nil in Hin; contradiction | simpl; lia].
Qed.

(** X3. The summary and the ledger agree: [attendUnique] is the number of
    ledger rows with a count above zero, and no count exceeds the number of
    processed files. *)
Theorem unique_attendees_in_ledger (files : list File.t) (cfg : Cfg) :
  ∃ r, aggregate files cfg = Some r ∧
       Summary.attendUnique (Result.summary r) = length (attendedRows (Result.masterRows r)) ∧
       ∀ pk name count,
         (pk, name, count) ∈ Result.masterRows r → (count ≤ Result.processedCount r)%nat.
Proof.
  destruct (aggregate_tally cfg files) as (run & Hrun & HT & _).
  exists (finish run). split; [exact Hrun|]. split.
  - simpl. unfold JsSet.size.
    rewrite <- (length_map (fun row : MasterRow => row.1.1) (attendedRows _)).
    apply Permutation_length, NoDup_Permutation; [apply HT| |].
    + unfold attendedRows. eapply NoDup_fmap_2_strong; [|apply NoDup_filter].
      * intros [[k1 n1] c1] [[k2 n2] c2] [_ H1]%list_elem_of_filter [_ H2]%list_elem_of_filter.
        simpl. intros ->.
        apply (elem_of_masterRowsOf _ _ _ _ (tally_keys _ _ _ HT)) in H1, H2. congruence.
      * eapply NoDup_fmap_1 with (f := fun row : MasterRow => row.1.1).
        rewrite masterRowsOf_keys. apply HT.
    + intros k. rewrite (tally_uniq_elem _ _ _ HT), <- attendedEvents_pos. split.
      * intros Hpos. apply list_elem_of_fmap.
        destruct (ledgerEntry cfg k (events files)) as [[n c]|] eqn:He.
        -- exists (k, n, c). split; [reflexivity|]. apply list_elem_of_filter. split.
           ++ unfold ledgerEntry in He. destruct (firstRowOf _ _ _); [|discriminate].
              injection He as _ <-. exact Hpos.
           ++ apply (elem_of_masterRows _ _ _ _ _ _ HT). exact He.
        -- unfold ledgerEntry in He.
           destruct (firstRowOf cfg k (events files)) eqn:Hfirst; [discriminate|].
           rewrite (attendedEvents_unseen _ _ _ Hfirst) in Hpos. lia.
      * intros ([[k' n] c] & -> & [Hpos Hin]%list_elem_of_filter)%list_elem_of_fmap.
        simpl in *. apply (elem_of_masterRows _ _ _ _ _ _ HT) in Hin.
        unfold ledgerEntry in Hin. destruct (firstRowOf _ _ _); [|discriminate].
        injection Hin as _ <-. exact Hpos.
  - intros pk name count Hin. apply (elem_of_masterRows _ _ _ _ _ _ HT) in Hin.
    unfold ledgerEntry in Hin. destruct (firstRowOf _ _ _); [|discriminate].
    injection Hin as _ <-. simpl. rewrite (tally_processed _ _ _ HT).
    unfold attendedEvents. apply length_filter.
Qed.

(** X4. Every row of the ledger has a key and a name that are not empty and
    that trimming leaves as they are. *)
Theorem ledger_keys_and_names_trimmed (files : list File.t) (cfg : Cfg) :
  ∃ r, aggregate files cfg = Some r ∧
       ∀ pk name count,
         (pk, name, count) ∈ Result.masterRows r →
         pk ≠ [] ∧ name ≠ [] ∧ trim pk = pk ∧ trim name = name.
Proof.
  destruct (aggregate_tally cfg files) as (run & Hrun & HT & _).
  exists (finish run). split; [exact Hrun|].
  intros pk name count Hin. apply (elem_of_masterRows _ _ _ _ _ _ HT) in Hin.
  unfold ledgerEntry in Hin.
  destruct (firstRowOf cfg pk (events files)) as [row|] eqn:Hfirst; [|discriminate].
  injection Hin as <- _. unfold firstRowOf in Hfirst.
  apply head_filter_Some in Hfirst as [<- [Hv _]%elem_of_validRows].
  apply validRow_present in Hv as [Hk Hn]. rewrite absent_cell in Hk, Hn.
  split; [intros Hnil; rewrite Hnil in Hk; discriminate|].
  split; [intros Hnil; rewrite Hnil in Hn; discriminate|].
  rewrite !cell_cellText, !trim_idemp. auto.
Qed.

(** X5. The ledger has one row for each key that applied to some event:
    its length is the size of the union of the applicant sets, which is at
    most [grossTotal]. *)
Theorem ledger_size (files : list File.t) (cfg : Cfg) :
  ∃ r, aggregate files cfg = Some r ∧
       length (Result.masterRows r) =
       size (⋃ ((fun f => list_to_set (uniqueApplicants cfg f)) <$> events files)
             : gset jsstring) ∧
       (length (Result.masterRows r) ≤ Summary.grossTotal (Result.summary r))%nat.
Proof.
  destruct (aggregate_tally cfg files) as (run & Hrun & HT & _).
  exists (finish run). split; [exact Hrun|]. rewrite finish_masterRows.
  assert (Hlen : length (masterRowsOf (Run.master run)) = length (JsMap.keys (Run.master run))).
  { rewrite <- (masterRowsOf_keys (Run.master run)), length_map. reflexivity. }
  rewrite Hlen. split.
  - rewrite <- (size_list_to_set (C := gset jsstring)) by apply HT.
    f_equal. apply set_eq. intros k.
    rewrite elem_of_list_to_set, elem_of_union_list, (ledgerEntry_keys _ _ _ _ HT). split.
    + intros (f & Hf & Hk). exists (list_to_set (uniqueApplicants cfg f)).
      split; [apply list_elem_of_fmap; eauto | apply elem_of_list_to_set, Hk].
    + intros (X & (f & -> & Hf)%list_elem_of_fmap & Hk%elem_of_list_to_set). eauto.
  - simpl. rewrite (tally_gross _ _ _ HT). unfold JsSet.size.
    rewrite <- length_concat_map.
    apply submseteq_length, NoDup_submseteq; [apply HT|].
    intros k (f & Hf & Hk)%(ledgerEntry_keys _ _ _ _ HT).
    apply elem_of_concat. exists (uniqueApplicants cfg f). split; [|assumption].
    apply list_elem_of_fmap. eauto.
Qed.

(** *** One more file *)

Lemma forOf_app {S A} (body : S → A → option S) (l1 l2 : list A) (s : S) :
  forOf body (l1 ++ l2) s =
  match forOf body l1 s with
  | Some s' => forOf body l2 s'
  | None => None
  end.
Proof.
  revert s. induction l1 as [|x l1 IH]; intros s; simpl; [reflexivity|].
  destruct (body s x); [apply IH | reflexivity].
Qed.

Lemma forOf_same_tallies cfg (l : list File.t) (run run' : Run.t) :
  tallies run = tallies run' →
  tallies <$> forOf (fileStep cfg) l run = tallies <$> forOf (fileStep cfg) l run'.
Proof.
  intros Heq.
  rewrite (forOf_fileStep_tallies cfg l run run' Heq).
  rewrite (forOf_fileStep_tallies cfg l run' run' eq_refl). reflexivity.
Qed.

Lemma dupNames_snoc_fresh files f k :
  occurrences (File.name f) files = 0%nat →
  k ∈ dupNames (files ++ [f]) ↔ k ∈ dupNames files.
Proof.
  intros Hfresh. rewrite !dupNames_spec, occurrences_snoc.
  case_bool_decide as Hk; [|rewrite Nat.add_0_r; reflexivity].
  subst k. rewrite Hfresh. split; intros [_ ?]; lia.
Qed.

Lemma toProcess_snoc_fresh files f :
  occurrences (File.name f) files = 0%nat → toProcess (files ++ [f]) = toProcess files ++ [f].
Proof.
  intros Hfresh. unfold toProcess. rewrite filter_app. f_equal.
  - apply filter_ext_in. intros g _.
    rewrite !JsSet_has_false, (dupNames_snoc_fresh _ _ _ Hfresh). reflexivity.
  - rewrite filter_cons_True; [reflexivity|].
    apply JsSet_has_false. rewrite dupNames_snoc_fresh, dupNames_spec by assumption.
    intros [_ ?]. lia.
Qed.

Lemma events_snoc_fresh files f :
  occurrences (File.name f) files = 0%nat → decodes f = true →
  events (files ++ [f]) = events files ++ [f].
Proof.
  intros Hfresh Hdec. unfold events. rewrite toProcess_snoc_fresh, filter_app by assumption.
  rewrite (filter_cons_True _ f) by assumption. reflexivity.
Qed.

(** X6. Adding a file whose name is new and that decodes adds its event on
    top of the run: one more processed file, the totals grow by the sizes of
    its two sets, every row of the ledger keeps its name and gains one
    attendance exactly when the key attended the new event, and every
    applicant of the new event has a row. *)
Theorem one_more_file (files : list File.t) (f : File.t) (cfg : Cfg) :
  occurrences (File.name f) files = 0%nat → decodes f = true →
  ∃ r r', aggregate files cfg = Some r ∧ aggregate (files ++ [f]) cfg = Some r' ∧
          Result.processedCount r' = (Result.processedCount r + 1)%nat ∧
          Summary.grossTotal (Result.summary r') =
            (Summary.grossTotal (Result.summary r) + JsSet.size (uniqueApplicants cfg f))%nat ∧
          Summary.attendTotal (Result.summary r') =
            (Summary.attendTotal (Result.summary r) + JsSet.size (uniqueAttendees cfg f))%nat ∧
          (∀ pk name count,
             (pk, name, count) ∈ Result.masterRows r →
             (pk, name,
              (count + if bool_decide (pk ∈ uniqueAttendees cfg f) then 1 else 0)%nat)
             ∈ Result.masterRows r') ∧
          (∀ pk, pk ∈ uniqueApplicants cfg f →
                 ∃ name count, (pk, name, count) ∈ Result.masterRows r').
Proof.
  intros Hfresh Hdec.
  destruct (aggregate_tally cfg files) as (run & Hrun & HT & _).
  destruct (aggregate_tally cfg (files ++ [f])) as (run' & Hrun' & HT' & _).
  rewrite events_snoc_fresh in HT' by assumption.
  exists (finish run), (finish run'). split; [exact Hrun|]. split; [exact Hrun'|].
  simpl. split; [|split; [|split; [|split]]].
  - rewrite (tally_processed _ _ _ HT), (tally_processed _ _ _ HT'), length_app. reflexivity.
  - rewrite (tally_gross _ _ _ HT), (tally_gross _ _ _ HT'), sum_list_with_app. simpl. lia.
  - rewrite (tally_attend _ _ _ HT), (tally_attend _ _ _ HT'), sum_list_with_app. simpl. lia.
  - intros pk name count Hin.
    apply (elem_of_masterRows _ _ _ _ _ _ HT) in Hin.
    apply (elem_of_masterRows _ _ _ _ _ _ HT'). rewrite ledgerEntry_snoc, Hin. reflexivity.
  - intros pk (row & Hr & Hv & Hk)%uniqueApplicants_spec.
    destruct (ledgerEntry cfg pk (events files ++ [f])) as [[n c]|] eqn:He.
    + exists n, c. apply (elem_of_masterRows _ _ _ _ _ _ HT'). exact He.
    + exfalso. unfold ledgerEntry in He.
      destruct (firstRowOf cfg pk (events files ++ [f])) eqn:Hfirst; [discriminate|].
      eapply is_Some_None. rewrite <- Hfirst. apply firstRowOf_is_Some.
      exists f, row. split; [apply elem_of_app; right; apply list_elem_of_here | auto].
Qed.

Lemma slice_all {A} (a : list A) (start : Z) :
  Z.of_nat (length a) ≤ start → slice a start = [].
Proof.
  intros Hlen. unfold slice.
  replace (start <? 0) with false by (symmetry; apply Z.ltb_ge; lia).
  rewrite Z.min_r by assumption. rewrite Nat2Z.id. apply drop_all.
Qed.

(** X7. A file whose rows are all header rows (the header count reaches the
    number of decoded rows) is a processed file and nothing more: appended
    under a new name it raises [processedCount] by one and leaves the ledger
    and the summary as they were. *)
Theorem file_of_header_rows_only (files : list File.t) (f : File.t) (data : list Row)
    (cfg : Cfg) :
  occurrences (File.name f) files = 0%nat →
  File.decoded f = Some data → Z.of_nat (length data) ≤ headerRow cfg →
  ∃ r r', aggregate files cfg = Some r ∧ aggregate (files ++ [f]) cfg = Some r' ∧
          Result.processedCount r' = (Result.processedCount r + 1)%nat ∧
          Result.masterRows r' = Result.masterRows r ∧
          Result.summary r' = Result.summary r.
Proof.
  intros Hfresh Hdata Hlen.
  destruct (fileLoop_tally cfg files) as (run & Hrun & _).
  exists (finish run). unfold aggregate. rewrite Hrun.
  unfold fileLoop in *. rewrite toProcess_snoc_fresh, forOf_app by assumption.
  pose proof (forOf_same_tallies cfg (toProcess files)
                (initialRun (files ++ [f])) (initialRun files) eq_refl) as Hsame.
  rewrite Hrun in Hsame.
  destruct (forOf (fileStep cfg) (toProcess files) (initialRun (files ++ [f]))) as [run1|];
    [|discriminate].
  simpl in Hsame. injection Hsame as Hm Hg Ha Hu Hk Hn Hp.
  cbn [forOf]. unfold fileStep, parseCSV. rewrite Hdata, slice_all by assumption.
  eexists. split; [reflexivity|]. split; [reflexivity|].
  simpl. rewrite Hm, Hg, Ha, Hu, Hk, Hn, Hp, !Nat.add_0_r. auto.
Qed.

(** *** A name submitted again *)

Lemma occurrences_without k k' files :
  occurrences k' (filter (fun f => File.name f ≠ k) files) =
  if bool_decide (k' = k) then 0%nat else occurrences k' files.
Proof.
  unfold occurrences. rewrite list_filter_filter. case_bool_decide as Hk.
  - subst k'. rewrite filter_none; [reflexivity|]. intros f _ [? ?]. contradiction.
  - f_equal. apply filter_ext_in. intros f _. split; [tauto|]. intros Hf.
    split; [assumption | congruence].
Qed.

Lemma toProcess_resubmitted files g :
  JsObject.inherited (File.name g) = false → (1 ≤ occurrences (File.name g) files)%nat →
  toProcess (files ++ [g]) = toProcess (filter (fun f => File.name f ≠ File.name g) files).
Proof.
  intros Hinh Hocc. unfold toProcess. rewrite filter_app.
  rewrite (filter_cons_False _ g).
  2:{ rewrite JsSet_has_false. intros Hn. apply Hn, dupNames_spec.
      split; [assumption|]. rewrite occurrences_snoc, bool_decide_eq_true_2 by reflexivity.
      lia. }
  rewrite filter_nil, app_nil_r, list_filter_filter. apply filter_ext_in. intros f _.
  rewrite !JsSet_has_false, !dupNames_spec, occurrences_snoc, occurrences_without.
  destruct (decide (File.name f = File.name g)) as [Heq|Hne].
  - rewrite Heq, bool_decide_eq_true_2 by reflexivity. split.
    + intros Hn. exfalso. apply Hn. split; [assumption | lia].
    + intros [_ Hn]. contradiction.
  - rewrite (bool_decide_eq_false_2 (File.name g = File.name f)) by congruence.
    rewrite (bool_decide_eq_false_2 (File.name f = File.name g)) by assumption.
    rewrite Nat.add_0_r. tauto.
Qed.

(** X8. Submitting a second file under a name already submitted (not the
    name of a member of [Object.prototype]) takes every file of that name
    out of the run: the name is reported as duplicate, and the processed-file
    count, the ledger and the summary are those of the submission without
    the files of that name. *)
Theorem resubmitted_name_dropped (files : list File.t) (g : File.t) (cfg : Cfg) :
  JsObject.inherited (File.name g) = false → (1 ≤ occurrences (File.name g) files)%nat →
  ∃ r r', aggregate (files ++ [g]) cfg = Some r ∧
          aggregate (filter (fun f => File.name f ≠ File.name g) files) cfg = Some r' ∧
          duplicateEntry (File.name g) ∈ Result.skipped r ∧
          Result.processedCount r = Result.processedCount r' ∧
          Result.masterRows r = Result.masterRows r' ∧
          Result.summary r = Result.summary r'.
Proof.
  intros Hinh Hocc.
  destruct (fileLoop_tally cfg (files ++ [g])) as (run & Hrun & _ & Hsk).
  destruct (fileLoop_tally cfg (filter (fun f => File.name f ≠ File.name g) files))
    as (run' & Hrun' & _).
  exists (finish run), (finish run'). unfold aggregate. rewrite Hrun, Hrun'.
  split; [reflexivity|]. split; [reflexivity|]. split.
  - simpl. rewrite Hsk. apply elem_of_app. left. apply skippedDuplicates_spec.
    split; [assumption|]. rewrite occurrences_snoc, bool_decide_eq_true_2 by reflexivity. lia.
  - apply finish_tallies. unfold fileLoop in Hrun, Hrun'.
    rewrite toProcess_resubmitted in Hrun by assumption.
    assert (Hinit : tallies (initialRun (files ++ [g])) =
                    tallies (initialRun (filter (fun f => File.name f ≠ File.name g) files)))
      by reflexivity.
    pose proof (forOf_same_tallies cfg
                  (toProcess (filter (fun f => File.name f ≠ File.name g) files))
                  _ _ Hinit) as Hsame.
    rewrite Hrun, Hrun' in Hsame. simpl in Hsame. congruence.
Qed.

End Run.

(** * The serializers *)

Section Esc.

Lemma replaceChar_app c by_ (s t : jsstring) :
  replaceChar c by_ (s ++ t) = replaceChar c by_ s ++ replaceChar c by_ t.
Proof. apply flat_map_app. Qed.

Lemma replaceChar_one c by_ (x : N) :
  replaceChar c by_ [x] = if (x =? c)%N then by_ else [x].
Proof. unfold replaceChar. simpl. apply app_nil_r. Qed.

Lemma esc_one (x : N) : esc [x] = escChar x.
Proof.
  unfold esc, escChar. rewrite replaceChar_one.
  destruct (N.eqb_spec x ampersand) as [->|Ha]; [reflexivity|].
  rewrite replaceChar_one.
  destruct (N.eqb_spec x lessThan) as [->|Hl]; [reflexivity|].
  rewrite replaceChar_one.
  destruct (N.eqb_spec x greaterThan) as [->|Hg]; [reflexivity|].
  rewrite replaceChar_one.
  destruct (N.eqb_spec x quote) as [->|Hq]; reflexivity.
Qed.

Lemma esc_app (s t : jsstring) : esc (s ++ t) = esc s ++ esc t.
Proof. unfold esc. rewrite !replaceChar_app. reflexivity. Qed.

(** The four replacements in a row amount to one pass over the text. *)
Lemma esc_flat_map (s : jsstring) : esc s = flat_map escChar s.
Proof.
  induction s as [|x s IH]; [reflexivity|].
  change (x :: s) with ([x] ++ s). rewrite esc_app, esc_one, IH. reflexivity.
Qed.

Lemma escChar_safe (x : N) :
  Forall (fun c => c ≠ lessThan ∧ c ≠ greaterThan ∧ c ≠ quote) (escChar x).
Proof.
  unfold escChar.
  destruct (N.eqb_spec x ampersand) as [->|Ha];
    [repeat constructor; discriminate|].
  destruct (N.eqb_spec x lessThan) as [->|Hl];
    [repeat constructor; discriminate|].
  destruct (N.eqb_spec x greaterThan) as [->|Hg];
    [repeat constructor; discriminate|].
  destruct (N.eqb_spec x quote) as [->|Hq];
    [repeat constructor; discriminate|].
  repeat constructor; assumption.
Qed.

(** X9. The text [esc] returns holds no [<], no [>] and no double quote,
    whatever the input: a file name cannot open or close a tag or an
    attribute of the page. *)
Theorem esc_no_markup (s : jsstring) :
  Forall (fun c => c ≠ lessThan ∧ c ≠ greaterThan ∧ c ≠ quote) (esc s).
Proof.
  rewrite esc_flat_map. induction s as [|x s IH]; simpl; [constructor|].
  apply Forall_app. split; [apply escChar_safe | exact IH].
Qed.

Lemma escChar_head (x y : N) (a b : jsstring) :
  escChar x ++ a = escChar y ++ b → x = y.
Proof.
  unfold escChar.
  destruct (N.eqb_spec x ampersand) as [->|Hxa];
  [|destruct (N.eqb_spec x lessThan) as [->|Hxl];
    [|destruct (N.eqb_spec x greaterThan) as [->|Hxg];
      [|destruct (N.eqb_spec x quote) as [->|Hxq]]]];
  (destruct (N.eqb_spec y ampersand) as [->|Hya];
   [|destruct (N.eqb_spec y lessThan) as [->|Hyl];
     [|destruct (N.eqb_spec y greaterThan) as [->|Hyg];
       [|destruct (N.eqb_spec y quote) as [->|Hyq]]]]);
  simpl; intros Heq; try reflexivity; try discriminate Heq;
  injection Heq; intros; subst; try reflexivity; exfalso; auto.
Qed.

(** X10. [esc] loses nothing: two texts with the same escaped form are the
    same text. *)
Theorem esc_injective (s t : jsstring) : esc s = esc t → s = t.
Proof.
  rewrite !esc_flat_map. revert t. induction s as [|x s IH]; intros [|y t]; simpl.
  - reflexivity.
  - intros Heq. exfalso. unfold escChar in Heq.
    destruct (y =? ampersand)%N; [discriminate|].
    destruct (y =? lessThan)%N; [discriminate|].
    destruct (y =? greaterThan)%N; [discriminate|].
    destruct (y =? quote)%N; discriminate.
  - intros Heq. exfalso. unfold escChar in Heq.
    destruct (x =? ampersand)%N; [discriminate|].
    destruct (x =? lessThan)%N; [discriminate|].
    destruct (x =? greaterThan)%N; [discriminate|].
    destruct (x =? quote)%N; discriminate.
  - intros Heq. pose proof (escChar_head _ _ _ _ Heq) as ->.
    apply app_inv_head in Heq. f_equal. apply IH, Heq.
Qed.

End Esc.

Section Csv.

Implicit Types (s t : jsstring) (fs : list jsstring).

Lemma afterLine_afterField t : afterLine t → afterField t.
Proof. intros [->|[t' ->]]; [left | right; exists t'; right]; reflexivity. Qed.

Lemma needsQuoting_cons c s :
  needsQuoting (c :: s) = false ↔
  (c ≠ comma ∧ c ≠ quote ∧ c ≠ lineFeed ∧ c ≠ carriageReturn) ∧ needsQuoting s = false.
Proof.
  unfold needsQuoting. simpl. rewrite orb_false_iff, bool_decide_eq_false.
  rewrite !not_elem_of_cons. split.
  - intros [(? & ? & ? & ? & _) ?]. auto.
  - intros [(? & ? & ? & ?) ?]. split; [|assumption].
    repeat split; try assumption. apply not_elem_of_nil.
Qed.

Lemma readPlain_ok s t :
  needsQuoting s = false → afterField t → readPlain (s ++ t) = (s, t).
Proof.
  intros Hs Ht. induction s as [|c s IH]; simpl.
  - destruct Ht as [->|[t' [->| ->]]]; reflexivity.
  - apply needsQuoting_cons in Hs as [(Hc & _ & Hl & _) Hs].
    rewrite (proj2 (N.eqb_neq c comma)), (proj2 (N.eqb_neq c lineFeed)) by assumption.
    simpl. rewrite (IH Hs). reflexivity.
Qed.

Lemma readQuoted_ok s t :
  afterField t → readQuoted (replaceChar quote [quote; quote] s ++ quote :: t) = (s, t).
Proof.
  intros Ht. induction s as [|c s IH].
  - simpl. destruct Ht as [->|[t' [->| ->]]]; reflexivity.
  - unfold replaceChar in *. cbn [flat_map].
    destruct (N.eqb_spec c quote) as [->|Hc].
    + cbn [app readQuoted]. rewrite N.eqb_refl, IH. reflexivity.
    + cbn [app readQuoted]. rewrite (proj2 (N.eqb_neq c quote)) by assumption.
      rewrite IH. reflexivity.
Qed.

Lemma readField_ok s t : afterField t → readField (escText s ++ t) = (s, t).
Proof.
  intros Ht. unfold escText. destruct (needsQuoting s) eqn:Hs.
  - cbn [app readField]. rewrite N.eqb_refl, <- app_assoc. apply readQuoted_ok, Ht.
  - destruct s as [|c s].
    + destruct Ht as [->|[t' [->| ->]]]; reflexivity.
    + pose proof Hs as [(_ & Hq & _) _]%needsQuoting_cons.
      cbn [app readField]. rewrite (proj2 (N.eqb_neq c quote)) by assumption.
      apply (readPlain_ok (c :: s) t Hs Ht).
Qed.

(** A field can be told from what follows it. *)
Lemma escText_split s s' t t' :
  afterField t → afterField t' → escText s ++ t = escText s' ++ t' → s = s' ∧ t = t'.
Proof.
  intros Ht Ht' Heq. apply (f_equal readField) in Heq.
  rewrite !readField_ok in Heq by assumption. injection Heq. auto.
Qed.

Lemma join_cons2 sep (p q : jsstring) (ps : list jsstring) :
  join sep (p :: q :: ps) = p ++ sep ++ join sep (q :: ps).
Proof. simpl. rewrite <- app_assoc. reflexivity. Qed.

Lemma line_split fs fs' t t' :
  fs ≠ [] → fs' ≠ [] → afterLine t → afterLine t' →
  join [comma] (map escText fs) ++ t = join [comma] (map escText fs') ++ t' →
  fs = fs' ∧ t = t'.
Proof.
  revert fs'. induction fs as [|f fs IH]; intros fs' Hne Hne' Ht Ht'; [contradiction|].
  destruct fs' as [|f' fs']; [contradiction|].
  destruct fs as [|g fs], fs' as [|g' fs'].
  - simpl. rewrite !app_nil_r. intros Heq.
    apply escText_split in Heq as [-> ->]; auto using afterLine_afterField.
  - cbn [map]. rewrite join_cons2. simpl join at 1. rewrite app_nil_r, <- !app_assoc.
    intros Heq. apply escText_split in Heq as [_ Heq].
    + exfalso. destruct Ht as [->|[t0 ->]]; discriminate Heq.
    + apply afterLine_afterField, Ht.
    + right. eexists. left. reflexivity.
  - cbn [map]. rewrite join_cons2. simpl join at 2. rewrite app_nil_r, <- !app_assoc.
    intros Heq. apply escText_split in Heq as [_ Heq].
    + exfalso. destruct Ht' as [->|[t0 ->]]; discriminate Heq.
    + right. eexists. left. reflexivity.
    + apply afterLine_afterField, Ht'.
  - cbn [map]. rewrite !join_cons2, <- !app_assoc. intros Heq.
    apply escText_split in Heq as [-> Heq]; [| right; eexists; left; reflexivity ..].
    injection Heq as Heq.
    destruct (IH (g' :: fs')) as [Hfs ->]; [discriminate|discriminate|assumption..|].
    rewrite Hfs. auto.
Qed.

Lemma table_split (rows rows' : list (list jsstring)) :
  rows ≠ [] → rows' ≠ [] → Forall (fun r => r ≠ []) rows → Forall (fun r => r ≠ []) rows' →
  join [lineFeed] (map (fun r => join [comma] (map escText r)) rows) =
  join [lineFeed] (map (fun r => join [comma] (map escText r)) rows') →
  rows = rows'.
Proof.
  revert rows'. induction rows as [|r rows IH]; intros rows' Hne Hne' Hall Hall' Heq;
    [contradiction|].
  destruct rows' as [|r' rows']; [contradiction|].
  apply Forall_cons in Hall as [Hr Hall]. apply Forall_cons in Hall' as [Hr' Hall'].
  destruct rows as [|q rows], rows' as [|q' rows'].
  - simpl in Heq. apply line_split in Heq as [-> _]; auto; left; reflexivity.
  - exfalso. cbn [map] in Heq. rewrite join_cons2 in Heq. simpl join at 1 in Heq.
    apply line_split in Heq as [_ Heq]; auto; [discriminate Heq|left; reflexivity|].
    right. eexists. reflexivity.
  - exfalso. cbn [map] in Heq. rewrite join_cons2 in Heq. simpl join at 2 in Heq.
    apply line_split in Heq as [_ Heq]; auto; [discriminate Heq| |left; reflexivity].
    right. eexists. reflexivity.
  - cbn [map] in Heq. rewrite !join_cons2 in Heq.
    apply line_split in Heq as [-> Heq]; auto; [|right; eexists; reflexivity..].
    injection Heq as Heq. f_equal. apply IH; auto; discriminate.
Qed.

Lemma buildCSV_texts (headers headers' : list CsvValue)
    (rows rows' : list (list CsvValue)) :
  Forall (fun r => r ≠ []) (headers :: rows) → Forall (fun r => r ≠ []) (headers' :: rows') →
  buildCSV headers rows = buildCSV headers' rows' →
  map (map valueText) (headers :: rows) = map (map valueText) (headers' :: rows').
Proof.
  intros Hall Hall' Heq. unfold buildCSV in Heq.
  assert (Hmap : ∀ l : list (list CsvValue),
            map (fun row => join [comma] (map escField row)) l =
            map (fun r => join [comma] (map escText r)) (map (map valueText) l)).
  { intros l. rewrite map_map. apply map_ext. intros row.
    unfold escField. rewrite map_map. reflexivity. }
  rewrite !Hmap in Heq. apply table_split in Heq; [exact Heq|discriminate|discriminate| |].
  - apply Forall_forall. intros r (r0 & -> & Hr0)%list_elem_of_fmap.
    rewrite Forall_forall in Hall. specialize (Hall r0 Hr0).
    destruct r0; [contradiction|discriminate].
  - apply Forall_forall. intros r (r0 & -> & Hr0)%list_elem_of_fmap.
    rewrite Forall_forall in Hall'. specialize (Hall' r0 Hr0).
    destruct r0; [contradiction|discriminate].
Qed.

(** X11. A table serialized by [buildCSV] can be read back: when every line
    has at least one field, two tables with the same text have the same
    fields, as texts. Commas, quotes and line breaks inside a field do not
    blur the fields. *)
Theorem buildCSV_lossless (headers headers' : list CsvValue)
    (rows rows' : list (list CsvValue)) :
  Forall (fun r => r ≠ []) (headers :: rows) → Forall (fun r => r ≠ []) (headers' :: rows') →
  buildCSV headers rows = buildCSV headers' rows' →
  map (map valueText) (headers :: rows) = map (map valueText) (headers' :: rows').
Proof. apply buildCSV_texts. Qed.

(** *** Numbers as text *)

Lemma digitsNumber_snoc (ds : jsstring) (d : N) :
  digitsNumber (ds ++ [d]) = (10 * digitsNumber ds + (d - 48))%N.
Proof. unfold digitsNumber. rewrite fold_left_app. reflexivity. Qed.

Lemma digitsFuel_step (f : nat) (n : N) (acc : jsstring) :
  digitsFuel (S f) n acc =
  if (n <? 10)%N then (48 + n mod 10)%N :: acc
  else digitsFuel f (n / 10)%N ((48 + n mod 10)%N :: acc).
Proof. reflexivity. Qed.

Lemma digitsFuel_spec (f : nat) (n : N) (acc : jsstring) :
  (n < 10 ^ N.of_nat (S f))%N →
  ∃ ds, digitsFuel (S f) n acc = ds ++ acc ∧ ds ≠ [] ∧ Forall isDigit ds ∧
        digitsNumber ds = n.
Proof.
  revert n acc. induction f as [|f IH]; intros n acc Hn; rewrite digitsFuel_step.
  - change (10 ^ N.of_nat 1)%N with 10%N in Hn.
    exists [(48 + n mod 10)%N].
    destruct (N.ltb_spec n 10) as [_|]; [|lia].
    rewrite N.mod_small by assumption.
    split; [reflexivity|]. split; [discriminate|]. split.
    + constructor; [unfold isDigit; lia | constructor].
    + unfold digitsNumber. simpl. lia.
  - destruct (N.ltb_spec n 10) as [Hlt|Hge].
    + exists [(48 + n mod 10)%N]. rewrite N.mod_small by assumption.
      split; [reflexivity|]. split; [discriminate|]. split.
      * constructor; [unfold isDigit; lia | constructor].
      * unfold digitsNumber. simpl. lia.
    + destruct (IH (n / 10)%N ((48 + n mod 10)%N :: acc)) as (ds & Hds & _ & Hdig & Hnum).
      { apply N.Div0.div_lt_upper_bound.
        rewrite Nat2N.inj_succ, N.pow_succ_r' in Hn. exact Hn. }
      exists (ds ++ [(48 + n mod 10)%N]).
      rewrite Hds, <- app_assoc. split; [reflexivity|].
      split; [destruct ds; discriminate|]. split.
      * apply Forall_app. split; [assumption|].
        pose proof (N.mod_upper_bound n 10 ltac:(lia)) as Hr.
        constructor; [|constructor]. unfold isDigit.
        revert Hr. generalize (n mod 10)%N. intros r Hr. lia.
      * rewrite digitsNumber_snoc, Hnum.
        pose proof (N.div_mod n 10 ltac:(lia)) as Hdm. revert Hdm.
        generalize (n mod 10)%N (n / 10)%N. intros r q Hdm. lia.
Qed.

Lemma ofN_spec (n : N) :
  ofN n ≠ [] ∧ Forall isDigit (ofN n) ∧ digitsNumber (ofN n) = n.
Proof.
  unfold ofN.
  destruct (digitsFuel_spec (N.to_nat (N.log2 n)) n []) as (ds & Hds & Hne & Hdig & Hnum).
  - rewrite Nat2N.inj_succ, N2Nat.id.
    destruct (N.eq_dec n 0%N) as [->|Hpos]; [reflexivity|].
    apply N.lt_le_trans with (2 ^ N.succ (N.log2 n))%N.
    + apply N.log2_spec. lia.
    + apply N.pow_le_mono_l. lia.
  - rewrite Hds, app_nil_r. auto.
Qed.

Lemma ofN_inj (a b : N) : ofN a = ofN b → a = b.
Proof.
  intros Heq. rewrite <- (proj2 (proj2 (ofN_spec a))), <- (proj2 (proj2 (ofN_spec b))), Heq.
  reflexivity.
Qed.

Lemma masterCells_inj (row row' : MasterRow) :
  map valueText (masterCells row) = map valueText (masterCells row') → row = row'.
Proof.
  destruct row as [[pk name] count], row' as [[pk' name'] count']. unfold masterCells. simpl.
  unfold numberText.
  replace (Z.of_nat count <? 0) with false by (symmetry; apply Z.ltb_ge; lia).
  replace (Z.of_nat count' <? 0) with false by (symmetry; apply Z.ltb_ge; lia).
  intros [= -> -> Hc%ofN_inj]. f_equal. lia.
Qed.

(** X12. The ledger survives [buildMasterCSV]: two ledgers with the same
    file text have the same rows, keys, names and counts. *)
Theorem buildMasterCSV_lossless (rows rows' : list MasterRow) :
  buildMasterCSV rows = buildMasterCSV rows' → rows = rows'.
Proof.
  unfold buildMasterCSV. intros Heq. apply buildCSV_texts in Heq.
  - injection Heq as Heq. clear -Heq. revert rows' Heq.
    induction rows as [|row rows IH]; intros [|row' rows']; simpl; try discriminate;
      [reflexivity|].
    intros Heq. injection Heq as H1 H2 H3 Hrest.
    f_equal; [|apply IH, Hrest].
    apply masterCells_inj. unfold masterCells. simpl. congruence.
  - constructor; [discriminate|]. apply Forall_forall.
    intros r (row & -> & _)%list_elem_of_fmap. discriminate.
  - constructor; [discriminate|]. apply Forall_forall.
    intros r (row & -> & _)%list_elem_of_fmap. discriminate.
Qed.

End Csv.

(** * The form and the page *)

Section Columns.

Context `{JsUpperHost}.

Lemma isColumnLetter_digit (c : N) : isColumnLetter c = true → 1 ≤ Z.of_N c - 64 ≤ 26.
Proof. unfold isColumnLetter. rewrite andb_true_iff, !N.leb_le. lia. Qed.

Lemma lettersValue_snoc (l : jsstring) (c : N) :
  lettersValue (l ++ [c]) = lettersValue l * 26 + (Z.of_N c - 64).
Proof. unfold lettersValue. rewrite fold_left_app. reflexivity. Qed.

Lemma lettersValue_bounds (l : jsstring) :
  Forall (fun c => isColumnLetter c = true) l →
  0 ≤ lettersValue l ≤ 27 ^ Z.of_nat (length l) - 1 ∧ (l ≠ [] → 1 ≤ lettersValue l).
Proof.
  induction l as [|c l IH] using rev_ind; intros Hall.
  - simpl. split; [unfold lettersValue; simpl; lia | congruence].
  - apply Forall_app in Hall as [Hl Hc]. apply Forall_cons in Hc as [Hc _].
    apply isColumnLetter_digit in Hc. destruct (IH Hl) as [[Hlo Hhi] _].
    rewrite lettersValue_snoc, length_app. simpl length.
    rewrite Nat2Z.inj_add, Z.pow_add_r by lia. change (27 ^ Z.of_nat 1) with 27.
    assert (0 < 27 ^ Z.of_nat (length l)) by (apply Z.pow_pos_nonneg; lia).
    split; [split|]; lia.
Qed.

Lemma lettersValue_inj (l l' : jsstring) :
  Forall (fun c => isColumnLetter c = true) l →
  Forall (fun c => isColumnLetter c = true) l' →
  lettersValue l = lettersValue l' → l = l'.
Proof.
  revert l'. induction l as [|c l IH] using rev_ind; intros l' Hl Hl' Heq.
  - destruct l' as [|c' l']; [reflexivity|]. exfalso.
    destruct (lettersValue_bounds (c' :: l') Hl') as [_ Hpos].
    specialize (Hpos ltac:(discriminate)). unfold lettersValue in Heq at 1. simpl in Heq. lia.
  - destruct l' as [|c' l' _] using rev_ind.
    + exfalso. destruct (lettersValue_bounds (l ++ [c]) Hl) as [_ Hpos].
      specialize (Hpos ltac:(destruct l; discriminate)).
      unfold lettersValue in Heq at 2. simpl in Heq. lia.
    + apply Forall_app in Hl as [Hl Hc]. apply Forall_cons in Hc as [Hc _].
      apply Forall_app in Hl' as [Hl' Hc']. apply Forall_cons in Hc' as [Hc' _].
      rewrite !lettersValue_snoc in Heq.
      apply isColumnLetter_digit in Hc, Hc'.
      assert (Hv : lettersValue l = lettersValue l') by lia.
      assert (Hd : c = c') by lia.
      rewrite (IH l' Hl Hl' Hv), Hd. reflexivity.
Qed.

Lemma columnLetters_letters (col : jsstring) :
  Forall (fun c => isColumnLetter c = true) (columnLetters col).
Proof.
  unfold columnLetters. apply Forall_forall. intros c [Hc _]%list_elem_of_filter. exact Hc.
Qed.

Lemma colLetterToIndex_negative (col : jsstring) :
  colLetterToIndex col < 0 ↔ columnLetters col = [].
Proof.
  unfold colLetterToIndex. destruct (columnLetters col) as [|c l] eqn:Hl; simpl.
  - split; [reflexivity | lia].
  - pose proof (columnLetters_letters col) as Hall. rewrite Hl in Hall.
    destruct (lettersValue_bounds (c :: l) Hall) as [_ Hpos].
    specialize (Hpos ltac:(discriminate)). split; [lia | discriminate].
Qed.

(** X13. [colLetterToIndex] returns [-1] exactly for a label without any
    letter (once uppercased), and an index from 0 otherwise; for at most
    eleven letters the index stays below 2^53, where the arithmetic of the
    source is exact. *)
Theorem colLetterToIndex_range (col : jsstring) :
  -1 ≤ colLetterToIndex col ∧
  (colLetterToIndex col = -1 ↔ columnLetters col = []) ∧
  ((length (columnLetters col) ≤ 11)%nat → colLetterToIndex col < 2 ^ 53).
Proof.
  pose proof (colLetterToIndex_negative col) as Hneg.
  pose proof (columnLetters_letters col) as Hall.
  unfold colLetterToIndex in *. destruct (columnLetters col) as [|c l] eqn:Hl.
  - simpl. split; [lia|]. split; [tauto | intros _; reflexivity].
  - cbn [isEmpty] in *.
    destruct (lettersValue_bounds (c :: l) Hall) as [[_ Hhi] Hpos].
    specialize (Hpos ltac:(discriminate)).
    split; [lia|]. split; [split; [lia | discriminate]|].
    intros Hlen.
    assert (27 ^ Z.of_nat (length (c :: l)) ≤ 27 ^ 11) by (apply Z.pow_le_mono_r; lia).
    assert (27 ^ 11 < 2 ^ 53) by reflexivity. lia.
Qed.

(** X14. Labels of at most eleven letters get different indices unless
    they have the same letters: the index determines the column. *)
Theorem colLetterToIndex_injective (a b : jsstring) :
  (length (columnLetters a) ≤ 11)%nat → (length (columnLetters b) ≤ 11)%nat →
  colLetterToIndex a = colLetterToIndex b → columnLetters a = columnLetters b.
Proof.
  intros _ _ Heq.
  pose proof (colLetterToIndex_negative a) as Ha.
  pose proof (colLetterToIndex_negative b) as Hb.
  pose proof (columnLetters_letters a) as Hla.
  pose proof (columnLetters_letters b) as Hlb.
  unfold colLetterToIndex in *.
  destruct (columnLetters a) as [|x la] eqn:Ea, (columnLetters b) as [|y lb] eqn:Eb;
    cbn [isEmpty] in *.
  - reflexivity.
  - exfalso. assert (lettersValue (y :: lb) - 1 < 0) by lia.
    assert (y :: lb = []) by tauto. discriminate.
  - exfalso. assert (lettersValue (x :: la) - 1 < 0) by lia.
    assert (x :: la = []) by tauto. discriminate.
  - apply lettersValue_inj; [assumption..|lia].
Qed.

End Columns.

Section PageFacts.

Context `{JsHost} `{JsNumberHost} `{JsUpperHost}.

Lemma headerRowOf_positive (value : jsstring) : 1 ≤ headerRowOf value.
Proof. unfold headerRowOf. lia. Qed.

(** X15. A click on the run button starts [aggregate] only with a sound
    configuration: when a column label has no letter it alerts and runs
    nothing; otherwise the three indices are at least 0, the header count
    is at least 1 whatever was typed, the condition is trimmed, the header
    rows of every file are dropped and no more, and the run returns a
    result. *)
Theorem run_click_configuration (form : Form.t) (uploadedFiles : list File.t) :
  match onRunClick form uploadedFiles with
  | InvalidColumns =>
      columnLetters (Form.pkCol form) = [] ∨ columnLetters (Form.nameCol form) = [] ∨
      columnLetters (Form.statusCol form) = []
  | Started cfg result =>
      columnLetters (Form.pkCol form) ≠ [] ∧ columnLetters (Form.nameCol form) ≠ [] ∧
      columnLetters (Form.statusCol form) ≠ [] ∧
      0 ≤ pkIdx cfg ∧ 0 ≤ nameIdx cfg ∧ 0 ≤ statusIdx cfg ∧ 1 ≤ headerRow cfg ∧
      trim (condition cfg) = condition cfg ∧
      (∀ f data, File.decoded f = Some data →
                 dataRows cfg f = drop (Z.to_nat (headerRow cfg)) data) ∧
      ∃ r, result = Some r
  end.
Proof.
  unfold onRunClick.
  pose proof (colLetterToIndex_negative (Form.pkCol form)) as Hpk.
  pose proof (colLetterToIndex_negative (Form.nameCol form)) as Hname.
  pose proof (colLetterToIndex_negative (Form.statusCol form)) as Hstatus.
  destruct (Z.ltb_spec (colLetterToIndex (Form.pkCol form)) 0) as [Hp|Hp];
    [simpl; tauto|].
  destruct (Z.ltb_spec (colLetterToIndex (Form.nameCol form)) 0) as [Hn|Hn];
    [simpl; tauto|].
  destruct (Z.ltb_spec (colLetterToIndex (Form.statusCol form)) 0) as [Hs|Hs];
    [simpl; tauto|].
  cbn [orb pkIdx nameIdx statusIdx headerRow condition runConfig].
  pose proof (headerRowOf_positive (Form.headerRow form)) as Hh.
  split; [intros E; apply Hpk in E; lia|].
  split; [intros E; apply Hname in E; lia|].
  split; [intros E; apply Hstatus in E; lia|].
  split; [assumption|]. split; [assumption|]. split; [assumption|]. split; [assumption|].
  split; [apply trim_idemp|]. split.
  - intros f data Hdata. unfold dataRows, parseCSV. rewrite Hdata.
    cbn [headerRow runConfig]. apply slice_drop. lia.
  - destruct (aggregate_tally
                (runConfig (colLetterToIndex (Form.pkCol form))
                   (colLetterToIndex (Form.nameCol form))
                   (colLetterToIndex (Form.statusCol form))
                   (Form.condition form) (headerRowOf (Form.headerRow form)))
                uploadedFiles) as (run & Hrun & _).
    eauto.
Qed.

End PageFacts.

Section FileList.

Lemma cnt_nameCnt (files : list File.t) : cnt files = nameCnt files.
Proof. reflexivity. Qed.

Lemma dup_dupNames (files : list File.t) (f : File.t) :
  dup files f = JsSet.has (File.name f) (dupNames files).
Proof.
  unfold dup. rewrite cnt_nameCnt. destruct (nameCnt_spec files) as [_ Hget].
  rewrite Hget. apply eq_true_iff_eq. rewrite JsSet_has_true, dupNames_spec.
  unfold nameCntOf. case_bool_decide as Hacc.
  - rewrite Hacc, inherited_protoAccessor. split; [discriminate | intros [? _]; discriminate].
  - case_bool_decide as Hz.
    + split; [discriminate | intros [_ ?]; lia].
    + destruct (JsObject.inherited (File.name f)); simpl.
      * split; [discriminate | intros [? _]; discriminate].
      * rewrite bool_decide_eq_true. split; [intros; split; [reflexivity | lia] | intros [_ ?]; lia].
Qed.

(** X16. The list of chosen files and the run agree on duplicates: a file
    gets the duplicate badge of [renderFileList] exactly when [aggregate]
    leaves it out as a duplicate. *)
Theorem badge_matches_filter (files : list File.t) (f : File.t) :
  f ∈ files → (dup files f = false ↔ f ∈ toProcess files).
Proof.
  intros Hin. rewrite dup_dupNames. unfold toProcess. rewrite list_elem_of_filter. tauto.
Qed.

End FileList.

Section Warning.

Context `{JsHost} `{JsNumberHost}.

Lemma occurrences_elem k (files : list File.t) :
  (1 ≤ occurrences k files)%nat → ∃ f, f ∈ files ∧ File.name f = k.
Proof.
  unfold occurrences. intros Hocc.
  destruct (filter (fun f => File.name f = k) files) as [|f l] eqn:Hf; [simpl in Hocc; lia|].
  assert (Hin : f ∈ filter (fun f => File.name f = k) files) by (rewrite Hf; left).
  apply list_elem_of_filter in Hin as [Hn Hin]. eauto.
Qed.

Lemma duplicates_of_skipped (files : list File.t) (run : Run.t) :
  Run.skipped run = skippedDuplicates files ++ parseErrors (toProcess files) →
  filter (fun s => Skipped.reason s = duplicate_filename) (Run.skipped run) =
  skippedDuplicates files.
Proof.
  intros ->. rewrite filter_app.
  rewrite (filter_none _ (parseErrors _)), app_nil_r.
  - apply filter_all, Forall_forall. intros s (n & -> & _)%list_elem_of_fmap. reflexivity.
  - intros s (f & -> & _)%list_elem_of_fmap. discriminate.
Qed.

(** X17. After a run the warning of [renderResults] lists the duplicated
    names and nothing else: a file that failed to decode is in [skipped]
    but never shown. The warning is hidden exactly when no file of the list
    carries the duplicate badge. *)
Theorem warning_lists_duplicates (files : list File.t) (cfg : Cfg) :
  ∃ r, aggregate files cfg = Some r ∧
       skippedWarning (Result.skipped r) =
         match dupNames files with
         | [] => None
         | names =>
             Some (join [] (map (fun n => lit "<li>" ++ esc n ++ lit "</li>") names))
         end ∧
       (skippedWarning (Result.skipped r) = None ↔ ∀ f, f ∈ files → dup files f = false).
Proof.
  destruct (aggregate_tally cfg files) as (run & Hrun & _ & Hsk).
  exists (finish run). split; [exact Hrun|].
  assert (Hw : skippedWarning (Result.skipped (finish run)) =
               match dupNames files with
               | [] => None
               | names =>
                   Some (join [] (map (fun n => lit "<li>" ++ esc n ++ lit "</li>") names))
               end).
  { unfold skippedWarning. cbn [Result.skipped finish].
    rewrite (duplicates_of_skipped files run Hsk). unfold skippedDuplicates.
    rewrite length_map, map_map. cbn [Skipped.name].
    destruct (dupNames files) as [|n names]; [reflexivity|].
    rewrite bool_decide_eq_true_2 by (simpl; lia). reflexivity. }
  split; [exact Hw|]. rewrite Hw. split.
  - intros Hnone f _. rewrite dup_dupNames. apply JsSet_has_false.
    destruct (dupNames files); [apply not_elem_of_nil | discriminate].
  - intros Hall. destruct (dupNames files) as [|n names] eqn:Hd; [reflexivity|]. exfalso.
    assert (Hn : n ∈ dupNames files) by (rewrite Hd; left).
    pose proof Hn as Hn'. apply dupNames_spec in Hn' as [_ Hocc].
    destruct (occurrences_elem n files ltac:(lia)) as (f & Hf & Hname).
    specialize (Hall f Hf). rewrite dup_dupNames in Hall.
    apply JsSet_has_false in Hall. rewrite Hname in Hall. contradiction.
Qed.

Lemma count_named (names : list jsstring) (files : list File.t) :
  NoDup names →
  length (filter (fun f => File.name f ∈ names) files) =
  sum_list_with (fun k => occurrences k files) names.
Proof.
  induction 1 as [|k names Hk Hnd IH].
  - simpl. rewrite filter_none; [reflexivity|]. intros f _. apply not_elem_of_nil.
  - cbn [sum_list_with]. rewrite <- IH. unfold occurrences. clear IH.
    induction files as [|f files IHf]; [reflexivity|].
    destruct (decide (File.name f = k)) as [Hf|Hf].
    + rewrite (filter_cons_True (fun f => File.name f ∈ k :: names))
        by (rewrite Hf; left).
      rewrite (filter_cons_True (fun f => File.name f = k)) by assumption.
      rewrite (filter_cons_False (fun f => File.name f ∈ names)) by (rewrite Hf; exact Hk).
      simpl. rewrite IHf. reflexivity.
    + rewrite (filter_cons_False (fun f => File.name f = k)) by assumption.
      destruct (decide (File.name f ∈ names)) as [Hin|Hin].
      * rewrite (filter_cons_True (fun f => File.name f ∈ k :: names)) by (right; exact Hin).
        rewrite (filter_cons_True (fun f => File.name f ∈ names)) by assumption.
        simpl. rewrite IHf. lia.
      * rewrite (filter_cons_False (fun f => File.name f ∈ k :: names)).
        2:{ intros [E|E]%elem_of_cons; [congruence | contradiction]. }
        rewrite (filter_cons_False (fun f => File.name f ∈ names)) by assumption.
        exact IHf.
Qed.

Lemma sum_occurrences_le (names : list jsstring) (files : list File.t) :
  Forall (fun k => (1 ≤ occurrences k files)%nat) names →
  sum_list_with (fun k => occurrences k files) names =
  (length names + sum_list_with (fun k => occurrences k files - 1)%nat names)%nat.
Proof.
  induction 1 as [|k names Hk _ IH]; [reflexivity|].
  cbn [sum_list_with length]. rewrite IH. lia.
Qed.

(** X18. The files that a run does not process are the entries of
    [skipped] plus, for every duplicated name, the copies beyond the
    first: [skipped] names a duplicated name once, however many files
    carry it. *)
Theorem skipped_counts_names_once (files : list File.t) (cfg : Cfg) :
  ∃ r, aggregate files cfg = Some r ∧
       length files =
         (Result.processedCount r + length (Result.skipped r) +
          sum_list_with (fun k => occurrences k files - 1)%nat (dupNames files))%nat.
Proof.
  destruct (aggregate_tally cfg files) as (run & Hrun & HT & Hsk).
  exists (finish run). split; [exact Hrun|].
  cbn [Result.processedCount Result.skipped finish].
  rewrite Hsk, (tally_processed _ _ _ HT), length_app.
  unfold skippedDuplicates, parseErrors. rewrite !length_map.
  rewrite (length_filter_split (fun f => JsSet.has (File.name f) (dupNames files) = false) files).
  fold (toProcess files).
  rewrite (length_filter_split (fun f => decodes f = true) (toProcess files)).
  fold (events files).
  rewrite (length_filter_ext (fun f => ¬ decodes f = true) (fun f => decodes f = false))
    by (intros f _; destruct (decodes f); intuition congruence).
  rewrite (length_filter_ext
             (fun f => ¬ JsSet.has (File.name f) (dupNames files) = false)
             (fun f => File.name f ∈ dupNames files)).
  2:{ intros f _. rewrite <- JsSet_has_true.
      destruct (JsSet.has (File.name f) (dupNames files)); intuition congruence. }
  rewrite (count_named _ _ (dupNames_NoDup files)).
  rewrite sum_occurrences_le.
  - lia.
  - apply Forall_forall. intros k [_ Hk]%dupNames_spec. lia.
Qed.

End Warning.

(** * The further properties on the sample data *)

(** Adding [autumn] to a run of [spring]. *)
Lemma one_more_file_witness :
  ∃ r r',
    aggregate (H := asciiHost) (H0 := quotientHost) [spring] sampleCfg = Some r ∧
    aggregate (H := asciiHost) (H0 := quotientHost) ([spring] ++ [autumn]) sampleCfg = Some r' ∧
    Result.processedCount r' = (Result.processedCount r + 1)%nat ∧
    Summary.grossTotal (Result.summary r') =
      (Summary.grossTotal (Result.summary r) +
       JsSet.size (uniqueApplicants (H := asciiHost) sampleCfg autumn))%nat ∧
    Summary.attendTotal (Result.summary r') =
      (Summary.attendTotal (Result.summary r) +
       JsSet.size (uniqueAttendees (H := asciiHost) sampleCfg autumn))%nat ∧
    (∀ pk name count,
       (pk, name, count) ∈ Result.masterRows r →
       (pk, name,
        (count + if bool_decide (pk ∈ uniqueAttendees (H := asciiHost) sampleCfg autumn)
                 then 1 else 0)%nat)
       ∈ Result.masterRows r') ∧
    (∀ pk, pk ∈ uniqueApplicants (H := asciiHost) sampleCfg autumn →
           ∃ name count, (pk, name, count) ∈ Result.masterRows r').
Proof.
  apply (one_more_file (H := asciiHost) (H0 := quotientHost) [spring] autumn sampleCfg).
  - vm_compute. reflexivity.
  - vm_compute. reflexivity.
Defined.

(** Adding a file that holds its header row only. *)
Lemma file_of_header_rows_only_witness :
  let f := sampleFile "empty.csv" [["id"; "name"; "status"]]%string in
  ∃ r r',
    aggregate (H := asciiHost) (H0 := quotientHost) [spring] sampleCfg = Some r ∧
    aggregate (H := asciiHost) (H0 := quotientHost) ([spring] ++ [f]) sampleCfg = Some r' ∧
    Result.processedCount r' = (Result.processedCount r + 1)%nat ∧
    Result.masterRows r' = Result.masterRows r ∧
    Result.summary r' = Result.summary r.
Proof.
  intros f.
  apply (file_of_header_rows_only (H := asciiHost) (H0 := quotientHost) [spring] f
           (map (map lit) [["id"; "name"; "status"]]%string) sampleCfg).
  - vm_compute. reflexivity.
  - reflexivity.
  - vm_compute. discriminate.
Defined.

(** Submitting [spring] a second time, after [spring] and [autumn]. *)
Lemma resubmitted_name_dropped_witness :
  ∃ r r',
    aggregate (H := asciiHost) (H0 := quotientHost) ([spring; autumn] ++ [spring]) sampleCfg
      = Some r ∧
    aggregate (H := asciiHost) (H0 := quotientHost)
      (filter (fun f => File.name f ≠ File.name spring) [spring; autumn]) sampleCfg = Some r' ∧
    duplicateEntry (File.name spring) ∈ Result.skipped r ∧
    Result.processedCount r = Result.processedCount r' ∧
    Result.masterRows r = Result.masterRows r' ∧
    Result.summary r = Result.summary r'.
Proof.
  apply (resubmitted_name_dropped (H := asciiHost) (H0 := quotientHost)
           [spring; autumn] spring sampleCfg).
  - vm_compute. reflexivity.
  - vm_compute. lia.
Defined.

(** A text with markup in it. *)
Lemma esc_injective_witness :
  esc (lit "a<b & c") = lit "a&lt;b &amp; c" ∧ lit "a<b & c" = lit "a<b & c".
Proof.
  split; [vm_compute; reflexivity|].
  apply (esc_injective (lit "a<b & c") (lit "a<b & c")). reflexivity.
Defined.

(** A number and its text are written alike, and read back as the same
    text. *)
Lemma buildCSV_lossless_witness :
  map (map valueText) ([CsvText (lit "id"); CsvText (lit "n")] ::
                       [[CsvText (lit "a,b"); CsvNumber 5]]) =
  map (map valueText) ([CsvText (lit "id"); CsvText (lit "n")] ::
                       [[CsvText (lit "a,b"); CsvText (lit "5")]]).
Proof.
  apply (buildCSV_lossless
           [CsvText (lit "id"); CsvText (lit "n")] [CsvText (lit "id"); CsvText (lit "n")]
           [[CsvText (lit "a,b"); CsvNumber 5]] [[CsvText (lit "a,b"); CsvText (lit "5")]]).
  - repeat constructor; discriminate.
  - repeat constructor; discriminate.
  - vm_compute. reflexivity.
Defined.

(** A ledger of two rows. *)
Lemma buildMasterCSV_lossless_witness :
  [(lit "K1", lit "Alice, A.", 2%nat); (lit "K3", lit "Carol", 0%nat)] =
  [(lit "K1", lit "Alice, A.", 2%nat); (lit "K3", lit "Carol", 0%nat)] :> list MasterRow.
Proof.
  apply (buildMasterCSV_lossless
           [(lit "K1", lit "Alice, A.", 2%nat); (lit "K3", lit "Carol", 0%nat)]
           [(lit "K1", lit "Alice, A.", 2%nat); (lit "K3", lit "Carol", 0%nat)]).
  reflexivity.
Defined.

(** The label [AZ] is column 51. *)
Lemma colLetterToIndex_range_witness :
  -1 ≤ colLetterToIndex (H := asciiUpperHost) (lit "AZ") ∧
  (colLetterToIndex (H := asciiUpperHost) (lit "AZ") = -1 ↔
   columnLetters (H := asciiUpperHost) (lit "AZ") = []) ∧
  ((length (columnLetters (H := asciiUpperHost) (lit "AZ")) ≤ 11)%nat →
   colLetterToIndex (H := asciiUpperHost) (lit "AZ") < 2 ^ 53).
Proof. exact (colLetterToIndex_range (H := asciiUpperHost) (lit "AZ")). Defined.

(** Two spellings of the label [AZ]. *)
Lemma colLetterToIndex_injective_witness :
  columnLetters (H := asciiUpperHost) (lit " a-z1") =
  columnLetters (H := asciiUpperHost) (lit "AZ").
Proof.
  apply (colLetterToIndex_injective (H := asciiUpperHost) (lit " a-z1") (lit "AZ")).
  - vm_compute. lia.
  - vm_compute. lia.
  - vm_compute. reflexivity.
Defined.

(** [autumn] beside two files named like [spring]. *)
Lemma badge_matches_filter_witness :
  dup [spring; spring; autumn] autumn = false ↔ autumn ∈ toProcess [spring; spring; autumn].
Proof.
  apply (badge_matches_filter [spring; spring; autumn] autumn).
  apply list_elem_of_further, list_elem_of_further, list_elem_of_here.
Defined.
